(** * boardgames-analyzer: the BoardGameGeek client, the dataset retriever
      and the text preprocessor, embedded and verified.

    Source files covered:
    - [src/data_collection/bgg_api_client.py]   (class [BGGDataClient])
    - [src/data_collection/data_retriever.py]   (class [DataRetriever])
    - [src/data_collection/data_preprocessor.py] (class [DataPreprocessor])

    Python values are modelled as the code uses them: a [str] is a sequence
    of Unicode code points, a [dict] is an insertion-ordered association list
    with unique keys, exceptions are values of an error type threaded through
    a state-and-error monad, and the outside world (HTTP, the file system,
    the log, [time.sleep]) is an explicit state.  Where the code copies and
    updates dictionaries ([preprocess_dataset]) they are objects in a heap,
    held by reference.  What the interpreter and the libraries contribute
    (the Unicode tables, [requests], the XML parser, [int], NLTK, the file
    system's permissions, the delays [time.sleep] accepts) is a parameter; [json] is modelled in full, for the
    data this program writes. *)

From Stdlib Require Import String Ascii NArith ZArith List Bool Lia.
From stdpp Require Import base option list gmap.
Import ListNotations.

Set Warnings "-register-all".
Local Open Scope N_scope.

(* ===================================================================== *)
(** * Python strings *)
(* ===================================================================== *)

(** A Python [str] is a sequence of code points. *)
Definition char := N.
Definition str := list char.

(** ASCII literals, for readable examples. *)
Definition py (s : string) : str :=
  map N_of_ascii (list_ascii_of_string s).

(** ** Character classes *)

Definition is_ascii_upper (c : char) : bool := (65 <=? c) && (c <=? 90).
Definition is_ascii_lower (c : char) : bool := (97 <=? c) && (c <=? 122).
Definition is_ascii_digit (c : char) : bool := (48 <=? c) && (c <=? 57).
Definition is_ascii_letter (c : char) : bool :=
  is_ascii_lower c || is_ascii_upper c.

(** CPython's [Py_UNICODE_ISSPACE], which is what [\s] means in a [str]
    pattern and what [str.isspace] tests. *)
Definition is_space (c : char) : bool :=
  ((0x09 <=? c) && (c <=? 0x0D)) || ((0x1C <=? c) && (c <=? 0x20))
  || (c =? 0x85) || (c =? 0xA0) || (c =? 0x1680)
  || ((0x2000 <=? c) && (c <=? 0x200A))
  || (c =? 0x2028) || (c =? 0x2029) || (c =? 0x202F) || (c =? 0x205F)
  || (c =? 0x3000).

(** ** The Unicode character database

    Case mapping and classification of non-ASCII characters come from the
    interpreter's Unicode tables, which are not part of the repository; they
    are taken as a parameter.  ASCII behaviour is fixed below. *)
Record unicode_db := {
  (** [_PyUnicode_ToLowerFull] on a non-ASCII code point *)
  to_lower_full : char -> str;
  (** the final-sigma test of [str.lower]: the characters before (nearest
      first) and after the capital sigma *)
  final_sigma : str -> str -> bool;
  (** [str.isalnum] on a non-ASCII code point *)
  isalnum_ext : char -> bool
}.

(** A database with a handful of real entries, used to run the functions. *)
Definition sample_db : unicode_db := {|
  to_lower_full c :=
    if c =? 0x212A then [0x6B]                 (* KELVIN SIGN -> k *)
    else if c =? 0x130 then [0x69; 0x307]      (* I WITH DOT ABOVE *)
    else if c =? 0xC9 then [0xE9]              (* E ACUTE *)
    else [c];
  final_sigma before after :=
    match before, after with
    | _ :: _, [] => true
    | _, _ => false
    end;
  isalnum_ext c := (c =? 0xC9) || (c =? 0xE9) || (c =? 0xB2)
|}.

Section Text.
Context (db : unicode_db).

(** ** [str.lower] *)

Definition ascii_lower (c : char) : char :=
  if is_ascii_upper c then c + 32 else c.

Definition lower_char (before : str) (c : char) (after : str) : str :=
  if c <? 128 then [ascii_lower c]
  else if c =? 0x3A3 then
    [if final_sigma db before after then 0x3C2 else 0x3C3]
  else to_lower_full db c.

Fixpoint lower_from (before : str) (s : str) : str :=
  match s with
  | [] => []
  | c :: rest => lower_char before c rest ++ lower_from (c :: before) rest
  end.

Definition lower (s : str) : str := lower_from [] s.

(** ** [re.sub(r'[^a-zA-Z\s]', '', text)] *)

(** The character class [[^a-zA-Z\s]]. *)
Definition special_char (c : char) : bool :=
  negb (is_ascii_lower c || is_ascii_upper c || is_space c).

(** Every non-overlapping match of a one-character class is replaced by the
    empty string. *)
Definition re_sub_delete (cls : char -> bool) (text : str) : str :=
  List.filter (fun c => negb (cls c)) text.

(** ** [DataPreprocessor.clean_text] *)
Definition clean_text (text : str) : str :=
  let text := lower text in
  let text := re_sub_delete special_char text in
  text.

(** ** [DataRetriever._sanitize_filename] *)

Definition isalnum (c : char) : bool :=
  if c <? 128 then is_ascii_letter c || is_ascii_digit c
  else isalnum_ext db c.

(** [c in "._-"] for a one-character [c]. *)
Definition in_dot_underscore_dash (c : char) : bool :=
  (c =? 46) || (c =? 95) || (c =? 45).

Definition join_empty (parts : list str) : str := concat parts.

Definition _sanitize_filename (name : str) : str :=
  join_empty
    (map (fun c => if isalnum c || in_dot_underscore_dash c then [c] else py "_")
         name).

End Text.

(** The characters [clean_text] keeps: ASCII letters and whitespace. *)
Definition letter_or_space (c : char) : bool := is_ascii_letter c || is_space c.

(** What [_sanitize_filename] does to one character. *)
Definition sanitize_char (db : unicode_db) (c : char) : char :=
  if isalnum db c || in_dot_underscore_dash c then c else 95.

(** Two facts about the Unicode tables that [clean_text] relies on when it
    is applied twice: no lowercase mapping produces an ASCII capital, and
    whitespace has no case mapping. *)
Definition lowercase_is_not_upper (db : unicode_db) : Prop :=
  forall c d, (128 <= c)%N -> In d (to_lower_full db c) -> is_ascii_upper d = false.

Definition whitespace_is_caseless (db : unicode_db) : Prop :=
  forall c, (128 <= c)%N -> is_space c = true -> to_lower_full db c = [c].

(* ===================================================================== *)
(** * Exceptions, the world, and the monad of effectful code *)
(* ===================================================================== *)

Local Close Scope N_scope.
Local Open Scope Z_scope.

(** Exceptions, with the part of Python's class hierarchy that the [except]
    clauses of the repository distinguish. *)
Inductive request_failure :=
| ConnectionError
| Timeout
| HTTPError (status_code : Z).

Inductive exn :=
| RequestException (f : request_failure)  (* requests.RequestException family *)
| ParseError                              (* xml.etree.ElementTree.ParseError *)
| TypeError
| ValueError
| AttributeError
| KeyError
| PermissionError                         (* an OSError other than the next *)
| FileNotFoundError
| JSONDecodeError
| UnicodeEncodeError
| LookupError
| SystemError
| OverflowError.

(** [except requests.RequestException] *)
Definition is_RequestException (e : exn) : bool :=
  match e with RequestException _ => true | _ => false end.

(** [except ET.ParseError] *)
Definition is_ParseError (e : exn) : bool :=
  match e with ParseError => true | _ => false end.

(** [except IOError]: [IOError] is [OSError]; [requests.RequestException]
    derives from it as well. *)
Definition is_IOError (e : exn) : bool :=
  match e with
  | PermissionError | FileNotFoundError | RequestException _ => true
  | _ => false
  end.

Definition is_FileNotFoundError (e : exn) : bool :=
  match e with FileNotFoundError => true | _ => false end.

Definition is_JSONDecodeError (e : exn) : bool :=
  match e with JSONDecodeError => true | _ => false end.

(** The value of a query parameter. *)
Inductive param := ParamStr (s : str) | ParamInt (n : Z).
Definition params := list (str * param).

(** What [requests.get] gives back. *)
Record response := { status_code : Z; text : str }.

Inductive get_result :=
| GetResponse (r : response)
| GetRaises (e : exn).

(** Log records; the message is kept structured instead of formatted. *)
Inductive level := INFO | WARNING | ERROR.

Inductive message :=
| MsgApiCallFailed (attempt : Z) (e : exn)
| MsgFailedToParseXML (e : exn)
| MsgNoGameFound (game_name : str)
| MsgFailedGameId (game_name : str) (e : exn)
| MsgNoInformation (game_id : Z)
| MsgFailedGameInfo (game_id : Z) (e : exn)
| MsgFailedComments (game_id : Z) (e : exn)
| MsgGameNotFound (game_name : str)
| MsgRetrieved (count : nat) (game_name : str)
| MsgErrorRetrieving (game_name : str) (e : exn)
| MsgSavedComments (game_name : str) (filename : str)
| MsgFailedSaveComments (game_name : str) (e : exn)
| MsgSavedFull (path : str)
| MsgFailedSaveFull (e : exn)
| MsgLoaded (path : str)
| MsgDatasetNotFound (path : str)
| MsgFailedParseJSON (path : str) (e : exn)
| MsgTokenizationError (e : exn).

(** Everything the program does to the outside, in the order it happens:
    an HTTP request, a [time.sleep], a log record, and a file opened for
    writing (and so created or emptied). *)
Inductive event :=
| EvGet (url : str) (p : params)
| EvSleep (seconds : Z)
| EvLog (l : level) (m : message)
| EvWrite (path : str).

(** A file holds text, or a write to it was cut short by an exception: then
    it holds a proper prefix of a JSON document.  What cannot be read as
    text (a directory, a file without read permission, bytes that are not
    UTF-8) is there with the exception that opening or reading it raises. *)
Inductive file :=
| FileText (content : str)
| FileTruncated
| FileUnreadable (e : exn).

(** Python values that are plain data: what the client puts into a comment
    and what [json] writes and reads back.  Numbers and Booleans do not occur
    in the data this program builds and are left out. *)
Inductive pyval :=
| PNone
| PStr (s : str)
| PList (items : list pyval)
| PDict (items : list (str * pyval)).

(** Mutable objects live in a heap and are held by reference; [None] and
    strings are immutable and held directly. *)
Inductive val :=
| VNone
| VStr (s : str)
| VRef (address : nat).

Inductive obj :=
| ODict (items : list (str * val))
| OList (items : list val).

Record world := {
  (** number of HTTP requests issued so far *)
  requests_sent : nat;
  files : gmap str file;
  heap : list obj;
  trace : list event
}.

Inductive result (A : Type) :=
| Returns (a : A)
| Raises (e : exn).
Arguments Returns {A} a.
Arguments Raises {A} e.

Definition M (A : Type) : Type := world -> result A * world.

Definition ret {A} (a : A) : M A := fun w => (Returns a, w).
Definition raise {A} (e : exn) : M A := fun w => (Raises e, w).
Definition bind {A B} (m : M A) (k : A -> M B) : M B :=
  fun w => match m w with
           | (Returns a, w') => k a w'
           | (Raises e, w') => (Raises e, w')
           end.

(** [try: m  except <handles>: h] *)
Definition try_except {A} (m : M A) (handles : exn -> bool) (h : exn -> M A) : M A :=
  fun w => match m w with
           | (Returns a, w') => (Returns a, w')
           | (Raises e, w') => if handles e then h e w' else (Raises e, w')
           end.

(** [except Exception] *)
Definition is_Exception (e : exn) : bool := true.

Declare Scope py_scope.
Delimit Scope py_scope with py_scope.
Notation "x <- m ;; k" := (bind m (fun x => k))
  (at level 100, m at next level, right associativity) : py_scope.
Notation "m ;;; k" := (bind m (fun _ => k))
  (at level 100, right associativity) : py_scope.
Local Open Scope py_scope.

(** The world after some more events. *)
Definition add_events (w : world) (t : list event) : world :=
  {| requests_sent := requests_sent w; files := files w; heap := heap w; trace := trace w ++ t |}.

Definition emit (e : event) : M unit :=
  fun w => (Returns tt,
            {| requests_sent := requests_sent w; files := files w; heap := heap w;
               trace := trace w ++ [e] |}).

Definition log (l : level) (m : message) : M unit := emit (EvLog l m).

(** XML documents as [xml.etree.ElementTree] presents them. *)
Inductive element :=
| Element (tag : str) (attrib : list (str * str)) (etext : option str)
          (children : list element).

Definition tag_of (e : element) : str := let 'Element t _ _ _ := e in t.
Definition attrib_of (e : element) := let 'Element _ a _ _ := e in a.
Definition text_of (e : element) := let 'Element _ _ t _ := e in t.
Definition children_of (e : element) := let 'Element _ _ _ c := e in c.

Definition str_eqb (a b : str) : bool := bool_decide (a = b).

(** A Python [dict] with string keys: insertion-ordered, keys unique. *)
Fixpoint dict_get {V} (d : list (str * V)) (k : str) : option V :=
  match d with
  | [] => None
  | (k', v) :: rest => if str_eqb k' k then Some v else dict_get rest k
  end.

(** [d[k] = v]: an existing key keeps its position. *)
Fixpoint dict_set {V} (d : list (str * V)) (k : str) (v : V) : list (str * V) :=
  match d with
  | [] => [(k, v)]
  | (k', v') :: rest =>
      if str_eqb k' k then (k', v) :: rest else (k', v') :: dict_set rest k v
  end.

(** [Element.get(key)] *)
Definition element_get (e : element) (key : str) : option str :=
  dict_get (attrib_of e) key.

(** [Element.find(tag)]: the first child with that tag. *)
Definition element_find (e : element) (t : str) : option element :=
  List.find (fun c => str_eqb (tag_of c) t) (children_of e).

(** [Element.findall(".//tag")]: every descendant with that tag, in document
    order; the element itself is not a candidate. *)
Fixpoint subtree_matches (t : str) (e : element) : list element :=
  let 'Element _ _ _ cs := e in
  (if str_eqb (tag_of e) t then [e] else [])
  ++ flat_map (subtree_matches t) cs.

Definition element_findall_descendants (e : element) (t : str) : list element :=
  flat_map (subtree_matches t) (children_of e).

(** An attribute value, or [None]. *)
Definition pyval_of_option (o : option str) : pyval :=
  match o with
  | Some s => PStr s
  | None => PNone
  end.

(** What the program takes from its interpreter and libraries. *)
Record externals := {
  unicode : unicode_db;
  (** [requests.get(url, params=params)], for the request with the given
      sequence number *)
  requests_get : str -> params -> nat -> get_result;
  (** [ET.fromstring]; [None] stands for [ParseError] *)
  ET_fromstring : str -> option element;
  (** [int(s)] on a string; [None] stands for [ValueError] *)
  int_of_str : str -> option Z;
  (** [nltk.word_tokenize]; [None] when it raises (missing resource) *)
  word_tokenize : str -> option (list str);
  (** [stopwords.words('english')]; [None] when it raises *)
  stopwords_english : option (list str);
  (** whether [open(path, "w")] is refused with an [OSError] *)
  write_refused : str -> bool;
  (** [time.sleep] on a non-negative delay: [None] when it sleeps, the
      exception when the delay is longer than the clock of the platform can
      hold ([OverflowError], or [OSError] for the deadline) *)
  time_sleep : Z -> option exn
}.

(* ===================================================================== *)
(** * [BGGDataClient] *)
(* ===================================================================== *)

Record BGGDataClient := {
  max_retries : Z;
  retry_delay : Z
}.

(** [BGGDataClient()] *)
Definition default_client : BGGDataClient :=
  {| max_retries := 3; retry_delay := 2 |}.

Definition api_base_url : str := py "https://boardgamegeek.com/xmlapi2".

(** The two endpoints and the query parameters of the three lookups. *)
Definition search_url : str := api_base_url ++ py "/search".
Definition thing_url : str := api_base_url ++ py "/thing".

Definition search_params (game_name : str) : params :=
  [(py "query", ParamStr game_name); (py "type", ParamStr (py "boardgame"))].

Definition info_params (game_id : Z) : params := [(py "id", ParamInt game_id)].

Definition comments_params (game_id max_comments : Z) : params :=
  [(py "id", ParamInt game_id); (py "comments", ParamInt 1);
   (py "ratingcomments", ParamInt 1); (py "pagesize", ParamInt max_comments)].

(** [range(n)] *)
Definition range (n : Z) : list Z := map Z.of_nat (seq 0 (Z.to_nat n)).

Section Client.
Context (X : externals) (self : BGGDataClient).

(** [requests.get(url, params=params)] *)
Definition do_requests_get (url : str) (p : params) : M response :=
  fun w =>
    let w' := {| requests_sent := S (requests_sent w); files := files w; heap := heap w;
                 trace := trace w ++ [EvGet url p] |} in
    match requests_get X url p (requests_sent w) with
    | GetResponse r => (Returns r, w')
    | GetRaises e => (Raises e, w')
    end.

(** [Response.raise_for_status]: client and server error codes raise. *)
Definition raise_for_status (r : response) : M unit :=
  if (400 <=? status_code r) && (status_code r <? 600)
  then raise (RequestException (HTTPError (status_code r)))
  else ret tt.

(** [time.sleep(seconds)]: a negative argument is a [ValueError], and a
    delay the clock cannot hold is refused. *)
Definition sleep (seconds : Z) : M unit :=
  if seconds <? 0 then raise ValueError
  else match time_sleep X seconds with
       | Some e => raise e
       | None => emit (EvSleep seconds)
       end.

(** The body of the [for attempt in range(self.max_retries)] loop, over the
    attempts that remain.  Falling off the end of the loop returns [None]. *)
Fixpoint _safe_api_call_loop (url : str) (p : params) (attempts : list Z)
  : M (option str) :=
  match attempts with
  | [] => ret None
  | attempt :: rest =>
      try_except
        (response <- do_requests_get url p ;;
         raise_for_status response ;;;
         ret (Some (text response)))
        is_RequestException
        (fun e =>
           log WARNING (MsgApiCallFailed (attempt + 1) e) ;;;
           if attempt <? max_retries self - 1 then
             sleep (retry_delay self * (attempt + 1)) ;;;
             _safe_api_call_loop url p rest
           else raise e)
  end.

Definition _safe_api_call (url : str) (p : params) : M (option str) :=
  _safe_api_call_loop url p (range (max_retries self)).

(** [_parse_xml]; the argument is whatever [_safe_api_call] returned, and
    [ET.fromstring(None)] is a [TypeError]. *)
Definition fromstring (xml_string : option str) : M element :=
  match xml_string with
  | None => raise TypeError
  | Some s => match ET_fromstring X s with
              | Some root => ret root
              | None => raise ParseError
              end
  end.

Definition _parse_xml (xml_string : option str) : M element :=
  try_except (fromstring xml_string) is_ParseError
    (fun e => log ERROR (MsgFailedToParseXML e) ;;; raise e).

(** [int(x)] where [x] may be [None]. *)
Definition int (x : option str) : M Z :=
  match x with
  | None => raise TypeError
  | Some s => match int_of_str X s with
              | Some n => ret n
              | None => raise ValueError
              end
  end.

Definition get_game_id (game_name : str) : M (option Z) :=
  let p := search_params game_name in
  try_except
    (xml_data <- _safe_api_call search_url p ;;
     root <- _parse_xml xml_data ;;
     match element_find root (py "item") with
     | Some game =>
         n <- int (element_get game (py "id")) ;;
         ret (Some n)
     | None =>
         log WARNING (MsgNoGameFound game_name) ;;;
         ret None
     end)
    is_Exception
    (fun e => log ERROR (MsgFailedGameId game_name e) ;;; ret None).

(** The dictionary built by [get_game_info]. *)
Record game_info := {
  info_id : Z;
  info_name : option str;
  info_year : option str;
  info_description : option str
}.

Definition get_game_info (game_id : Z) : M (option game_info) :=
  let p := info_params game_id in
  try_except
    (xml_data <- _safe_api_call thing_url p ;;
     root <- _parse_xml xml_data ;;
     match element_find root (py "item") with
     | Some item =>
         ret (Some
           {| info_id := game_id;
              info_name :=
                match element_find item (py "name") with
                | Some n => element_get n (py "value")
                | None => None
                end;
              info_year :=
                match element_find item (py "yearpublished") with
                | Some y => element_get y (py "value")
                | None => None
                end;
              info_description :=
                match element_find item (py "description") with
                | Some d => text_of d
                | None => None
                end |})
     | None =>
         log WARNING (MsgNoInformation game_id) ;;;
         ret None
     end)
    is_Exception
    (fun e => log ERROR (MsgFailedGameInfo game_id e) ;;; ret None).

(** A comment as [get_game_comments] builds it: three keys, in this order,
    each value a string or [None]. *)
Definition comment_of_element (c : element) : pyval :=
  PDict [ (py "username", pyval_of_option (element_get c (py "username")));
          (py "rating", pyval_of_option (element_get c (py "rating")));
          (py "value", pyval_of_option (element_get c (py "value"))) ].

Definition get_game_comments (game_id : Z) (max_comments : Z)
  : M (list pyval) :=
  let p := comments_params game_id max_comments in
  try_except
    (xml_data <- _safe_api_call thing_url p ;;
     root <- _parse_xml xml_data ;;
     ret (map comment_of_element (element_findall_descendants root (py "comment"))))
    is_Exception
    (fun e => log ERROR (MsgFailedComments game_id e) ;;; ret []).

End Client.

(* ===================================================================== *)
(** * The [json] module, as the retriever calls it *)
(* ===================================================================== *)

Module Json.
Local Open Scope N_scope.

(** ** [json.dump(obj, f, ensure_ascii=False, indent=2)] *)

Definition quote : char := 34.
Definition backslash : char := 92.

(** Lower-case hexadecimal digit, as ['\\u{0:04x}'] prints it. *)
Definition hex_digit (n : N) : char := if n <? 10 then 48 + n else 87 + n.

(** [ESCAPE_DCT]: the quote, the backslash and the control characters are
    escaped; everything else, non-ASCII included, is written as it is. *)
Definition escape_char (c : char) : str :=
  if c =? quote then [backslash; quote]
  else if c =? backslash then [backslash; backslash]
  else if c =? 8 then [backslash; 98]      (* \b *)
  else if c =? 12 then [backslash; 102]    (* \f *)
  else if c =? 10 then [backslash; 110]    (* \n *)
  else if c =? 13 then [backslash; 114]    (* \r *)
  else if c =? 9 then [backslash; 116]     (* \t *)
  else if c <? 32 then
    [backslash; 117; 48; 48; hex_digit (c / 16); hex_digit (c mod 16)]
  else [c].

Definition encode_basestring (s : str) : str :=
  [quote] ++ flat_map escape_char s ++ [quote].

(** ['\n' + ' ' * (2 * level)] *)
Definition newline_indent (level : nat) : str := 10 :: repeat 32 (2 * level)%nat.

(** [separator.join(parts)] *)
Fixpoint join (separator : str) (parts : list str) : str :=
  match parts with
  | [] => []
  | [p] => p
  | p :: rest => p ++ separator ++ join separator rest
  end.

Fixpoint encode (level : nat) (o : pyval) : str :=
  match o with
  | PNone => py "null"
  | PStr s => encode_basestring s
  | PList [] => py "[]"
  | PList items =>
      [91] ++ newline_indent (S level)
      ++ join (44 :: newline_indent (S level)) (map (encode (S level)) items)
      ++ newline_indent level ++ [93]
  | PDict [] => py "{}"
  | PDict items =>
      [123] ++ newline_indent (S level)
      ++ join (44 :: newline_indent (S level))
           (map (fun kv => encode_basestring (fst kv) ++ py ": "
                           ++ encode (S level) (snd kv)) items)
      ++ newline_indent level ++ [125]
  end.

Definition dumps (o : pyval) : str := encode 0 o.

(** ** [json.load(f)] *)

(** [WHITESPACE = re.compile(r'[ \t\n\r]*')] *)
Definition is_whitespace (c : char) : bool :=
  (c =? 32) || (c =? 9) || (c =? 10) || (c =? 13).

Fixpoint skip_whitespace (s : str) : str :=
  match s with
  | c :: rest => if is_whitespace c then skip_whitespace rest else s
  | [] => []
  end.

Definition hex_value (c : char) : option N :=
  if (48 <=? c) && (c <=? 57) then Some (c - 48)
  else if (97 <=? c) && (c <=? 102) then Some (c - 87)
  else if (65 <=? c) && (c <=? 70) then Some (c - 55)
  else None.

(** [_decode_uXXXX] on four characters. *)
Definition decode_uXXXX (a b c d : char) : option N :=
  match hex_value a, hex_value b, hex_value c, hex_value d with
  | Some x3, Some x2, Some x1, Some x0 => Some (((x3 * 16 + x2) * 16 + x1) * 16 + x0)
  | _, _, _, _ => None
  end.

(** [BACKSLASH]: the one-character escapes. *)
Definition unescape (c : char) : option char :=
  if c =? quote then Some quote
  else if c =? backslash then Some backslash
  else if c =? 47 then Some 47
  else if c =? 98 then Some 8
  else if c =? 102 then Some 12
  else if c =? 110 then Some 10
  else if c =? 114 then Some 13
  else if c =? 116 then Some 9
  else None.

(** [scanstring], strict, from behind the opening quote: the string read so
    far, then the text; gives the string and what follows the closing quote.
    A high surrogate escape followed by a low surrogate escape is one
    character. *)
Fixpoint scanstring (chunks : str) (s : str) : option (str * str) :=
  match s with
  | [] => None
  | c :: rest =>
      if c =? quote then Some (chunks, rest)
      else if c =? backslash then
        match rest with
        | [] => None
        | esc :: rest1 =>
            if esc =? 117 then
              match rest1 with
              | h3 :: h2 :: h1 :: h0 :: rest2 =>
                  match decode_uXXXX h3 h2 h1 h0 with
                  | None => None
                  | Some uni =>
                      if (0xD800 <=? uni) && (uni <=? 0xDBFF) then
                        match rest2 with
                        | 92 :: 117 :: rest3 =>
                            match rest3 with
                            | g3 :: g2 :: g1 :: g0 :: rest4 =>
                                match decode_uXXXX g3 g2 g1 g0 with
                                | None => None
                                | Some uni2 =>
                                    if (0xDC00 <=? uni2) && (uni2 <=? 0xDFFF) then
                                      scanstring
                                        (chunks ++ [0x10000 + (uni - 0xD800) * 1024
                                                    + (uni2 - 0xDC00)])
                                        rest4
                                    else scanstring (chunks ++ [uni]) rest2
                                end
                            | _ => None
                            end
                        | _ => scanstring (chunks ++ [uni]) rest2
                        end
                      else scanstring (chunks ++ [uni]) rest2
                  end
              | _ => None
              end
            else
              match unescape esc with
              | Some ch => scanstring (chunks ++ [ch]) rest1
              | None => None
              end
        end
      else if c <? 32 then None
      else scanstring (chunks ++ [c]) rest
  end.

(** [dict(pairs)]: a repeated key keeps its first place and its last value. *)
Definition dict_of_pairs (pairs : list (str * pyval)) : list (str * pyval) :=
  fold_left (fun d kv => dict_set d (fst kv) (snd kv)) pairs [].

(** [scan_once], [JSONArray] and [JSONObject].  The scanner calls itself for
    every nested value; [fuel] bounds the calls and the length of the text
    is always enough.  Number and Boolean literals are outside the data
    model and are not accepted. *)
Fixpoint scan_once (fuel : nat) (s : str) {struct fuel} : option (pyval * str) :=
  match fuel with
  | O => None
  | S fuel =>
      match s with
      | 34 :: rest =>
          match scanstring [] rest with
          | Some (text, rest') => Some (PStr text, rest')
          | None => None
          end
      | 123 :: rest =>
          match skip_whitespace rest with
          | 125 :: rest' => Some (PDict [], rest')
          | 34 :: rest' => parse_object fuel [] rest'
          | _ => None
          end
      | 91 :: rest =>
          match skip_whitespace rest with
          | 93 :: rest' => Some (PList [], rest')
          | s' => parse_array fuel [] s'
          end
      | 110 :: 117 :: 108 :: 108 :: rest => Some (PNone, rest)
      | _ => None
      end
  end

(** The loop of [JSONArray], in front of the next value. *)
with parse_array (fuel : nat) (values : list pyval) (s : str) {struct fuel}
  : option (pyval * str) :=
  match fuel with
  | O => None
  | S fuel =>
      match scan_once fuel s with
      | None => None
      | Some (value, rest) =>
          match skip_whitespace rest with
          | 93 :: rest' => Some (PList (values ++ [value]), rest')
          | 44 :: rest' => parse_array fuel (values ++ [value]) (skip_whitespace rest')
          | _ => None
          end
      end
  end

(** The loop of [JSONObject], behind the opening quote of the next key. *)
with parse_object (fuel : nat) (pairs : list (str * pyval)) (s : str) {struct fuel}
  : option (pyval * str) :=
  match fuel with
  | O => None
  | S fuel =>
      match scanstring [] s with
      | None => None
      | Some (key, rest) =>
          match skip_whitespace rest with
          | 58 :: rest1 =>
              match scan_once fuel (skip_whitespace rest1) with
              | None => None
              | Some (value, rest2) =>
                  match skip_whitespace rest2 with
                  | 125 :: rest3 =>
                      Some (PDict (dict_of_pairs (pairs ++ [(key, value)])), rest3)
                  | 44 :: rest3 =>
                      match skip_whitespace rest3 with
                      | 34 :: rest4 => parse_object fuel (pairs ++ [(key, value)]) rest4
                      | _ => None
                      end
                  | _ => None
                  end
              end
          | _ => None
          end
      end
  end.

(** [json.loads]: one value, white space around it, and nothing else. *)
Definition loads (s : str) : option pyval :=
  match scan_once (S (length s)) (skip_whitespace s) with
  | Some (o, rest) =>
      match skip_whitespace rest with
      | [] => Some o
      | _ => None
      end
  | None => None
  end.

(** The text does not begin with white space. *)
Definition starts_black (s : str) : Prop :=
  match s with
  | c :: _ => is_whitespace c = false
  | [] => True
  end.

End Json.

(* ===================================================================== *)
(** * Files *)
(* ===================================================================== *)

(** [posixpath.join(a, b)] *)
Definition os_path_join (a b : str) : str :=
  match b with
  | 47%N :: _ => b
  | _ =>
      match last a with
      | None => a ++ b
      | Some c => if (c =? 47)%N then a ++ b else a ++ [47%N] ++ b
      end
  end.

(** Text that the UTF-8 codec accepts: no surrogate code points. *)
Definition utf8_encodable (s : str) : bool :=
  forallb (fun c => negb ((0xD800 <=? c)%N && (c <=? 0xDFFF)%N)) s.

Definition set_file (w : world) (path : str) (f : file) : world :=
  {| requests_sent := requests_sent w; files := <[path := f]> (files w);
     heap := heap w; trace := trace w |}.

Section Files.
Context (X : externals).

(** [with open(path, "w", encoding="utf-8") as f:
       json.dump(o, f, ensure_ascii=False, indent=2)]

    Opening may be refused with an [OSError].  Once the file is open it is
    empty; the document is written piece by piece, and a piece that UTF-8
    cannot encode raises [UnicodeEncodeError] and leaves the file cut short. *)
Definition write_json (path : str) (o : pyval) : M unit :=
  fun w =>
    if write_refused X path then (Raises PermissionError, w)
    else
      let w := add_events w [EvWrite path] in
      let document := Json.dumps o in
      if utf8_encodable document
      then (Returns tt, set_file w path (FileText document))
      else (Raises UnicodeEncodeError, set_file w path FileTruncated).

(** [with open(path, "r", encoding="utf-8") as f: data = json.load(f)] *)
Definition read_json (path : str) : M pyval :=
  fun w =>
    match files w !! path with
    | None => (Raises FileNotFoundError, w)
    | Some FileTruncated => (Raises JSONDecodeError, w)
    | Some (FileUnreadable e) => (Raises e, w)
    | Some (FileText document) =>
        match Json.loads document with
        | Some o => (Returns o, w)
        | None => (Raises JSONDecodeError, w)
        end
    end.

End Files.

(* ===================================================================== *)
(** * [DataRetriever] *)
(* ===================================================================== *)

Record DataRetriever := {
  output_dir : str;
  download_path : option str;
  bgg_client : BGGDataClient
}.

(** [DataRetriever(output_dir, download_path)] *)
Definition DataRetriever_init (output_dir : str) (download_path : option str)
  : DataRetriever :=
  {| output_dir := output_dir; download_path := download_path;
     bgg_client := default_client |}.

(** [a or b] where [a] is a string or [None]: the empty string is false. *)
Definition or_else (a : option str) (b : option str) : option str :=
  match a with
  | Some (_ :: _) => a
  | _ => b
  end.

Section Retriever.
Context (X : externals) (self : DataRetriever).

Definition game_file (game_name : str) : str :=
  os_path_join (output_dir self)
    (_sanitize_filename (unicode X) game_name ++ py "_comments.json").

Definition full_dataset_path : str :=
  os_path_join (output_dir self) (py "full_comments_dataset.json").

Definition _save_game_comments (game_name : str) (comments : pyval) : M unit :=
  let game_filename := game_file game_name in
  try_except
    (write_json X game_filename comments ;;;
     log INFO (MsgSavedComments game_name game_filename))
    is_IOError
    (fun e => log ERROR (MsgFailedSaveComments game_name e)).

Definition _save_full_dataset (dataset : pyval) : M unit :=
  let path := full_dataset_path in
  try_except
    (write_json X path dataset ;;;
     log INFO (MsgSavedFull path))
    is_IOError
    (fun e => log ERROR (MsgFailedSaveFull e)).

(** [source or self.download_path or os.path.join(...)] *)
Definition load_path (source : option str) : str :=
  match or_else source (or_else (download_path self) (Some full_dataset_path)) with
  | Some path => path
  | None => full_dataset_path
  end.

Definition load_local_dataset (source : option str) : M pyval :=
  let path := load_path source in
  try_except
    (data <- read_json path ;;
     log INFO (MsgLoaded path) ;;;
     ret data)
    (fun e => is_FileNotFoundError e || is_JSONDecodeError e)
    (fun e =>
       if is_FileNotFoundError e then
         log ERROR (MsgDatasetNotFound path) ;;; ret (PDict [])
       else
         log ERROR (MsgFailedParseJSON path e) ;;; ret (PDict [])).

(** One turn of the loop of [retrieve_comments].  [all_comments] is a local
    dictionary that the body updates in place, so an exception raised after
    the update leaves the new entry behind: the one [except Exception] of the
    source appears twice, once for each state of the dictionary. *)
Definition retrieve_comments_step (max_comments : Z)
    (all_comments : list (str * pyval)) (game_name : str)
  : M (list (str * pyval)) :=
  try_except
    (game_id <- get_game_id X (bgg_client self) game_name ;;
     match game_id with
     | None =>
         log WARNING (MsgGameNotFound game_name) ;;;
         ret all_comments
     | Some game_id =>
         comments <- get_game_comments X (bgg_client self) game_id max_comments ;;
         let all_comments := dict_set all_comments game_name (PList comments) in
         try_except
           (log INFO (MsgRetrieved (length comments) game_name) ;;;
            _save_game_comments game_name (PList comments) ;;;
            ret all_comments)
           is_Exception
           (fun e => log ERROR (MsgErrorRetrieving game_name e) ;;; ret all_comments)
     end)
    is_Exception
    (fun e => log ERROR (MsgErrorRetrieving game_name e) ;;; ret all_comments).

Fixpoint retrieve_comments_loop (max_comments : Z) (games : list str)
    (all_comments : list (str * pyval)) : M (list (str * pyval)) :=
  match games with
  | [] => ret all_comments
  | game_name :: rest =>
      all_comments <- retrieve_comments_step max_comments all_comments game_name ;;
      retrieve_comments_loop max_comments rest all_comments
  end.

Definition retrieve_comments (games : list str) (max_comments : Z)
  : M (list (str * pyval)) :=
  all_comments <- retrieve_comments_loop max_comments games [] ;;
  _save_full_dataset (PDict all_comments) ;;;
  ret all_comments.

End Retriever.

(* ===================================================================== *)
(** * [DataPreprocessor] *)
(* ===================================================================== *)

(** ** Objects in the heap

    [preprocess_dataset] copies dictionaries and updates the copies, so its
    model works on the heap: a dictionary or a list is an object at an
    address, and a value holds it by reference. *)

Definition set_heap (w : world) (h : list obj) : world :=
  {| requests_sent := requests_sent w; files := files w; heap := h; trace := trace w |}.

(** A new object; its address is the next free one. *)
Definition alloc (o : obj) : M val :=
  fun w => (Returns (VRef (length (heap w))), set_heap w (heap w ++ [o])).

(** The object a reference points to.  An address without an object does not
    occur in a heap built by [alloc]; the model answers it with
    [SystemError]. *)
Definition deref (v : val) : M (option obj) :=
  fun w =>
    match v with
    | VRef a => match heap w !! a with
                | Some o => (Returns (Some o), w)
                | None => (Raises SystemError, w)
                end
    | _ => (Returns None, w)
    end.

Definition update (a : nat) (o : obj) : M unit :=
  fun w => (Returns tt, set_heap w (<[a := o]> (heap w))).

(** [d.items()] *)
Definition py_items (d : val) : M (list (str * val)) :=
  o <- deref d ;;
  match o with
  | Some (ODict items) => ret items
  | _ => raise AttributeError
  end.

(** [for x in xs]: the elements of a list, the keys of a dictionary, the
    characters of a string; [None] is not iterable. *)
Definition py_iter (xs : val) : M (list val) :=
  o <- deref xs ;;
  match o, xs with
  | Some (OList items), _ => ret items
  | Some (ODict items), _ => ret (map (fun kv => VStr (fst kv)) items)
  | None, VStr s => ret (map (fun c => VStr [c]) s)
  | None, _ => raise TypeError
  end.

(** [x.copy()]: a new object with the same entries (a shallow copy). *)
Definition py_copy (x : val) : M val :=
  o <- deref x ;;
  match o with
  | Some o => alloc o
  | None => raise AttributeError
  end.

(** [x[key]] with a string key. *)
Definition py_getitem (x : val) (key : str) : M val :=
  o <- deref x ;;
  match o with
  | Some (ODict items) =>
      match dict_get items key with
      | Some v => ret v
      | None => raise KeyError
      end
  | _ => raise TypeError
  end.

(** [x[key] = v] with a string key. *)
Definition py_setitem (x : val) (key : str) (v : val) : M unit :=
  o <- deref x ;;
  match o, x with
  | Some (ODict items), VRef a => update a (ODict (dict_set items key v))
  | _, _ => raise TypeError
  end.

(** [xs.append(v)] *)
Definition py_append (xs : val) (v : val) : M unit :=
  o <- deref xs ;;
  match o, xs with
  | Some (OList items), VRef a => update a (OList (items ++ [v]))
  | _, _ => raise AttributeError
  end.

Section Preprocessor.
Context (X : externals).

(** [self.clean_text(text)]: [text.lower()] needs a string. *)
Definition py_clean_text (text : val) : M val :=
  match text with
  | VStr s => ret (VStr (clean_text (unicode X) s))
  | _ => raise AttributeError
  end.

(** [token not in stop_words] *)
Definition is_stop_word (stop_words : list str) (token : str) : bool :=
  existsb (str_eqb token) stop_words.

(** [DataPreprocessor.tokenize]; a missing NLTK resource is a
    [LookupError]. *)
Definition tokenize (text : val) : M (list str) :=
  try_except
    (tokens <- match text with
               | VStr s => match word_tokenize X s with
                           | Some tokens => ret tokens
                           | None => raise LookupError
                           end
               | _ => raise TypeError
               end ;;
     stop_words <- match stopwords_english X with
                   | Some words => ret words
                   | None => raise LookupError
                   end ;;
     let tokens := List.filter (fun token => negb (is_stop_word stop_words token)) tokens in
     ret tokens)
    is_Exception
    (fun e => log ERROR (MsgTokenizationError e) ;;; ret []).

(** The body of [for comment in comments], over the comments that remain.
    The loops run over the elements their sequence had when they started;
    the body writes to objects of its own making only. *)
Fixpoint preprocess_comments (comments : list val) (preprocessed_comments : val)
  : M unit :=
  match comments with
  | [] => ret tt
  | comment :: rest =>
      preprocessed_comment <- py_copy comment ;;
      value <- py_getitem comment (py "value") ;;
      cleaned <- py_clean_text value ;;
      py_setitem preprocessed_comment (py "clean_text") cleaned ;;;
      text <- py_getitem preprocessed_comment (py "clean_text") ;;
      tokens <- tokenize text ;;
      tokens <- alloc (OList (map VStr tokens)) ;;
      py_setitem preprocessed_comment (py "tokens") tokens ;;;
      py_append preprocessed_comments preprocessed_comment ;;;
      preprocess_comments rest preprocessed_comments
  end.

(** The body of [for game, comments in dataset.items()]. *)
Fixpoint preprocess_games (items : list (str * val)) (preprocessed_dataset : val)
  : M unit :=
  match items with
  | [] => ret tt
  | (game, comments) :: rest =>
      preprocessed_comments <- alloc (OList []) ;;
      comments <- py_iter comments ;;
      preprocess_comments comments preprocessed_comments ;;;
      py_setitem preprocessed_dataset game preprocessed_comments ;;;
      preprocess_games rest preprocessed_dataset
  end.

Definition preprocess_dataset (dataset : val) : M val :=
  preprocessed_dataset <- alloc (ODict []) ;;
  items <- py_items dataset ;;
  preprocess_games items preprocessed_dataset ;;;
  ret preprocessed_dataset.

End Preprocessor.

(** ** Reading the heap as plain data *)

(** [represents_within A h v o]: in heap [h], the value [v] is the data [o],
    and every object that has to be read for it sits at an address in [A]. *)
Inductive represents_within (A : nat -> Prop) (h : list obj) : val -> pyval -> Prop :=
| represents_None : represents_within A h VNone PNone
| represents_str s : represents_within A h (VStr s) (PStr s)
| represents_list a items data :
    A a ->
    h !! a = Some (OList items) ->
    Forall2 (represents_within A h) items data ->
    represents_within A h (VRef a) (PList data)
| represents_dict a items data :
    A a ->
    h !! a = Some (ODict items) ->
    Forall2 (fun kv entry => fst kv = fst entry
                             /\ represents_within A h (snd kv) (snd entry))
            items data ->
    represents_within A h (VRef a) (PDict data).

(** [represents h v o]: in heap [h], the value [v] is the data [o]. *)
Definition represents (h : list obj) : val -> pyval -> Prop :=
  represents_within (fun _ => True) h.

(** Entry by entry, a dictionary in the heap is the dictionary of the data. *)
Definition entries_represent (A : nat -> Prop) (h : list obj)
    (items : list (str * val)) (data : list (str * pyval)) : Prop :=
  Forall2 (fun kv entry => fst kv = fst entry
                           /\ represents_within A h (snd kv) (snd entry))
          items data.

(** The addresses a finished part of the result may occupy: below the end
    of the heap, and neither the list [pc] nor the dictionary [pd] that are
    under construction. *)
Definition settled (pc pd : nat) (w : world) (a : nat) : Prop :=
  (a < length (heap w))%nat /\ a <> pc /\ a <> pd.

(** ** The preprocessed dataset, as the specification describes it

    Every comment keeps its fields and gains [clean_text], the cleaned
    [value], and [tokens], the tokens of that text without stop words. *)

Definition tokens_of (X : externals) (text : str) : list str :=
  match word_tokenize X text, stopwords_english X with
  | Some tokens, Some stop_words =>
      List.filter (fun token => negb (is_stop_word stop_words token)) tokens
  | _, _ => []
  end.

Definition preprocessed_comment (X : externals) (comment : pyval) : pyval :=
  match comment with
  | PDict fields =>
      match dict_get fields (py "value") with
      | Some (PStr value) =>
          let cleaned := clean_text (unicode X) value in
          PDict (dict_set (dict_set fields (py "clean_text") (PStr cleaned))
                          (py "tokens") (PList (map PStr (tokens_of X cleaned))))
      | _ => comment
      end
  | _ => comment
  end.

Definition preprocessed_comments (X : externals) (comments : pyval) : pyval :=
  match comments with
  | PList comments => PList (map (preprocessed_comment X) comments)
  | _ => comments
  end.

Definition preprocessed (X : externals) (dataset : list (str * pyval))
  : list (str * pyval) :=
  map (fun entry => (fst entry, preprocessed_comments X (snd entry))) dataset.

(** A comment with a string under ["value"]. *)
Definition has_text (comment : pyval) : Prop :=
  exists fields value,
    comment = PDict fields /\ dict_get fields (py "value") = Some (PStr value).

(** A dataset in which every comment has a string under ["value"]. *)
Definition comments_have_text (dataset : list (str * pyval)) : Prop :=
  Forall (fun entry => exists comments,
            snd entry = PList comments /\ Forall has_text comments) dataset.

(** ** Observations on a trace *)

Definition sleeps_of (t : list event) : list Z :=
  flat_map (fun e => match e with EvSleep s => [s] | _ => [] end) t.

Definition gets_of (t : list event) : list (str * params) :=
  flat_map (fun e => match e with EvGet u p => [(u, p)] | _ => [] end) t.

Definition logs_of (t : list event) : list (level * message) :=
  flat_map (fun e => match e with EvLog l m => [(l, m)] | _ => [] end) t.

Definition writes_of (t : list event) : list str :=
  flat_map (fun e => match e with EvWrite p => [p] | _ => [] end) t.

Fixpoint strictly_increasing (l : list Z) : bool :=
  match l with
  | a :: ((b :: _) as rest) => (a <? b) && strictly_increasing rest
  | _ => true
  end.

(** The exception an attempt ends with, when the request raises a
    [RequestException] or [raise_for_status] does. *)
Definition attempt_failure (g : get_result) : option exn :=
  match g with
  | GetRaises e => if is_RequestException e then Some e else None
  | GetResponse r =>
      if (400 <=? status_code r) && (status_code r <? 600)
      then Some (RequestException (HTTPError (status_code r)))
      else None
  end.

(** The events of one failed attempt of [_safe_api_call]. *)
Definition failed_attempt_events (self : BGGDataClient) (url : str) (p : params)
    (attempt : Z) (e : exn) : list event :=
  [EvGet url p; EvLog WARNING (MsgApiCallFailed (attempt + 1) e)]
  ++ (if attempt <? max_retries self - 1
      then [EvSleep (retry_delay self * (attempt + 1))] else []).

(** The exception with which request number [n] fails. *)
Definition failure_at (X : externals) (url : str) (p : params) (n : nat) : exn :=
  default ValueError (attempt_failure (requests_get X url p n)).

(** Every one of the requests a call of [_safe_api_call] may issue from
    world [w] on fails. *)
Definition every_attempt_fails (X : externals) (self : BGGDataClient)
    (url : str) (p : params) (w : world) : Prop :=
  forall k : nat, (k < Z.to_nat (max_retries self))%nat ->
    attempt_failure (requests_get X url p (requests_sent w + k)) <> None.

(** [time.sleep] accepts the delays that follow the first [k] attempts. *)
Definition sleeps_accepted (X : externals) (self : BGGDataClient) (k : nat) : Prop :=
  forall j : nat, (1 <= j <= k)%nat ->
    time_sleep X (retry_delay self * Z.of_nat j) = None.

(** The events of attempts [i, i+1, ..., i+m-1], all failed, when the first
    request of the call has sequence number [first]. *)
Definition failed_attempts_events (X : externals) (self : BGGDataClient)
    (url : str) (p : params) (first i m : nat) : list event :=
  flat_map (fun k => failed_attempt_events self url p (Z.of_nat k)
                       (failure_at X url p (first + k)))
           (seq i m).

(** The events a computation added to the trace. *)
Definition new_events (w w' : world) : list event :=
  drop (length (trace w)) (trace w').

(** ** Sample worlds, to run the functions *)

Definition initial_world : world :=
  {| requests_sent := 0; files := ∅; heap := []; trace := [] |}.

(** [time.sleep] on a clock of 64-bit nanoseconds: a delay from 9223372037
    seconds on does not fit. *)
Definition sample_sleep (seconds : Z) : option exn :=
  if 9223372036 <? seconds then Some OverflowError else None.

(** A service that is down: a refused connection, a timeout, then 503s. *)
Definition offline : externals := {|
  unicode := sample_db;
  requests_get _ _ n :=
    match n with
    | O => GetRaises (RequestException ConnectionError)
    | S O => GetRaises (RequestException Timeout)
    | _ => GetResponse {| status_code := 503; text := py "Service Unavailable" |}
    end;
  ET_fromstring _ := None;
  int_of_str _ := None;
  word_tokenize _ := None;
  stopwords_english := None;
  write_refused _ := false;
  time_sleep := sample_sleep
|}.

(** A service that answers every request with 304 Not Modified. *)
Definition not_modified : externals := {|
  unicode := sample_db;
  requests_get _ _ _ := GetResponse {| status_code := 304; text := [] |};
  ET_fromstring _ := None;
  int_of_str _ := None;
  word_tokenize _ := None;
  stopwords_english := None;
  write_refused _ := false;
  time_sleep := sample_sleep
|}.

(** ** The retry property as the specification words it

    An attempt fails on a connection error, a timeout or a non-2xx status;
    the call then makes [max_retries] attempts, sleeps [retry_delay * k]
    after the k-th, the sleeps increase strictly, and a failure is raised. *)
Definition fails_as_specified (g : get_result) : bool :=
  match g with
  | GetRaises e => is_RequestException e
  | GetResponse r => negb ((200 <=? status_code r) && (status_code r <? 300))
  end.

Definition fetchRaw_spec (X : externals) (self : BGGDataClient)
    (url : str) (p : params) (w : world) : Prop :=
  (forall k : nat, (k < Z.to_nat (max_retries self))%nat ->
     fails_as_specified (requests_get X url p (requests_sent w + k)) = true) ->
  let run := _safe_api_call X self url p w in
  let t := new_events w (snd run) in
  (exists e, fst run = Raises e)
  /\ length (gets_of t) = Z.to_nat (max_retries self)
  /\ sleeps_of t = map (fun k => retry_delay self * Z.of_nat k)
                       (seq 1 (Z.to_nat (max_retries self) - 1))
  /\ strictly_increasing (sleeps_of t) = true.

(** ** A sample service, to run the lookups

    Three canned documents and the trees [ET.fromstring] makes of them; every
    other text counts as malformed. *)

Definition catan_search_xml : str :=
  py "<items total='1'><item type='boardgame' id='13'><name type='primary' value='CATAN'/></item></items>".

Definition catan_search_tree : element :=
  Element (py "items") [(py "total", py "1")] None
    [ Element (py "item") [(py "type", py "boardgame"); (py "id", py "13")] None
        [ Element (py "name") [(py "type", py "primary"); (py "value", py "CATAN")]
            None [] ] ].

Definition no_match_xml : str := py "<items total='0'></items>".

Definition no_match_tree : element :=
  Element (py "items") [(py "total", py "0")] None [].

Definition catan_comments_xml : str :=
  py "<items><item type='boardgame' id='13'><comments page='1'><comment username='ann' rating='8' value='Great!! (1995)'/><comment username='bob' rating='N/A'/></comments></item></items>".

Definition catan_comments_tree : element :=
  Element (py "items") [] None
    [ Element (py "item") [(py "type", py "boardgame"); (py "id", py "13")] None
        [ Element (py "comments") [(py "page", py "1")] None
            [ Element (py "comment")
                [(py "username", py "ann"); (py "rating", py "8");
                 (py "value", py "Great!! (1995)")] None [];
              Element (py "comment")
                [(py "username", py "bob"); (py "rating", py "N/A")] None [] ] ] ].

Definition truncated_xml : str := py "<items total='1'><item type=".

Definition sample_fromstring (s : str) : option element :=
  if str_eqb s catan_search_xml then Some catan_search_tree
  else if str_eqb s no_match_xml then Some no_match_tree
  else if str_eqb s catan_comments_xml then Some catan_comments_tree
  else None.

(** Decimal digits only; enough for the ids of the sample. *)
Fixpoint digits_value (acc : Z) (s : str) : option Z :=
  match s with
  | [] => Some acc
  | c :: rest =>
      if is_ascii_digit c then digits_value (10 * acc + (Z.of_N c - 48)) rest
      else None
  end.

Definition sample_int (s : str) : option Z :=
  match s with [] => None | _ => digits_value 0 s end.

(** What the sample service answers: a search for "Catan" finds game 13, a
    search for "Broken" is answered with a cut-off document, any other search
    finds nothing; the thing endpoint serves the comments of game 13. *)
Definition sample_get (url : str) (p : params) (n : nat) : get_result :=
  if str_eqb url search_url then
    match dict_get p (py "query") with
    | Some (ParamStr q) =>
        if str_eqb q (py "Catan") then
          GetResponse {| status_code := 200; text := catan_search_xml |}
        else if str_eqb q (py "Broken") then
          GetResponse {| status_code := 200; text := truncated_xml |}
        else GetResponse {| status_code := 200; text := no_match_xml |}
    | _ => GetResponse {| status_code := 400; text := [] |}
    end
  else
    match dict_get p (py "id") with
    | Some (ParamInt 13) =>
        GetResponse {| status_code := 200; text := catan_comments_xml |}
    | Some (ParamInt 7) =>
        GetResponse {| status_code := 200; text := truncated_xml |}
    | _ => GetResponse {| status_code := 404; text := [] |}
    end.

Definition sample_service : externals := {|
  unicode := sample_db;
  requests_get := sample_get;
  ET_fromstring := sample_fromstring;
  int_of_str := sample_int;
  word_tokenize _ := None;
  stopwords_english := None;
  write_refused _ := false;
  time_sleep := sample_sleep
|}.

(** ** Well-formed Python data *)

Fixpoint nodupb (keys : list str) : bool :=
  match keys with
  | [] => true
  | k :: rest => negb (existsb (str_eqb k) rest) && nodupb rest
  end.

(** The keys of every dictionary are distinct, as in any Python [dict]. *)
Fixpoint unique_keys (o : pyval) : bool :=
  match o with
  | PNone | PStr _ => true
  | PList items => forallb unique_keys items
  | PDict items =>
      nodupb (map fst items) && forallb (fun kv => unique_keys (snd kv)) items
  end.

(** Every string in the value, keys included, is text that UTF-8 encodes. *)
Fixpoint encodable (o : pyval) : bool :=
  match o with
  | PNone => true
  | PStr s => utf8_encodable s
  | PList items => forallb encodable items
  | PDict items =>
      forallb (fun kv => utf8_encodable (fst kv) && encodable (snd kv)) items
  end.

(** The number of values in a value; a bound on the calls the scanner makes
    to read it back. *)
Fixpoint size (o : pyval) : nat :=
  match o with
  | PNone | PStr _ => 1
  | PList items => S (fold_right (fun x n => S (size x + n)) O items)
  | PDict items => S (fold_right (fun kv n => S (size (snd kv) + n)) O items)
  end.

(** ** What a run of [retrieve_comments] looks up

    The answers of the service may change from one request to the next, so
    "the lookup of a name succeeded" refers to the world in which the loop
    reaches that name. *)

Section RetrieverRun.
Context (X : externals) (self : DataRetriever) (max_comments : Z).

(** The world one turn of the loop leaves; it does not depend on the
    dictionary collected so far. *)
Definition world_after_step (game_name : str) (w : world) : world :=
  snd (retrieve_comments_step X self max_comments [] game_name w).

(** For every name, what [get_game_id] answers when the loop reaches it. *)
Fixpoint id_lookups (games : list str) (w : world) : list (str * option Z) :=
  match games with
  | [] => []
  | game_name :: rest =>
      (game_name,
       match fst (get_game_id X (bgg_client self) game_name w) with
       | Returns game_id => game_id
       | Raises _ => None
       end)
      :: id_lookups rest (world_after_step game_name w)
  end.

(** The names whose lookup gave an id, in input order. *)
Definition found_names (games : list str) (w : world) : list str :=
  map fst (List.filter (fun lookup => bool_decide (is_Some (snd lookup)))
                       (id_lookups games w)).

End RetrieverRun.

(** A list of names without the later occurrences of a repeated name: the
    order in which a dictionary comes to hold them. *)
Fixpoint first_occurrences (seen : list str) (names : list str) : list str :=
  match names with
  | [] => []
  | name :: rest =>
      if existsb (str_eqb name) seen then first_occurrences seen rest
      else name :: first_occurrences (seen ++ [name]) rest
  end.

(** The attribute values of a document are text that UTF-8 encodes. *)
Fixpoint element_encodable (e : element) : bool :=
  let 'Element _ attrib _ children := e in
  forallb (fun kv => utf8_encodable (snd kv)) attrib
  && forallb element_encodable children.

(** The XML parser reads UTF-8: no string it returns holds a surrogate. *)
Definition parser_encodable (X : externals) : Prop :=
  forall s root, ET_fromstring X s = Some root -> element_encodable root = true.

(** The second world continues the first without touching a file. *)
Definition quiet (w w' : world) : Prop :=
  files w' = files w /\ heap w' = heap w
  /\ exists t, trace w' = trace w ++ t /\ writes_of t = [].

Definition quiet_M {A} (m : M A) : Prop := forall w, quiet w (snd (m w)).

(** The second world continues the first, and the files opened for writing
    in between are [paths], in this order. *)
Definition wrote (w w' : world) (paths : list str) : Prop :=
  exists t, trace w' = trace w ++ t /\ writes_of t = paths.

(** The per-game file of a name, when the file system lets it be written. *)
Definition written_files (X : externals) (paths : list str) : list str :=
  List.filter (fun path => negb (write_refused X path)) paths.

(** ** Objects a computation leaves alone *)

(** A reference to an address from [n] on; any other value. *)
Definition fresh (n : nat) (v : val) : Prop :=
  match v with
  | VRef a => (n <= a)%nat
  | _ => True
  end.

(** From a heap that holds at least [n] objects, the computation leaves the
    first [n] objects and the files as they are, and what it returns
    satisfies [Q]. *)
Definition keeps {A} (n : nat) (m : M A) (Q : A -> Prop) : Prop :=
  forall w, (n <= length (heap w))%nat ->
    (n <= length (heap (snd (m w))))%nat
    /\ (forall a, (a < n)%nat -> heap (snd (m w)) !! a = heap w !! a)
    /\ files (snd (m w)) = files w
    /\ (forall r, fst (m w) = Returns r -> Q r).

(** ** A sample retriever and a sample dataset *)

Definition sample_retriever : DataRetriever :=
  DataRetriever_init (py "data/raw_comments") None.

(** Two games; the first comment holds a quote, a backslash, a line feed, a
    control character, an accented letter and an emoji. *)
Definition sample_dataset : pyval :=
  PDict
    [ (py "Catan",
       PList
         [ PDict [ (py "username", PStr (py "ann"));
                   (py "rating", PStr (py "8"));
                   (py "value",
                    PStr (py "Tr" ++ [232; 115; 32; 34; 92; 10; 1; 128512]%N)) ];
           PDict [ (py "username", PNone);
                   (py "rating", PStr (py "N/A"));
                   (py "value", PNone) ] ]);
      (py "On Mars", PList []) ].

(** ** A sample tokenizer and sample heaps *)

(** Words separated by blanks; a stand-in for [nltk.word_tokenize]. *)
Fixpoint split_blanks (word : str) (text : str) : list str :=
  match text with
  | [] => match word with [] => [] | _ => [word] end
  | c :: rest =>
      if is_space c then
        match word with
        | [] => split_blanks [] rest
        | _ => word :: split_blanks [] rest
        end
      else split_blanks (word ++ [c]) rest
  end.

Definition sample_nltk : externals := {|
  unicode := sample_db;
  requests_get := sample_get;
  ET_fromstring := sample_fromstring;
  int_of_str := sample_int;
  word_tokenize text := Some (split_blanks [] text);
  stopwords_english := Some [py "the"; py "is"; py "a"];
  write_refused _ := false;
  time_sleep := sample_sleep
|}.

(** A dataset with one game and one comment, as objects. *)
Definition sample_heap : list obj :=
  [ ODict [ (py "username", VStr (py "ann")); (py "rating", VStr (py "8"));
            (py "value", VStr (py "Catan IS Great!! (1995)")) ];
    OList [VRef 0];
    ODict [(py "Catan", VRef 1)] ].

(** The same with a comment whose value is [None], as [get_game_comments]
    builds it for a [comment] element without a [value] attribute. *)
Definition null_value_heap : list obj :=
  [ ODict [ (py "username", VStr (py "bob")); (py "rating", VStr (py "N/A"));
            (py "value", VNone) ];
    OList [VRef 0];
    ODict [(py "Catan", VRef 1)] ].

(** The same with a comment that has no ["value"] key. *)
Definition missing_value_heap : list obj :=
  [ ODict [ (py "username", VStr (py "bob")); (py "rating", VStr (py "N/A")) ];
    OList [VRef 0];
    ODict [(py "Catan", VRef 1)] ].

(* ===================================================================== *)
(** * Further definitions *)
(* ===================================================================== *)

(** The sum of the sleeps: the time a call spends waiting. *)
Definition total (durations : list Z) : Z := fold_right Z.add 0 durations.

(** The computation sends at most [k] requests. *)
Definition sends_at_most {A} (k : nat) (m : M A) : Prop :=
  forall w,
    (requests_sent w <= requests_sent (snd (m w)) <= requests_sent w + k)%nat.

(** [d] is below [e] in the document: a child of [e], or below a child. *)
Inductive descendant (d : element) : element -> Prop :=
| descendant_child e : In d (children_of e) -> descendant d e
| descendant_deeper e c : In c (children_of e) -> descendant d c -> descendant d e.

(** Document order: an element comes before what is below it, and that
    before its later siblings. *)
Fixpoint preorder (e : element) : list element :=
  let 'Element _ _ _ cs := e in
  e :: flat_map preorder cs.

(** A service whose documents hold a lone surrogate: a game with one
    comment whose text UTF-8 cannot encode. *)
Definition surrogate_tree : element :=
  Element (py "items") [] None
    [ Element (py "item") [(py "id", py "13")] None
        [ Element (py "comment") [(py "value", [0xD800%N])] None [] ] ].

Definition surrogate_service : externals := {|
  unicode := sample_db;
  requests_get _ _ _ := GetResponse {| status_code := 200; text := [] |};
  ET_fromstring _ := Some surrogate_tree;
  int_of_str := sample_int;
  word_tokenize _ := None;
  stopwords_english := None;
  write_refused _ := false;
  time_sleep := sample_sleep
|}.

(** A world in which the path ["data"] is a directory: opening it for
    reading raises an [OSError]. *)
Definition directory_world : world :=
  set_file initial_world (py "data") (FileUnreadable PermissionError).

(** A file system that refuses every write. *)
Definition read_only : externals := {|
  unicode := sample_db;
  requests_get := sample_get;
  ET_fromstring := sample_fromstring;
  int_of_str := sample_int;
  word_tokenize _ := None;
  stopwords_english := None;
  write_refused _ := true;
  time_sleep := sample_sleep
|}.

(** What [clean_text] makes of one character, wherever it stands. *)
Definition clean_char (db : unicode_db) (c : char) : str :=
  List.filter letter_or_space (lower_char db [] c []).

(** How often a token occurs in a list of tokens. *)
Definition occurrences (token : str) (tokens : list str) : nat :=
  length (List.filter (str_eqb token) tokens).

(** [tokens] is [all] with some elements left out. *)
Fixpoint subsequence (tokens all : list str) : Prop :=
  match tokens, all with
  | [], _ => True
  | _ :: _, [] => False
  | t :: tokens', a :: all' =>
      (t = a /\ subsequence tokens' all') \/ subsequence tokens all'
  end.

(** The exception [preprocess_dataset] meets at a comment that has no text
    under ["value"]: the key is missing, the value has no [lower], the
    comment is a list (no string index) or it has no [copy]. *)
Definition text_error (comment : pyval) : exn :=
  match comment with
  | PDict fields =>
      match dict_get fields (py "value") with
      | None => KeyError
      | Some _ => AttributeError
      end
  | PList _ => TypeError
  | _ => AttributeError
  end.

(** A dataset with one game and two comments; the second has no text. *)
Definition second_comment_heap : list obj :=
  [ ODict [ (py "username", VStr (py "ann")); (py "rating", VStr (py "8"));
            (py "value", VStr (py "Great")) ];
    ODict [ (py "username", VStr (py "bob")); (py "rating", VStr (py "N/A"));
            (py "value", VNone) ];
    OList [VRef 0; VRef 1];
    ODict [(py "Catan", VRef 2)] ].

(** A dataset as the retriever builds it: under every name a list of
    comment records made from elements of a document. *)
Definition comment_lists (dataset : list (str * pyval)) : Prop :=
  Forall (fun entry => exists elements,
            snd entry = PList (map comment_of_element elements)) dataset.

(** What the sample service delivers for ["Catan"], as objects. *)
Definition catan_heap : list obj :=
  [ ODict [ (py "username", VStr (py "ann")); (py "rating", VStr (py "8"));
            (py "value", VStr (py "Great!! (1995)")) ];
    ODict [ (py "username", VStr (py "bob")); (py "rating", VStr (py "N/A"));
            (py "value", VNone) ];
    OList [VRef 0; VRef 1];
    ODict [(py "Catan", VRef 2)] ].

(** A service whose replies are well formed and hold an [item], but not one
    that [get_game_id] reads an id from: for ["NoId"] the first [item] has no
    [id] attribute (the second has), for ["OddId"] the [id] is not an
    integer, for ["Nested"] the [item] is not a child of the root.  The body
    of a reply is the name that was asked for. *)
Definition no_id_tree : element :=
  Element (py "items") [(py "total", py "2")] None
    [ Element (py "item") [(py "type", py "boardgame")] None [];
      Element (py "item") [(py "type", py "boardgame"); (py "id", py "13")] None [] ].

Definition odd_id_tree : element :=
  Element (py "items") [(py "total", py "1")] None
    [ Element (py "item") [(py "id", py "12.5")] None [] ].

Definition nested_item_tree : element :=
  Element (py "response") [] None
    [ Element (py "items") [(py "total", py "1")] None
        [ Element (py "item") [(py "id", py "13")] None [] ] ].

Definition incomplete_service : externals := {|
  unicode := sample_db;
  requests_get _ p _ :=
    match dict_get p (py "query") with
    | Some (ParamStr q) => GetResponse {| status_code := 200; text := q |}
    | _ => GetResponse {| status_code := 400; text := [] |}
    end;
  ET_fromstring s :=
    if str_eqb s (py "NoId") then Some no_id_tree
    else if str_eqb s (py "OddId") then Some odd_id_tree
    else if str_eqb s (py "Nested") then Some nested_item_tree
    else None;
  int_of_str := sample_int;
  word_tokenize _ := None;
  stopwords_english := None;
  write_refused _ := false;
  time_sleep := sample_sleep
|}.

(** A service whose first [item] has an id that is not a number. *)
Definition bad_id_service : externals := {|
  unicode := sample_db;
  requests_get _ _ _ := GetResponse {| status_code := 200; text := [] |};
  ET_fromstring _ :=
    Some (Element (py "items") [] None
            [ Element (py "item") [(py "id", py "thirteen")] None [];
              Element (py "item") [(py "id", py "13")] None [] ]);
  int_of_str := sample_int;
  word_tokenize _ := None;
  stopwords_english := None;
  write_refused _ := false;
  time_sleep := sample_sleep
|}.

(** The computation leaves the heap and every file outside [paths] as they
    are. *)
Definition touches_only {A} (paths : str -> Prop) (m : M A) : Prop :=
  forall w,
    heap (snd (m w)) = heap w
    /\ forall path, ~ paths path -> files (snd (m w)) !! path = files w !! path.

(* ===================================================================== *)
(** * Results *)
(* ===================================================================== *)

Section SafeApiCall.
Context (X : externals) (self : BGGDataClient) (url : str) (p : params).

Lemma safe_api_call_loop_cons_fail attempt rest w e :
  attempt_failure (requests_get X url p (requests_sent w)) = Some e ->
  0 <= retry_delay self -> 0 <= attempt ->
  (attempt < max_retries self - 1 ->
   time_sleep X (retry_delay self * (attempt + 1)) = None) ->
  _safe_api_call_loop X self url p (attempt :: rest) w =
    (let w' := {| requests_sent := S (requests_sent w); files := files w; heap := heap w;
                  trace := trace w ++ failed_attempt_events self url p attempt e |} in
     if attempt <? max_retries self - 1
     then _safe_api_call_loop X self url p rest w'
     else (Raises e, w')).
Proof.
  intros Hf Hd Ha Hacc. cbn [_safe_api_call_loop].
  unfold try_except, bind, do_requests_get, attempt_failure in *.
  assert (Hs : (retry_delay self * (attempt + 1) <? 0) = false) by (apply Z.ltb_ge; nia).
  destruct (requests_get X url p (requests_sent w)) as [r|e0]; cbn.
  - unfold raise_for_status.
    destruct ((400 <=? status_code r) && (status_code r <? 600)); [|discriminate].
    injection Hf as <-. cbn. unfold failed_attempt_events, sleep.
    destruct (Z.ltb_spec attempt (max_retries self - 1)) as [Hlt|Hge]; cbn.
    + rewrite Hs, (Hacc Hlt). cbn. rewrite <- !app_assoc. reflexivity.
    + rewrite <- !app_assoc. reflexivity.
  - destruct (is_RequestException e0); [|discriminate].
    injection Hf as <-. cbn. unfold failed_attempt_events, sleep.
    destruct (Z.ltb_spec attempt (max_retries self - 1)) as [Hlt|Hge]; cbn.
    + rewrite Hs, (Hacc Hlt). cbn. rewrite <- !app_assoc. reflexivity.
    + rewrite <- !app_assoc. reflexivity.
Qed.

End SafeApiCall.

Section SafeApiCallFailing.
Context (X : externals) (self : BGGDataClient) (url : str) (p : params).
Hypothesis delay_nonneg : 0 <= retry_delay self.

Let n := Z.to_nat (max_retries self).

Hypothesis sleeps_ok : sleeps_accepted X self (n - 1).

Lemma safe_api_call_loop_all_fail m : forall i first w,
  (i + m = n)%nat -> (1 <= m)%nat ->
  requests_sent w = (first + i)%nat ->
  (forall k, (k < n)%nat -> attempt_failure (requests_get X url p (first + k)) <> None) ->
  _safe_api_call_loop X self url p (map Z.of_nat (seq i m)) w =
    (Raises (failure_at X url p (first + n - 1)),
     {| requests_sent := (first + n)%nat; files := files w; heap := heap w;
        trace := trace w ++ failed_attempts_events X self url p first i m |}).
Proof.
  induction m as [|m IH]; intros i first w Him Hm Hw Hall; [lia|].
  cbn [seq map].
  destruct (attempt_failure (requests_get X url p (first + i))) as [e|] eqn:He;
    [|exfalso; apply (Hall i); [lia|exact He]].
  rewrite (safe_api_call_loop_cons_fail X self url p _ _ w e);
    [| rewrite Hw; exact He | assumption | lia
     | intros Hlt; replace (Z.of_nat i + 1) with (Z.of_nat (S i)) by lia;
       apply sleeps_ok; subst n; lia].
  assert (Hfa : failure_at X url p (first + i) = e) by (unfold failure_at; rewrite He; reflexivity).
  unfold failed_attempts_events. cbn [seq flat_map]. rewrite Hfa.
  cbv zeta.
  destruct (Z.of_nat i <? max_retries self - 1) eqn:Hlt.
  - apply Z.ltb_lt in Hlt.
    assert (1 <= m)%nat by (subst n; lia).
    rewrite (IH (S i) first); cbn [requests_sent files trace]; [| lia | assumption | lia | assumption].
    rewrite <- app_assoc. reflexivity.
  - apply Z.ltb_ge in Hlt.
    assert (m = 0)%nat by (subst n; lia). subst m.
    cbn [seq flat_map]. rewrite app_nil_r.
    replace (first + n - 1)%nat with (first + i)%nat by lia.
    replace (first + n)%nat with (S (requests_sent w)) by lia.
    rewrite Hfa. reflexivity.
Qed.

End SafeApiCallFailing.

Lemma sleeps_of_app t1 t2 : sleeps_of (t1 ++ t2) = sleeps_of t1 ++ sleeps_of t2.
Proof. unfold sleeps_of. apply flat_map_app. Qed.

Lemma gets_of_app t1 t2 : gets_of (t1 ++ t2) = gets_of t1 ++ gets_of t2.
Proof. unfold gets_of. apply flat_map_app. Qed.

Lemma logs_of_app t1 t2 : logs_of (t1 ++ t2) = logs_of t1 ++ logs_of t2.
Proof. unfold logs_of. apply flat_map_app. Qed.

Lemma writes_of_app t1 t2 : writes_of (t1 ++ t2) = writes_of t1 ++ writes_of t2.
Proof. unfold writes_of. apply flat_map_app. Qed.

Lemma failed_attempts_gets X self url p first m : forall i,
  gets_of (failed_attempts_events X self url p first i m) = repeat (url, p) m.
Proof.
  unfold failed_attempts_events.
  induction m as [|m IH]; intros i; [reflexivity|].
  cbn [seq flat_map repeat]. rewrite gets_of_app, IH.
  unfold failed_attempt_events. rewrite gets_of_app.
  destruct (Z.of_nat i <? max_retries self - 1); reflexivity.
Qed.

Lemma failed_attempts_sleeps X self url p first m : forall i,
  (i + m = Z.to_nat (max_retries self))%nat -> (1 <= m)%nat ->
  sleeps_of (failed_attempts_events X self url p first i m) =
    map (fun k => retry_delay self * Z.of_nat k) (seq (S i) (m - 1)).
Proof.
  unfold failed_attempts_events.
  induction m as [|m IH]; intros i Him Hm; [lia|].
  cbn [seq flat_map]. rewrite sleeps_of_app.
  unfold failed_attempt_events at 1. rewrite sleeps_of_app.
  destruct (Z.of_nat i <? max_retries self - 1) eqn:Hlt.
  - apply Z.ltb_lt in Hlt. destruct m as [|m]; [lia|].
    rewrite (IH (S i)) by lia.
    replace (S (S m) - 1)%nat with (S (S m - 1)) by lia.
    cbn [seq map sleeps_of flat_map app].
    replace (Z.of_nat i + 1) with (Z.of_nat (S i)) by lia. reflexivity.
  - apply Z.ltb_ge in Hlt. assert (m = 0)%nat by lia. subst m. reflexivity.
Qed.

Lemma failed_attempts_logs X self url p first m : forall i,
  logs_of (failed_attempts_events X self url p first i m) =
    map (fun k => (WARNING, MsgApiCallFailed (Z.of_nat k + 1)
                              (failure_at X url p (first + k))))
        (seq i m).
Proof.
  unfold failed_attempts_events.
  induction m as [|m IH]; intros i; [reflexivity|].
  cbn [seq flat_map map]. rewrite logs_of_app, IH.
  unfold failed_attempt_events. rewrite logs_of_app.
  destruct (Z.of_nat i <? max_retries self - 1); reflexivity.
Qed.

Lemma linear_backoff_increasing d len : forall a,
  0 < d ->
  strictly_increasing (map (fun k => d * Z.of_nat k) (seq a len)) = true.
Proof.
  induction len as [|len IH]; intros a Hd; [reflexivity|].
  destruct len as [|len]; [reflexivity|].
  specialize (IH (S a) Hd).
  change (seq a (S (S len))) with (a :: seq (S a) (S len)).
  change (seq (S a) (S len)) with (S a :: seq (S (S a)) len) in *.
  cbn [map] in *.
  change ((d * Z.of_nat a <? d * Z.of_nat (S a))
          && strictly_increasing
               (d * Z.of_nat (S a) :: map (fun k => d * Z.of_nat k) (seq (S (S a)) len))
          = true).
  rewrite IH, andb_true_r. apply Z.ltb_lt. nia.
Qed.

(** C1 (amended): when the client is configured with at least one attempt
    and a non-negative delay, [time.sleep] accepts each of the delays
    [retry_delay * k] for k = 1 .. max_retries - 1 (it refuses a delay that
    its clock cannot hold, from about 9.2e9 seconds on), and every attempt of
    a call of [_safe_api_call] fails (the request raises a
    [RequestException], or answers with a 4xx or 5xx status so that
    [raise_for_status] raises), the call issues exactly [max_retries]
    requests, logs a warning after each one, sleeps [retry_delay * k] after
    the k-th attempt (k = 1 .. max_retries - 1, no sleep after the last), and
    raises the exception of the last attempt; the sleeps are strictly
    increasing when [retry_delay] is positive. *)
Theorem safe_api_call_persistent_failure
    (X : externals) (self : BGGDataClient) (url : str) (p : params) (w : world) :
  1 <= max_retries self ->
  0 <= retry_delay self ->
  sleeps_accepted X self (Z.to_nat (max_retries self) - 1) ->
  every_attempt_fails X self url p w ->
  let n := Z.to_nat (max_retries self) in
  let t := failed_attempts_events X self url p (requests_sent w) 0 n in
  _safe_api_call X self url p w =
    (Raises (failure_at X url p (requests_sent w + n - 1)),
     {| requests_sent := (requests_sent w + n)%nat; files := files w; heap := heap w;
        trace := trace w ++ t |})
  /\ gets_of t = repeat (url, p) n
  /\ logs_of t = map (fun k => (WARNING, MsgApiCallFailed (Z.of_nat k + 1)
                                  (failure_at X url p (requests_sent w + k))))
                     (seq 0 n)
  /\ sleeps_of t = map (fun k => retry_delay self * Z.of_nat k) (seq 1 (n - 1))
  /\ (0 < retry_delay self -> strictly_increasing (sleeps_of t) = true).
Proof.
  intros Hn Hd Hacc Hall n t.
  assert (Hs : sleeps_of t = map (fun k => retry_delay self * Z.of_nat k) (seq 1 (n - 1))).
  { subst t. apply failed_attempts_sleeps; subst n; lia. }
  split; [|split; [|split; [|split]]].
  - unfold _safe_api_call, range.
    apply (safe_api_call_loop_all_fail X self url p Hd Hacc n 0%nat (requests_sent w) w);
      [reflexivity | subst n; lia | lia | exact Hall].
  - apply failed_attempts_gets.
  - apply failed_attempts_logs.
  - exact Hs.
  - intros Hpos. rewrite Hs. apply linear_backoff_increasing. exact Hpos.
Qed.

Lemma safe_api_call_persistent_failure_witness :
  _safe_api_call offline default_client (py "u") [] initial_world =
    (Raises (RequestException (HTTPError 503)),
     {| requests_sent := 3; files := ∅; heap := [];
        trace := [ EvGet (py "u") [];
                   EvLog WARNING (MsgApiCallFailed 1 (RequestException ConnectionError));
                   EvSleep 2;
                   EvGet (py "u") [];
                   EvLog WARNING (MsgApiCallFailed 2 (RequestException Timeout));
                   EvSleep 4;
                   EvGet (py "u") [];
                   EvLog WARNING (MsgApiCallFailed 3 (RequestException (HTTPError 503))) ] |}).
Proof.
  assert (H1 : 1 <= max_retries default_client) by (simpl; lia).
  assert (H2 : 0 <= retry_delay default_client) by (simpl; lia).
  assert (H3 : every_attempt_fails offline default_client (py "u") [] initial_world).
  { intros k Hk. destruct k as [|[|[|k]]]; simpl in *; first [discriminate | lia]. }
  assert (H4 : sleeps_accepted offline default_client
                 (Z.to_nat (max_retries default_client) - 1)).
  { intros j Hj. simpl in Hj. destruct j as [|[|[|j]]]; first [reflexivity | lia]. }
  destruct (safe_api_call_persistent_failure offline default_client (py "u") []
              initial_world H1 H2 H4 H3) as [Hrun _].
  rewrite Hrun. reflexivity.
Defined.

Lemma fetchRaw_spec_counterexample :
  ~ fetchRaw_spec offline {| max_retries := 3; retry_delay := 0 |} (py "u") [] initial_world
  /\ ~ fetchRaw_spec offline {| max_retries := 3; retry_delay := -1 |} (py "u") [] initial_world
  /\ ~ fetchRaw_spec offline {| max_retries := 0; retry_delay := 2 |} (py "u") [] initial_world
  /\ ~ fetchRaw_spec not_modified default_client (py "u") [] initial_world
  /\ ~ fetchRaw_spec offline {| max_retries := 3; retry_delay := 10000000000 |} (py "u") []
        initial_world.
Proof.
  repeat split; intros H.
  - destruct H as (_ & _ & _ & Hinc).
    + intros k Hk. destruct k as [|[|[|k]]]; simpl in *; first [reflexivity | lia].
    + vm_compute in Hinc. discriminate.
  - destruct H as (_ & Hgets & _).
    + intros k Hk. destruct k as [|[|[|k]]]; simpl in *; first [reflexivity | lia].
    + vm_compute in Hgets. discriminate.
  - destruct H as ([e He] & _).
    + intros k Hk. simpl in Hk. lia.
    + vm_compute in He. discriminate.
  - destruct H as ([e He] & _).
    + intros k Hk. reflexivity.
    + vm_compute in He. discriminate.
  - destruct H as (_ & Hgets & _).
    + intros k Hk. destruct k as [|[|[|k]]]; simpl in *; first [reflexivity | lia].
    + vm_compute in Hgets. discriminate.
Qed.

(* --------------------------------------------------------------------- *)
(** ** Text cleaning and file names *)
(* --------------------------------------------------------------------- *)

Section TextFacts.
Context (db : unicode_db).
Local Open Scope N_scope.

Lemma clean_text_unfold s :
  clean_text db s = List.filter letter_or_space (lower db s).
Proof.
  unfold clean_text, re_sub_delete. apply filter_ext. intros c.
  unfold special_char, letter_or_space, is_ascii_letter. apply negb_involutive.
Qed.

Lemma lower_from_ascii s : forall before,
  Forall (fun c => c < 128) s -> lower_from db before s = map ascii_lower s.
Proof.
  induction s as [|c s IH]; intros before Hs; [reflexivity|].
  inversion Hs as [|? ? Hc Hs']; subst. cbn [lower_from map].
  unfold lower_char. apply N.ltb_lt in Hc. rewrite Hc. cbn [app].
  f_equal. apply IH. assumption.
Qed.

Lemma digit_not_kept c : is_ascii_digit c = true -> letter_or_space c = false.
Proof.
  unfold is_ascii_digit, letter_or_space, is_ascii_letter, is_ascii_lower,
    is_ascii_upper, is_space. intros H.
  apply andb_true_iff in H as [H1 H2]. apply N.leb_le in H1, H2.
  repeat match goal with
         | |- context [?a <=? ?b] => destruct (N.leb_spec a b); try lia
         | |- context [?a =? ?b] => destruct (N.eqb_spec a b); try lia
         end; reflexivity.
Qed.

(** C6 (amended): [clean_text] is a total function that lower-cases its
    argument and then deletes every character that is neither an ASCII letter
    nor whitespace; so only ASCII letters and whitespace remain, and no digit
    does.  On ASCII text the case mapping is the ASCII one.  The example of
    the specification comes out with ONE trailing blank: the characters
    ["!!"] and ["(1995)"] are deleted, the blank between them stays. *)
Theorem clean_text_spec :
  (forall s, clean_text db s = List.filter letter_or_space (lower db s))
  /\ (forall s, Forall (fun c => c < 128) s ->
        clean_text db s = List.filter letter_or_space (map ascii_lower s))
  /\ (forall s c, In c (clean_text db s) ->
        letter_or_space c = true /\ is_ascii_digit c = false)
  /\ clean_text db (py "Catan IS Great!! (1995)") = py "catan is great ".
Proof.
  split; [|split; [|split]].
  - apply clean_text_unfold.
  - intros s Hs. rewrite clean_text_unfold. unfold lower.
    rewrite lower_from_ascii by assumption. reflexivity.
  - intros s c Hin. rewrite clean_text_unfold in Hin.
    apply filter_In in Hin as [_ Hk]. split; [assumption|].
    destruct (is_ascii_digit c) eqn:Hd; [|reflexivity].
    apply digit_not_kept in Hd. congruence.
  - reflexivity.
Qed.

End TextFacts.

Lemma clean_text_example_counterexample :
  clean_text sample_db (py "Catan IS Great!! (1995)") <> py "catan is great  ".
Proof. vm_compute. discriminate. Qed.

Lemma clean_text_spec_witness :
  clean_text sample_db (py "On Mars 2020") = py "on mars "
  /\ (In 110%N (clean_text sample_db (py "On Mars 2020")) -> is_ascii_digit 110%N = false).
Proof.
  destruct (clean_text_spec sample_db) as (_ & Hascii & Hkept & _). split.
  - rewrite (Hascii (py "On Mars 2020")); [reflexivity|].
    repeat constructor.
  - intros Hin. apply (Hkept (py "On Mars 2020") 110%N Hin).
Defined.

Section FileNames.
Context (db : unicode_db).
Local Open Scope N_scope.

Lemma sanitize_filename_map name :
  _sanitize_filename db name = map (sanitize_char db) name.
Proof.
  unfold _sanitize_filename, join_empty, sanitize_char.
  induction name as [|c name IH]; [reflexivity|].
  cbn [map concat]. rewrite IH.
  destruct (isalnum db c || in_dot_underscore_dash c); reflexivity.
Qed.

(** C8: [_sanitize_filename] is a function of the name alone that works
    character by character: a character that is alphanumeric or one of
    ['.'], ['_'], ['-'] stays, every other one becomes ['_'], so the length
    and the positions are kept.  It is not injective: ["A/B"] and ["A B"]
    are different names with the same image ["A_B"]. *)
Theorem sanitize_filename_spec :
  (forall name, _sanitize_filename db name = map (sanitize_char db) name)
  /\ (forall name, length (_sanitize_filename db name) = length name)
  /\ (forall name i c, name !! i = Some c ->
        _sanitize_filename db name !! i =
          Some (if isalnum db c || in_dot_underscore_dash c then c
                else N_of_ascii "_"))
  /\ _sanitize_filename db (py "A/B") = py "A_B"
  /\ _sanitize_filename db (py "A B") = py "A_B"
  /\ py "A/B" <> py "A B".
Proof.
  split; [|split; [|split; [|split; [|split]]]].
  - apply sanitize_filename_map.
  - intros name. rewrite sanitize_filename_map. apply length_map.
  - intros name i c Hi. rewrite sanitize_filename_map, list_lookup_fmap_Some.
    exists c. split; [reflexivity | exact Hi].
  - reflexivity.
  - reflexivity.
  - discriminate.
Qed.

End FileNames.

Lemma sanitize_filename_spec_witness :
  _sanitize_filename sample_db (py "A/B") !! 1%nat = Some 95%N
  /\ _sanitize_filename sample_db (py "On Mars") = py "On_Mars".
Proof.
  destruct (sanitize_filename_spec sample_db) as (Hmap & _ & Hchar & _). split.
  - apply (Hchar (py "A/B") 1%nat 47%N). reflexivity.
  - rewrite Hmap. reflexivity.
Defined.

Section CleanTwice.
Context (db : unicode_db).
Hypothesis no_upper : lowercase_is_not_upper db.
Hypothesis caseless_space : whitespace_is_caseless db.
Local Open Scope N_scope.

Lemma ascii_lower_not_upper c : is_ascii_upper (ascii_lower c) = false.
Proof.
  unfold ascii_lower. destruct (is_ascii_upper c) eqn:Hu; [|exact Hu].
  unfold is_ascii_upper in *. apply andb_true_iff in Hu as [H1 H2].
  apply N.leb_le in H1, H2. apply andb_false_iff. right. apply N.leb_gt. lia.
Qed.

Lemma lower_char_not_upper before c after d :
  In d (lower_char db before c after) -> is_ascii_upper d = false.
Proof.
  unfold lower_char. destruct (N.ltb_spec c 128) as [Hlt|Hge].
  - intros [<-|[]]. apply ascii_lower_not_upper.
  - destruct (c =? 931).
    + intros [<-|[]]. destruct (final_sigma db before after); reflexivity.
    + apply no_upper. exact Hge.
Qed.

Lemma lower_from_not_upper s : forall before d,
  In d (lower_from db before s) -> is_ascii_upper d = false.
Proof.
  induction s as [|c s IH]; intros before d Hin; [destruct Hin|].
  cbn [lower_from] in Hin. apply in_app_or in Hin as [Hin|Hin].
  - eapply lower_char_not_upper; eassumption.
  - eapply IH; eassumption.
Qed.

(** A character that [clean_text] leaves in place and that no case mapping
    produced anew is its own lower case. *)
Lemma lower_char_fixed before c after :
  letter_or_space c = true -> is_ascii_upper c = false ->
  lower_char db before c after = [c].
Proof.
  intros Hk Hu. unfold lower_char. destruct (N.ltb_spec c 128) as [Hlt|Hge].
  - unfold ascii_lower. rewrite Hu. reflexivity.
  - assert (Hsp : is_space c = true).
    { unfold letter_or_space, is_ascii_letter, is_ascii_lower, is_ascii_upper in Hk.
      apply orb_true_iff in Hk as [Hk|Hk]; [|exact Hk].
      apply orb_true_iff in Hk as [Hk|Hk];
        apply andb_true_iff in Hk as [H1 H2]; apply N.leb_le in H1, H2; lia. }
    destruct (N.eqb_spec c 931) as [->|_]; [discriminate Hsp|].
    apply caseless_space; assumption.
Qed.

Lemma lower_from_fixed s : forall before,
  Forall (fun c => letter_or_space c = true /\ is_ascii_upper c = false) s ->
  lower_from db before s = s.
Proof.
  induction s as [|c s IH]; intros before Hs; [reflexivity|].
  inversion Hs as [|? ? [Hk Hu] Hs']; subst. cbn [lower_from].
  rewrite lower_char_fixed by assumption. rewrite IH by assumption. reflexivity.
Qed.

Lemma filter_all_true {A} (f : A -> bool) (l : list A) :
  Forall (fun x => f x = true) l -> List.filter f l = l.
Proof.
  induction 1 as [|x l Hx _ IH]; [reflexivity|].
  cbn [List.filter]. rewrite Hx, IH. reflexivity.
Qed.

(** C9: [clean_text] is idempotent.  The result of one application holds
    only lower-case ASCII letters and whitespace; the case mapping and the
    deletion both leave such text as it is.  The two hypotheses are the
    facts about the interpreter's Unicode tables that the argument needs. *)
Theorem clean_text_idempotent (s : str) :
  clean_text db (clean_text db s) = clean_text db s.
Proof.
  assert (Hout : Forall (fun c => letter_or_space c = true /\ is_ascii_upper c = false)
                        (clean_text db s)).
  { apply List.Forall_forall. intros c Hin. rewrite clean_text_unfold in Hin.
    apply filter_In in Hin as [Hin Hk]. split; [exact Hk|].
    eapply lower_from_not_upper. exact Hin. }
  rewrite (clean_text_unfold db (clean_text db s)). unfold lower.
  rewrite lower_from_fixed by exact Hout.
  apply filter_all_true. eapply List.Forall_impl; [|exact Hout].
  intros c [Hk _]. exact Hk.
Qed.

End CleanTwice.

Lemma sample_db_lowercase_is_not_upper : lowercase_is_not_upper sample_db.
Proof.
  intros c d Hc Hin. cbn [to_lower_full sample_db] in Hin.
  assert (Hbig : forall x : N, (128 <= x)%N -> is_ascii_upper x = false).
  { intros x Hx. unfold is_ascii_upper. apply andb_false_iff. right.
    apply N.leb_gt. lia. }
  repeat match type of Hin with
         | In _ (if ?b then _ else _) => destruct b
         end;
    cbn [In] in Hin;
    repeat match type of Hin with
           | _ \/ _ => destruct Hin as [Hin|Hin]
           | False => destruct Hin
           end; subst d; first [reflexivity | apply Hbig; exact Hc].
Qed.

Lemma sample_db_whitespace_is_caseless : whitespace_is_caseless sample_db.
Proof.
  intros c Hc Hsp. cbn [to_lower_full sample_db].
  repeat match goal with
         | |- context [N.eqb c ?k] => destruct (N.eqb_spec c k) as [->|_]
         end; first [discriminate Hsp | reflexivity].
Qed.

Lemma clean_text_idempotent_witness :
  clean_text sample_db (clean_text sample_db (py "Catan IS Great!! (1995)"))
  = py "catan is great ".
Proof.
  rewrite (clean_text_idempotent sample_db sample_db_lowercase_is_not_upper
             sample_db_whitespace_is_caseless (py "Catan IS Great!! (1995)")).
  reflexivity.
Defined.

Example sample_get_game_id :
  fst (get_game_id sample_service default_client (py "Catan") initial_world)
  = Returns (Some 13).
Proof. vm_compute. reflexivity. Qed.

Example sample_get_game_comments :
  fst (get_game_comments sample_service default_client 13 5 initial_world)
  = Returns [ PDict [(py "username", PStr (py "ann")); (py "rating", PStr (py "8"));
                     (py "value", PStr (py "Great!! (1995)"))];
              PDict [(py "username", PStr (py "bob")); (py "rating", PStr (py "N/A"));
                     (py "value", PNone)] ].
Proof. vm_compute. reflexivity. Qed.

(* --------------------------------------------------------------------- *)
(** ** Parsing and the three lookups *)
(* --------------------------------------------------------------------- *)

Lemma add_events_app w t1 t2 :
  add_events (add_events w t1) t2 = add_events w (t1 ++ t2).
Proof. unfold add_events. cbn. rewrite <- app_assoc. reflexivity. Qed.

Lemma log_run l m w : log l m w = (Returns tt, add_events w [EvLog l m]).
Proof. reflexivity. Qed.

(** A handler of the form [except Exception: log; return v] makes the
    whole [try] statement return. *)
Lemma try_except_Exception_returns {A} (m : M A) (l : level) (msg : exn -> message)
    (v : A) (w : world) :
  exists r w', try_except m is_Exception (fun e => log l (msg e) ;;; ret v) w
               = (Returns r, w').
Proof.
  unfold try_except. destruct (m w) as [[a|e] w1]; cbn; eauto.
Qed.

(** [Element.find] gives the first child with the tag. *)
Lemma element_find_first e t found :
  element_find e t = Some found ->
  exists before after,
    children_of e = before ++ found :: after
    /\ tag_of found = t
    /\ Forall (fun c => tag_of c <> t) before.
Proof.
  unfold element_find. induction (children_of e) as [|c cs IH]; cbn [List.find];
    [discriminate|].
  unfold str_eqb at 1. destruct (bool_decide_reflect (tag_of c = t)) as [Ht|Ht].
  - intros [= <-]. exists [], cs. repeat split; [exact Ht | constructor].
  - intros Hfind. destruct (IH Hfind) as (before & after & -> & Htag & Hbefore).
    exists (c :: before), after. repeat split; [exact Htag | constructor; assumption].
Qed.

Lemma element_find_none e t :
  element_find e t = None -> Forall (fun c => tag_of c <> t) (children_of e).
Proof.
  unfold element_find. induction (children_of e) as [|c cs IH]; cbn [List.find];
    [constructor|].
  unfold str_eqb at 1. destruct (bool_decide_reflect (tag_of c = t)) as [Ht|Ht];
    [discriminate|].
  intros Hfind. constructor; [exact Ht | apply IH; exact Hfind].
Qed.

Section Lookups.
Context (X : externals) (self : BGGDataClient).

Lemma parse_xml_malformed body w :
  ET_fromstring X body = None ->
  _parse_xml X (Some body) w =
    (Raises ParseError, add_events w [EvLog ERROR (MsgFailedToParseXML ParseError)]).
Proof.
  intros H. unfold _parse_xml, try_except, fromstring. rewrite H. reflexivity.
Qed.

Lemma parse_xml_wellformed body root w :
  ET_fromstring X body = Some root ->
  _parse_xml X (Some body) w = (Returns root, w).
Proof.
  intros H. unfold _parse_xml, try_except, fromstring. rewrite H. reflexivity.
Qed.

(** C2: [_parse_xml] answers a malformed document by logging an error and
    raising [ParseError]; it returns no tree.  When the body fetched by
    [get_game_id], [get_game_info] or [get_game_comments] is malformed, the
    lookup catches that exception, logs it and returns [None], [None] and
    the empty list; and whatever happens, none of the three raises. *)
Theorem malformed_xml_degrades :
  (forall body w, ET_fromstring X body = None ->
     _parse_xml X (Some body) w =
       (Raises ParseError,
        add_events w [EvLog ERROR (MsgFailedToParseXML ParseError)]))
  /\ (forall game_name body w w1,
        _safe_api_call X self search_url (search_params game_name) w
          = (Returns (Some body), w1) ->
        ET_fromstring X body = None ->
        get_game_id X self game_name w =
          (Returns None,
           add_events w1 [EvLog ERROR (MsgFailedToParseXML ParseError);
                          EvLog ERROR (MsgFailedGameId game_name ParseError)]))
  /\ (forall game_id body w w1,
        _safe_api_call X self thing_url (info_params game_id) w
          = (Returns (Some body), w1) ->
        ET_fromstring X body = None ->
        get_game_info X self game_id w =
          (Returns None,
           add_events w1 [EvLog ERROR (MsgFailedToParseXML ParseError);
                          EvLog ERROR (MsgFailedGameInfo game_id ParseError)]))
  /\ (forall game_id max_comments body w w1,
        _safe_api_call X self thing_url (comments_params game_id max_comments) w
          = (Returns (Some body), w1) ->
        ET_fromstring X body = None ->
        get_game_comments X self game_id max_comments w =
          (Returns [],
           add_events w1 [EvLog ERROR (MsgFailedToParseXML ParseError);
                          EvLog ERROR (MsgFailedComments game_id ParseError)]))
  /\ (forall game_name w, exists r w',
        get_game_id X self game_name w = (Returns r, w'))
  /\ (forall game_id w, exists r w',
        get_game_info X self game_id w = (Returns r, w'))
  /\ (forall game_id max_comments w, exists r w',
        get_game_comments X self game_id max_comments w = (Returns r, w')).
Proof.
  repeat apply conj.
  - intros body w H. apply parse_xml_malformed. exact H.
  - intros game_name body w w1 Hfetch Hbad.
    unfold get_game_id, try_except, bind. rewrite Hfetch.
    rewrite parse_xml_malformed by exact Hbad. unfold add_events. cbn.
    rewrite <- app_assoc. reflexivity.
  - intros game_id body w w1 Hfetch Hbad.
    unfold get_game_info, try_except, bind. rewrite Hfetch.
    rewrite parse_xml_malformed by exact Hbad. unfold add_events. cbn.
    rewrite <- app_assoc. reflexivity.
  - intros game_id max_comments body w w1 Hfetch Hbad.
    unfold get_game_comments, try_except, bind. rewrite Hfetch.
    rewrite parse_xml_malformed by exact Hbad. unfold add_events. cbn.
    rewrite <- app_assoc. reflexivity.
  - intros game_name w. apply try_except_Exception_returns.
  - intros game_id w. apply try_except_Exception_returns.
  - intros game_id max_comments w. apply try_except_Exception_returns.
Qed.

(** C3 (amended): when the search for a name is answered by a well-formed
    document, [get_game_id] looks at the first [item] child of the root and
    at nothing else.  When that element has an [id] attribute that [int]
    accepts, the result is that integer; when the attribute is missing or is
    not an integer literal, the error is logged and the result is [None].
    When the root has no [item] child (an [item] deeper in the document does
    not count), the result is [None] after a warning, and no error is
    logged or raised. *)
Theorem get_game_id_spec (game_name body : str) (root : element) (w w1 : world) :
  _safe_api_call X self search_url (search_params game_name) w
    = (Returns (Some body), w1) ->
  ET_fromstring X body = Some root ->
  (forall game id n,
     element_find root (py "item") = Some game ->
     element_get game (py "id") = Some id ->
     int_of_str X id = Some n ->
     get_game_id X self game_name w = (Returns (Some n), w1)
     /\ exists before after,
          children_of root = before ++ game :: after
          /\ tag_of game = py "item"
          /\ Forall (fun c => tag_of c <> py "item") before)
  /\ (element_find root (py "item") = None ->
      get_game_id X self game_name w =
        (Returns None, add_events w1 [EvLog WARNING (MsgNoGameFound game_name)])
      /\ Forall (fun c => tag_of c <> py "item") (children_of root))
  /\ (forall game,
        element_find root (py "item") = Some game ->
        element_get game (py "id") = None ->
        get_game_id X self game_name w =
          (Returns None,
           add_events w1 [EvLog ERROR (MsgFailedGameId game_name TypeError)]))
  /\ (forall game id,
        element_find root (py "item") = Some game ->
        element_get game (py "id") = Some id ->
        int_of_str X id = None ->
        get_game_id X self game_name w =
          (Returns None,
           add_events w1 [EvLog ERROR (MsgFailedGameId game_name ValueError)])).
Proof.
  intros Hfetch Hok. split; [|split; [|split]].
  - intros game id n Hfind Hid Hint. split; [|apply element_find_first; exact Hfind].
    unfold get_game_id, try_except, bind. rewrite Hfetch.
    rewrite (parse_xml_wellformed body root) by exact Hok.
    rewrite Hfind. unfold int. rewrite Hid, Hint. reflexivity.
  - intros Hfind. split; [|apply element_find_none; exact Hfind].
    unfold get_game_id, try_except, bind. rewrite Hfetch.
    rewrite (parse_xml_wellformed body root) by exact Hok.
    rewrite Hfind. reflexivity.
  - intros game Hfind Hid.
    unfold get_game_id, try_except, bind. rewrite Hfetch.
    rewrite (parse_xml_wellformed body root) by exact Hok.
    rewrite Hfind. unfold int. rewrite Hid. reflexivity.
  - intros game id Hfind Hid Hint.
    unfold get_game_id, try_except, bind. rewrite Hfetch.
    rewrite (parse_xml_wellformed body root) by exact Hok.
    rewrite Hfind. unfold int. rewrite Hid, Hint. reflexivity.
Qed.

End Lookups.

Lemma malformed_xml_degrades_witness :
  fst (_parse_xml sample_service (Some truncated_xml) initial_world) = Raises ParseError
  /\ fst (get_game_id sample_service default_client (py "Broken") initial_world)
     = Returns None
  /\ fst (get_game_info sample_service default_client 7 initial_world) = Returns None
  /\ fst (get_game_comments sample_service default_client 7 100 initial_world)
     = Returns [].
Proof.
  destruct (malformed_xml_degrades sample_service default_client)
    as (Hparse & Hid & Hinfo & Hcomments & _).
  repeat apply conj.
  - rewrite (Hparse truncated_xml initial_world); reflexivity.
  - erewrite (Hid (py "Broken") truncated_xml initial_world); reflexivity.
  - erewrite (Hinfo 7 truncated_xml initial_world); reflexivity.
  - erewrite (Hcomments 7 100 truncated_xml initial_world); reflexivity.
Defined.

Lemma get_game_id_spec_witness :
  get_game_id sample_service default_client (py "Catan") initial_world
    = (Returns (Some 13),
       add_events {| requests_sent := 1; files := ∅; heap := []; trace := [] |}
                  [EvGet search_url (search_params (py "Catan"))])
  /\ fst (get_game_id sample_service default_client (py "Zzz") initial_world)
     = Returns None.
Proof.
  split.
  - destruct (get_game_id_spec sample_service default_client (py "Catan")
                catan_search_xml catan_search_tree initial_world
                (add_events {| requests_sent := 1; files := ∅; heap := []; trace := [] |}
                            [EvGet search_url (search_params (py "Catan"))]))
      as [Hitem _]; [reflexivity | reflexivity |].
    apply (Hitem (Element (py "item") [(py "type", py "boardgame"); (py "id", py "13")]
                    None
                    [Element (py "name")
                       [(py "type", py "primary"); (py "value", py "CATAN")] None []])
                 (py "13") 13); reflexivity.
  - destruct (get_game_id_spec sample_service default_client (py "Zzz")
                no_match_xml no_match_tree initial_world
                (add_events {| requests_sent := 1; files := ∅; heap := []; trace := [] |}
                            [EvGet search_url (search_params (py "Zzz"))]))
      as [_ [Hnone _]]; [reflexivity | reflexivity |].
    destruct (Hnone eq_refl) as [Hrun _]. rewrite Hrun. reflexivity.
Defined.

Lemma get_game_id_first_item_counterexample :
  (* a well-formed response with two items: the first has no id *)
  ET_fromstring incomplete_service (py "NoId") = Some no_id_tree
  /\ element_find no_id_tree (py "item")
     = Some (Element (py "item") [(py "type", py "boardgame")] None [])
  /\ get_game_id incomplete_service default_client (py "NoId") initial_world
     = (Returns None,
        {| requests_sent := 1; files := ∅; heap := [];
           trace := [ EvGet search_url (search_params (py "NoId"));
                      EvLog ERROR (MsgFailedGameId (py "NoId") TypeError) ] |})
  (* a well-formed response whose item has an id that is not an integer *)
  /\ ET_fromstring incomplete_service (py "OddId") = Some odd_id_tree
  /\ element_find odd_id_tree (py "item")
     = Some (Element (py "item") [(py "id", py "12.5")] None [])
  /\ get_game_id incomplete_service default_client (py "OddId") initial_world
     = (Returns None,
        {| requests_sent := 1; files := ∅; heap := [];
           trace := [ EvGet search_url (search_params (py "OddId"));
                      EvLog ERROR (MsgFailedGameId (py "OddId") ValueError) ] |})
  (* a well-formed response that contains an item, but not as a child *)
  /\ ET_fromstring incomplete_service (py "Nested") = Some nested_item_tree
  /\ element_findall_descendants nested_item_tree (py "item")
     = [Element (py "item") [(py "id", py "13")] None []]
  /\ get_game_id incomplete_service default_client (py "Nested") initial_world
     = (Returns None,
        {| requests_sent := 1; files := ∅; heap := [];
           trace := [ EvGet search_url (search_params (py "Nested"));
                      EvLog WARNING (MsgNoGameFound (py "Nested")) ] |}).
Proof. repeat split; vm_compute; reflexivity. Qed.

Example json_dumps_sample :
  Json.dumps (PDict [(py "Catan", PList [PDict [(py "username", PNone)]]);
                     (py "X", PList [])])
  = py "{" ++ [10%N] ++ py "  " ++ [34%N] ++ py "Catan" ++ [34%N] ++ py ": [" ++ [10%N]
    ++ py "    {" ++ [10%N] ++ py "      " ++ [34%N] ++ py "username" ++ [34%N]
    ++ py ": null" ++ [10%N] ++ py "    }" ++ [10%N] ++ py "  ]," ++ [10%N]
    ++ py "  " ++ [34%N] ++ py "X" ++ [34%N] ++ py ": []" ++ [10%N] ++ py "}".
Proof. vm_compute. reflexivity. Qed.

Example json_loads_sample :
  Json.loads (Json.dumps (PDict [(py "Catan", PList [PDict [(py "username", PNone);
                 (py "value", PStr ([34; 92; 10; 1; 233; 128512]%N ++ py "ok"))]]);
                     (py "X", PList [])]))
  = Some (PDict [(py "Catan", PList [PDict [(py "username", PNone);
                 (py "value", PStr ([34; 92; 10; 1; 233; 128512]%N ++ py "ok"))]]);
                     (py "X", PList [])]).
Proof. vm_compute. reflexivity. Qed.

Example retrieve_unknown_game :
  retrieve_comments sample_service (DataRetriever_init (py "data/raw_comments") None)
    [py "Unknown Game Xyz123"] 10 initial_world
  = (Returns [],
     {| requests_sent := 1;
        files := {[ py "data/raw_comments/full_comments_dataset.json" := FileText (py "{}") ]};
        heap := [];
        trace := [ EvGet search_url (search_params (py "Unknown Game Xyz123"));
                   EvLog WARNING (MsgNoGameFound (py "Unknown Game Xyz123"));
                   EvLog WARNING (MsgGameNotFound (py "Unknown Game Xyz123"));
                   EvWrite (py "data/raw_comments/full_comments_dataset.json");
                   EvLog INFO (MsgSavedFull (py "data/raw_comments/full_comments_dataset.json")) ] |}).
Proof. vm_compute. reflexivity. Qed.

(* --------------------------------------------------------------------- *)
(** ** JSON: what [dump] writes, [load] reads back *)
(* --------------------------------------------------------------------- *)

(** Induction on Python data, with the hypothesis for every element of a
    list and every value of a dictionary. *)
Lemma pyval_induction (P : pyval -> Prop) :
  P PNone ->
  (forall s, P (PStr s)) ->
  (forall items, Forall P items -> P (PList items)) ->
  (forall items, Forall (fun kv => P (snd kv)) items -> P (PDict items)) ->
  forall o, P o.
Proof.
  intros HNone HStr HList HDict.
  fix IH 1. intros [ | s | items | items ].
  - exact HNone.
  - apply HStr.
  - apply HList. induction items as [|x items IHitems]; constructor.
    + apply IH.
    + exact IHitems.
  - apply HDict. induction items as [|[k v] items IHitems]; constructor.
    + apply IH.
    + exact IHitems.
Qed.

Module JsonFacts.
Import Json.
Local Open Scope N_scope.

Lemma below_32 (P : N -> Prop) :
  Forall P (map N.of_nat (seq 0 32)) -> forall c, c < 32 -> P c.
Proof.
  intros H c Hc. rewrite List.Forall_forall in H. apply H.
  apply in_map_iff. exists (N.to_nat c). split; [lia|].
  apply in_seq. lia.
Qed.

(** Reading an escaped character gives the character back. *)
Lemma scanstring_escape_char c chunks tail :
  scanstring chunks (escape_char c ++ tail) = scanstring (chunks ++ [c]) tail.
Proof.
  destruct (N.ltb_spec c 32) as [Hlt|Hge].
  - revert chunks tail. pattern c. revert c Hlt. apply below_32.
    repeat (constructor; [intros chunks tail; reflexivity|]). constructor.
  - unfold escape_char.
    destruct (N.eqb_spec c quote) as [->|Hq]; [reflexivity|].
    destruct (N.eqb_spec c backslash) as [->|Hb]; [reflexivity|].
    repeat match goal with
           | |- context [N.eqb c ?k] => destruct (N.eqb_spec c k); [lia|]
           end.
    destruct (N.ltb_spec c 32); [lia|].
    cbn [app scanstring].
    destruct (N.eqb_spec c quote); [contradiction|].
    destruct (N.eqb_spec c backslash); [contradiction|].
    destruct (N.ltb_spec c 32); [lia|]. reflexivity.
Qed.

Lemma scanstring_escaped s : forall chunks tail,
  scanstring chunks (flat_map escape_char s ++ quote :: tail) = Some (chunks ++ s, tail).
Proof.
  induction s as [|c s IH]; intros chunks tail.
  - cbn. rewrite app_nil_r. reflexivity.
  - cbn [flat_map]. rewrite <- app_assoc, scanstring_escape_char, IH.
    rewrite <- app_assoc. reflexivity.
Qed.

Lemma skip_whitespace_black s : starts_black s -> skip_whitespace s = s.
Proof. destruct s as [|c s]; [reflexivity|]. cbn. intros ->. reflexivity. Qed.

Lemma skip_newline_indent level s :
  starts_black s -> skip_whitespace (newline_indent level ++ s) = s.
Proof.
  intros Hs. unfold newline_indent. cbn [app skip_whitespace].
  change (is_whitespace 10) with true. cbv iota.
  induction (2 * level)%nat as [|n IH]; cbn [repeat app skip_whitespace].
  - apply skip_whitespace_black. exact Hs.
  - change (is_whitespace 32) with true. cbv iota. exact IH.
Qed.

Lemma encode_basestring_cons s : encode_basestring s = quote :: flat_map escape_char s ++ [quote].
Proof. reflexivity. Qed.

(** What [dump] writes for a value begins with a quote, a bracket, a brace
    or the [n] of [null]. *)
Lemma encode_starts_black level o tail : starts_black (encode level o ++ tail).
Proof.
  destruct o as [ | s | [|x items] | [|kv items] ]; reflexivity.
Qed.

Lemma dict_set_fresh (d : list (str * pyval)) k v :
  ~ In k (map fst d) -> dict_set d k v = d ++ [(k, v)].
Proof.
  induction d as [|[k' v'] d IH]; intros Hk; [reflexivity|].
  cbn [dict_set]. unfold str_eqb.
  destruct (bool_decide_reflect (k' = k)) as [->|Hne].
  - exfalso. apply Hk. left. reflexivity.
  - cbn [app]. rewrite IH; [reflexivity|]. intros Hin. apply Hk. right. exact Hin.
Qed.

Lemma nodupb_NoDup keys : nodupb keys = true -> List.NoDup keys.
Proof.
  induction keys as [|k keys IH]; intros H; [constructor|].
  cbn [nodupb] in H. apply andb_true_iff in H as [Hk Hrest].
  constructor; [|apply IH; exact Hrest].
  intros Hin. apply negb_true_iff in Hk.
  assert (existsb (str_eqb k) keys = true); [|congruence].
  apply existsb_exists. exists k. split; [exact Hin|].
  unfold str_eqb. apply bool_decide_eq_true. reflexivity.
Qed.

Lemma dict_of_pairs_app_fresh (pairs : list (str * pyval)) : forall d,
  List.NoDup (map fst (d ++ pairs)) ->
  fold_left (fun d kv => dict_set d (fst kv) (snd kv)) pairs d = d ++ pairs.
Proof.
  induction pairs as [|[k v] pairs IH]; intros d Hnd.
  - cbn. rewrite app_nil_r. reflexivity.
  - cbn [fold_left fst snd].
    rewrite dict_set_fresh.
    + rewrite IH; rewrite <- app_assoc; [reflexivity | exact Hnd].
    + rewrite map_app in Hnd. cbn [map fst] in Hnd.
      apply List.NoDup_remove_2 in Hnd. intros Hin. apply Hnd.
      apply in_or_app. left. exact Hin.
Qed.

Lemma dict_of_pairs_unique pairs :
  nodupb (map fst pairs) = true -> dict_of_pairs pairs = pairs.
Proof.
  intros H. unfold dict_of_pairs.
  rewrite dict_of_pairs_app_fresh; [reflexivity|].
  apply nodupb_NoDup. exact H.
Qed.

(** [skip_whitespace] in front of the punctuation [dump] writes. *)
Ltac skip_literal_whitespace :=
  repeat (cbn [app skip_whitespace];
          progress (change (is_whitespace 58) with false;
                    change (is_whitespace 44) with false;
                    change (is_whitespace 32) with true;
                    cbv iota)).

(** The text [dump] writes for one entry of a dictionary. *)
Local Abbreviation entry_text level :=
  (fun kv : str * pyval =>
     encode_basestring (fst kv) ++ py ": " ++ encode (S level) (snd kv)).

Local Abbreviation separator level := (44 :: newline_indent (S level)).

Lemma encode_list_cons level x items tail :
  encode level (PList (x :: items)) ++ tail =
  91 :: newline_indent (S level)
     ++ (join (separator level) (map (encode (S level)) (x :: items))
         ++ newline_indent level ++ 93 :: tail).
Proof.
  cbn [encode]. cbn [app]. f_equal. rewrite <- !app_assoc. reflexivity.
Qed.

Lemma encode_dict_cons level kv items tail :
  encode level (PDict (kv :: items)) ++ tail =
  123 :: newline_indent (S level)
      ++ (join (separator level) (map (entry_text level) (kv :: items))
          ++ newline_indent level ++ 125 :: tail).
Proof.
  cbn [encode]. cbn [app]. f_equal. rewrite <- !app_assoc. reflexivity.
Qed.

Lemma join_cons_cons sep (a b : str) (rest : list str) :
  join sep (a :: b :: rest) = a ++ sep ++ join sep (b :: rest).
Proof. reflexivity. Qed.

Lemma join_encode_starts_black level x items tail :
  starts_black (join (separator level) (map (encode (S level)) (x :: items)) ++ tail).
Proof.
  destruct items as [|y items].
  - apply encode_starts_black.
  - cbn [map]. rewrite join_cons_cons, <- app_assoc. apply encode_starts_black.
Qed.

Lemma encode_head level o tail :
  exists c rest, encode level o ++ tail = c :: rest
                 /\ (c = 34 \/ c = 91 \/ c = 123 \/ c = 110).
Proof.
  destruct o as [ | s | [|x items] | [|kv items] ]; cbn [encode];
    eexists; eexists; (split; [reflexivity|]); auto.
Qed.

Lemma join_encode_head level x items tail :
  exists c rest,
    join (separator level) (map (encode (S level)) (x :: items)) ++ tail = c :: rest
    /\ (c = 34 \/ c = 91 \/ c = 123 \/ c = 110).
Proof.
  destruct items as [|y items].
  - apply encode_head.
  - cbn [map]. rewrite join_cons_cons, <- app_assoc. apply encode_head.
Qed.

(** The statement proved for every value, by induction. *)
Local Abbreviation reads_back o :=
  (unique_keys o = true ->
   forall fuel level tail, Nat.le (size o) fuel ->
     scan_once fuel (encode level o ++ tail) = Some (o, tail)).

Lemma parse_array_reads_back level (items : list pyval) :
  Forall (fun o => reads_back o) items ->
  forallb unique_keys items = true ->
  items <> [] ->
  forall values fuel tail,
    (fold_right (fun x n => S (size x + n)) O items <= fuel)%nat ->
    parse_array fuel values
      (join (separator level) (map (encode (S level)) items)
       ++ newline_indent level ++ 93 :: tail)
    = Some (PList (values ++ items), tail).
Proof.
  induction 1 as [|x items Hx Hitems IH]; intros Hu Hne values fuel tail Hfuel;
    [contradiction|].
  cbn [forallb] in Hu. apply andb_true_iff in Hu as [Hux Hu].
  cbn [fold_right] in Hfuel.
  destruct fuel as [|fuel]; [lia|]. cbn [parse_array].
  destruct items as [|y items].
  - cbn [map join].
    rewrite (Hx Hux fuel (S level)) by lia.
    rewrite skip_newline_indent by reflexivity. reflexivity.
  - cbn [map]. rewrite join_cons_cons, <- !app_assoc.
    rewrite (Hx Hux fuel (S level)) by lia.
    skip_literal_whitespace.
    rewrite skip_newline_indent by apply (join_encode_starts_black level y items).
    change (encode (S level) y :: map (encode (S level)) items)
      with (map (encode (S level)) (y :: items)).
    rewrite IH; [| exact Hu | discriminate | lia].
    rewrite <- app_assoc. reflexivity.
Qed.

Lemma join_entry_cons level kv items tail :
  join (separator level) (map (entry_text level) (kv :: items)) ++ tail =
  quote :: (flat_map escape_char (fst kv)
            ++ quote :: 58 :: 32 :: encode (S level) (snd kv)
            ++ match items with
               | [] => tail
               | _ => separator level
                      ++ join (separator level) (map (entry_text level) items) ++ tail
               end).
Proof.
  destruct items as [|kv' items].
  - cbn [map join]. rewrite encode_basestring_cons.
    change (py ": ") with [58; 32]. cbn [app].
    repeat (rewrite <- app_assoc; cbn [app]). reflexivity.
  - cbn [map]. rewrite join_cons_cons. rewrite encode_basestring_cons.
    change (py ": ") with [58; 32]. cbn [app].
    repeat (rewrite <- app_assoc; cbn [app]). reflexivity.
Qed.

Lemma parse_object_reads_back level (items : list (str * pyval)) :
  Forall (fun kv => reads_back (snd kv)) items ->
  forallb (fun kv => unique_keys (snd kv)) items = true ->
  items <> [] ->
  forall pairs fuel tail,
    (fold_right (fun kv n => S (size (snd kv) + n)) O items <= fuel)%nat ->
    parse_object fuel pairs
      (List.tl (join (separator level) (map (entry_text level) items)
                ++ newline_indent level ++ 125 :: tail))
    = Some (PDict (dict_of_pairs (pairs ++ items)), tail).
Proof.
  induction 1 as [|kv items Hkv Hitems IH]; intros Hu Hne pairs fuel tail Hfuel;
    [contradiction|].
  cbn [forallb] in Hu. apply andb_true_iff in Hu as [Hukv Hu].
  cbn [fold_right] in Hfuel.
  destruct fuel as [|fuel]; [lia|].
  rewrite join_entry_cons. cbn [List.tl parse_object].
  rewrite scanstring_escaped. skip_literal_whitespace.
  rewrite skip_whitespace_black by apply encode_starts_black.
  rewrite (Hkv Hukv fuel (S level)) by lia.
  destruct kv as [k v]. cbn [fst snd].
  destruct items as [|kv' items].
  - rewrite skip_newline_indent by reflexivity. reflexivity.
  - skip_literal_whitespace.
    specialize (IH Hu ltac:(discriminate) (pairs ++ [(k, v)]) fuel tail ltac:(lia)).
    rewrite join_entry_cons in IH |- *. cbn [List.tl] in IH.
    rewrite skip_newline_indent by reflexivity.
    rewrite IH, <- app_assoc. reflexivity.
Qed.

(** What [dump] writes for a value, [scan_once] reads back as that value,
    leaving what follows it. *)
Lemma scan_once_encode o : reads_back o.
Proof.
  induction o as [ | s | items IH | items IH ] using pyval_induction;
    intros Hu fuel level tail Hfuel.
  - destruct fuel as [|fuel]; [cbn in Hfuel; lia|]. reflexivity.
  - destruct fuel as [|fuel]; [cbn in Hfuel; lia|].
    cbn [encode]. rewrite encode_basestring_cons. cbn [app scan_once].
    rewrite <- app_assoc. cbn [app]. rewrite scanstring_escaped. reflexivity.
  - destruct fuel as [|fuel]; [cbn in Hfuel; lia|].
    destruct items as [|x items]; [reflexivity|].
    rewrite encode_list_cons. cbn [scan_once].
    rewrite skip_newline_indent by apply join_encode_starts_black.
    cbn [unique_keys] in Hu. cbn [size] in Hfuel.
    pose proof (parse_array_reads_back level (x :: items) IH Hu ltac:(discriminate)
                  [] fuel tail ltac:(lia)) as Hparse.
    cbn [app] in Hparse.
    destruct (join_encode_head level x items (newline_indent level ++ 93 :: tail))
      as (c & rest & Htext & Hc).
    rewrite Htext in Hparse |- *.
    destruct Hc as [ -> | [ -> | [ -> | -> ] ] ]; exact Hparse.
  - destruct fuel as [|fuel]; [cbn in Hfuel; lia|].
    destruct items as [|kv items]; [reflexivity|].
    rewrite encode_dict_cons. cbn [scan_once].
    cbn [unique_keys] in Hu. apply andb_true_iff in Hu as [Hkeys Hu].
    cbn [size] in Hfuel.
    pose proof (parse_object_reads_back level (kv :: items) IH Hu ltac:(discriminate)
                  [] fuel tail ltac:(lia)) as Hparse.
    rewrite join_entry_cons in Hparse |- *. cbn [List.tl] in Hparse.
    rewrite skip_newline_indent by reflexivity.
    rewrite Hparse. cbn [app]. rewrite dict_of_pairs_unique by exact Hkeys. reflexivity.
Qed.

(** The text of a value is at least as long as the value is big, so the
    fuel [loads] starts with is enough. *)
Lemma length_join_bound {A} (sep : str) (text : A -> str) (weight : A -> nat)
    (items : list A) :
  (1 <= length sep)%nat ->
  Forall (fun x => (weight x <= length (text x))%nat) items ->
  (fold_right (fun x n => S (weight x + n)) O items
   <= S (length (join sep (map text items))))%nat.
Proof.
  intros Hsep. induction 1 as [|x items Hx Hitems IH]; [cbn; lia|].
  destruct items as [|y items].
  - cbn. lia.
  - cbn [map]. rewrite join_cons_cons, !length_app.
    cbn [fold_right map] in IH |- *. lia.
Qed.

Lemma size_le_length o : forall level, (size o <= length (encode level o))%nat.
Proof.
  induction o as [ | s | items IH | items IH ] using pyval_induction; intros level.
  - cbn. lia.
  - cbn [size encode]. rewrite encode_basestring_cons. cbn [length]. lia.
  - destruct items as [|x items]; [cbn; lia|].
    pose proof (length_join_bound (separator level) (encode (S level)) size (x :: items)
                  ltac:(cbn; lia)) as Hb.
    change (encode level (PList (x :: items))) with
      ([91] ++ newline_indent (S level)
       ++ join (separator level) (map (encode (S level)) (x :: items))
       ++ newline_indent level ++ [93]).
    cbn [size]. rewrite !length_app. cbn [length newline_indent].
    assert (Forall (fun o => (size o <= length (encode (S level) o))%nat) (x :: items))
      by (eapply List.Forall_impl; [|exact IH]; intros o Ho; apply Ho).
    specialize (Hb ltac:(assumption)). lia.
  - destruct items as [|kv items]; [cbn; lia|].
    pose proof (length_join_bound (separator level) (entry_text level)
                  (fun kv => size (snd kv)) (kv :: items) ltac:(cbn; lia)) as Hb.
    change (encode level (PDict (kv :: items))) with
      ([123] ++ newline_indent (S level)
       ++ join (separator level) (map (entry_text level) (kv :: items))
       ++ newline_indent level ++ [125]).
    cbn [size]. rewrite !length_app. cbn [length newline_indent].
    assert (Forall (fun kv => (size (snd kv) <= length (entry_text level kv))%nat)
              (kv :: items)).
    { eapply List.Forall_impl; [|exact IH]. intros e He. cbv beta.
      rewrite !length_app. specialize (He (S level)). lia. }
    specialize (Hb ltac:(assumption)). cbv beta in Hb. unfold str in *. lia.
Qed.

(** [json.loads(json.dumps(o, ensure_ascii=False, indent=2)) == o] *)
Lemma loads_dumps o : unique_keys o = true -> loads (dumps o) = Some o.
Proof.
  intros Hu. unfold loads, dumps.
  rewrite skip_whitespace_black
    by (rewrite <- (app_nil_r (encode 0 o)); apply encode_starts_black).
  rewrite <- (app_nil_r (encode 0 o)) at 2.
  rewrite (scan_once_encode o Hu).
  - reflexivity.
  - pose proof (size_le_length o 0). lia.
Qed.

(** The text of encodable data is encodable: escapes and punctuation are
    ASCII, everything else is copied. *)
Lemma utf8_encodable_app a b :
  utf8_encodable (a ++ b) = utf8_encodable a && utf8_encodable b.
Proof. apply forallb_app. Qed.

Lemma utf8_encodable_escape_char c :
  utf8_encodable [c] = true -> utf8_encodable (escape_char c) = true.
Proof.
  intros Hc. destruct (N.ltb_spec c 32) as [Hlt|Hge].
  - clear Hc. pattern c. revert c Hlt. apply below_32.
    repeat (constructor; [reflexivity|]). constructor.
  - unfold escape_char.
    repeat match goal with
           | |- context [N.eqb c ?k] => destruct (N.eqb_spec c k); [reflexivity|]
           end.
    destruct (N.ltb_spec c 32); [lia|]. exact Hc.
Qed.

Lemma utf8_encodable_escaped s :
  utf8_encodable s = true -> utf8_encodable (flat_map escape_char s) = true.
Proof.
  induction s as [|c s IH]; intros Hs; [reflexivity|].
  change (c :: s) with ([c] ++ s) in Hs. rewrite utf8_encodable_app in Hs.
  apply andb_true_iff in Hs as [Hc Hs].
  cbn [flat_map]. rewrite utf8_encodable_app, utf8_encodable_escape_char, IH; auto.
Qed.

Lemma utf8_encodable_basestring s :
  utf8_encodable s = true -> utf8_encodable (encode_basestring s) = true.
Proof.
  intros Hs. unfold encode_basestring.
  rewrite !utf8_encodable_app, utf8_encodable_escaped by exact Hs. reflexivity.
Qed.

Lemma utf8_encodable_newline_indent level :
  utf8_encodable (newline_indent level) = true.
Proof.
  unfold newline_indent. change (10 :: ?l) with ([10] ++ l).
  rewrite utf8_encodable_app. cbn [utf8_encodable forallb andb negb].
  change (negb ((55296 <=? 10) && (10 <=? 57343)) && true) with true. cbn [andb].
  induction (2 * level)%nat as [|n IH]; [reflexivity|]. cbn [repeat].
  change (32 :: ?l) with ([32] ++ l). rewrite utf8_encodable_app, IH. reflexivity.
Qed.

Lemma utf8_encodable_join {A} sep (text : A -> str) (items : list A) :
  utf8_encodable sep = true ->
  Forall (fun x => utf8_encodable (text x) = true) items ->
  utf8_encodable (join sep (map text items)) = true.
Proof.
  intros Hsep. induction 1 as [|x items Hx Hitems IH]; [reflexivity|].
  destruct items as [|y items]; [exact Hx|].
  cbn [map]. rewrite join_cons_cons, !utf8_encodable_app, Hx, Hsep.
  exact IH.
Qed.

Lemma utf8_encodable_separator level : utf8_encodable (separator level) = true.
Proof.
  change (44 :: ?l) with ([44] ++ l).
  rewrite utf8_encodable_app, utf8_encodable_newline_indent. reflexivity.
Qed.

Lemma utf8_encodable_encode o : forall level,
  encodable o = true -> utf8_encodable (encode level o) = true.
Proof.
  induction o as [ | s | items IH | items IH ] using pyval_induction; intros level He.
  - reflexivity.
  - apply utf8_encodable_basestring. exact He.
  - destruct items as [|x items]; [reflexivity|].
    change (encode level (PList (x :: items))) with
      ([91] ++ newline_indent (S level)
       ++ join (separator level) (map (encode (S level)) (x :: items))
       ++ newline_indent level ++ [93]).
    rewrite !utf8_encodable_app, !utf8_encodable_newline_indent.
    rewrite utf8_encodable_join; [reflexivity | apply utf8_encodable_separator |].
    cbn [encodable] in He. rewrite forallb_forall in He.
    rewrite List.Forall_forall in IH |- *. intros o Ho. apply IH; auto.
  - destruct items as [|kv items]; [reflexivity|].
    change (encode level (PDict (kv :: items))) with
      ([123] ++ newline_indent (S level)
       ++ join (separator level) (map (entry_text level) (kv :: items))
       ++ newline_indent level ++ [125]).
    rewrite !utf8_encodable_app, !utf8_encodable_newline_indent.
    rewrite utf8_encodable_join; [reflexivity | apply utf8_encodable_separator |].
    cbn [encodable] in He. rewrite forallb_forall in He.
    rewrite List.Forall_forall in IH |- *. intros e Hin.
    specialize (He e Hin). apply andb_true_iff in He as [Hk Hv].
    rewrite !utf8_encodable_app, utf8_encodable_basestring by exact Hk.
    rewrite (IH e Hin) by exact Hv. reflexivity.
Qed.

End JsonFacts.

(* --------------------------------------------------------------------- *)
(** ** Saving and loading the aggregate snapshot *)
(* --------------------------------------------------------------------- *)

Section Snapshot.
Context (X : externals) (self : DataRetriever).

Lemma write_json_ok path o w :
  write_refused X path = false ->
  encodable o = true ->
  write_json X path o w =
    (Returns tt, set_file (add_events w [EvWrite path]) path (FileText (Json.dumps o))).
Proof.
  intros Hw He. unfold write_json. rewrite Hw.
  unfold Json.dumps. rewrite JsonFacts.utf8_encodable_encode by exact He. reflexivity.
Qed.

Lemma write_json_refused path o w :
  write_refused X path = true ->
  write_json X path o w = (Raises PermissionError, w).
Proof. intros Hw. unfold write_json. rewrite Hw. reflexivity. Qed.

Lemma save_full_dataset_ok dataset w :
  write_refused X (full_dataset_path self) = false ->
  encodable dataset = true ->
  _save_full_dataset X self dataset w =
    (Returns tt,
     add_events
       (set_file (add_events w [EvWrite (full_dataset_path self)])
          (full_dataset_path self) (FileText (Json.dumps dataset)))
       [EvLog INFO (MsgSavedFull (full_dataset_path self))]).
Proof.
  intros Hw He. unfold _save_full_dataset, try_except, bind.
  rewrite write_json_ok by assumption. reflexivity.
Qed.


End Snapshot.


(* --------------------------------------------------------------------- *)
(** ** The client leaves the files alone *)
(* --------------------------------------------------------------------- *)

Lemma quiet_refl w : quiet w w.
Proof.
  repeat split. exists []. rewrite app_nil_r. split; reflexivity.
Qed.

Lemma quiet_trans w1 w2 w3 : quiet w1 w2 -> quiet w2 w3 -> quiet w1 w3.
Proof.
  intros (Hf1 & Hh1 & t1 & Ht1 & Hw1) (Hf2 & Hh2 & t2 & Ht2 & Hw2).
  split; [congruence|]. split; [congruence|].
  exists (t1 ++ t2). split.
  - rewrite Ht2, Ht1, app_assoc. reflexivity.
  - rewrite writes_of_app, Hw1, Hw2. reflexivity.
Qed.

Lemma quiet_add_events w t : writes_of t = [] -> quiet w (add_events w t).
Proof. intros Ht. repeat split. exists t. split; [reflexivity | exact Ht]. Qed.

Lemma quiet_ret {A} (a : A) : quiet_M (ret a).
Proof. intros w. apply quiet_refl. Qed.

Lemma quiet_raise {A} e : quiet_M (@raise A e).
Proof. intros w. apply quiet_refl. Qed.

Lemma quiet_log l m : quiet_M (log l m).
Proof. intros w. apply (quiet_add_events w [EvLog l m]). reflexivity. Qed.

Lemma quiet_sleep X seconds : quiet_M (sleep X seconds).
Proof.
  intros w. unfold sleep. destruct (seconds <? 0); [apply quiet_refl|].
  destruct (time_sleep X seconds); [apply quiet_refl|].
  apply (quiet_add_events w [EvSleep seconds]). reflexivity.
Qed.

Lemma quiet_bind {A B} (m : M A) (k : A -> M B) :
  quiet_M m -> (forall a, quiet_M (k a)) -> quiet_M (bind m k).
Proof.
  intros Hm Hk w. unfold bind. specialize (Hm w).
  destruct (m w) as [[a|e] w1]; cbn [snd] in *.
  - eapply quiet_trans; [exact Hm | apply Hk].
  - exact Hm.
Qed.

Lemma quiet_try_except {A} (m : M A) handles (h : exn -> M A) :
  quiet_M m -> (forall e, quiet_M (h e)) -> quiet_M (try_except m handles h).
Proof.
  intros Hm Hh w. unfold try_except. specialize (Hm w).
  destruct (m w) as [[a|e] w1]; cbn [snd] in *; [exact Hm|].
  destruct (handles e); [|exact Hm].
  eapply quiet_trans; [exact Hm | apply Hh].
Qed.

Lemma quiet_requests_get X url p : quiet_M (do_requests_get X url p).
Proof.
  intros w. unfold do_requests_get.
  assert (quiet w {| requests_sent := S (requests_sent w); files := files w;
                     heap := heap w; trace := trace w ++ [EvGet url p] |}).
  { repeat split. exists [EvGet url p]. split; reflexivity. }
  destruct (requests_get X url p (requests_sent w)); assumption.
Qed.

Lemma quiet_raise_for_status r : quiet_M (raise_for_status r).
Proof.
  unfold raise_for_status. destruct (_ && _); [apply quiet_raise | apply quiet_ret].
Qed.

(** Composite computations are quiet when their parts are. *)
Ltac quiet :=
  repeat first
    [ apply quiet_ret | apply quiet_raise | apply quiet_log | apply quiet_sleep
    | apply quiet_requests_get | apply quiet_raise_for_status
    | match goal with H : _ |- _ => apply H end
    | apply quiet_bind; [|intros ?]
    | apply quiet_try_except; [|intros ?]
    | match goal with
      | |- quiet_M (match ?x with _ => _ end) => destruct x
      | |- quiet_M (if ?b then _ else _) => destruct b
      end ].

Lemma quiet_safe_api_call_loop X self url p attempts :
  quiet_M (_safe_api_call_loop X self url p attempts).
Proof.
  induction attempts as [|attempt rest IH]; cbn [_safe_api_call_loop]; quiet.
Qed.

Lemma quiet_safe_api_call X self url p : quiet_M (_safe_api_call X self url p).
Proof. apply quiet_safe_api_call_loop. Qed.

Lemma quiet_parse_xml X xml : quiet_M (_parse_xml X xml).
Proof. unfold _parse_xml, fromstring. quiet. Qed.

Lemma quiet_get_game_id X self game_name : quiet_M (get_game_id X self game_name).
Proof.
  unfold get_game_id, int. pose proof (quiet_safe_api_call X self).
  pose proof (quiet_parse_xml X). quiet.
Qed.

Lemma quiet_get_game_comments X self game_id max_comments :
  quiet_M (get_game_comments X self game_id max_comments).
Proof.
  unfold get_game_comments. pose proof (quiet_safe_api_call X self).
  pose proof (quiet_parse_xml X). quiet.
Qed.

(* --------------------------------------------------------------------- *)
(** ** What the comments of a parsed document are made of *)
(* --------------------------------------------------------------------- *)

Lemma element_induction (P : element -> Prop) :
  (forall t a x children, Forall P children -> P (Element t a x children)) ->
  forall e, P e.
Proof.
  intros H. fix IH 1. intros [t a x children]. apply H.
  induction children as [|c children IHc]; constructor; [apply IH | exact IHc].
Qed.

Lemma subtree_matches_encodable t e :
  element_encodable e = true ->
  Forall (fun c => element_encodable c = true) (subtree_matches t e).
Proof.
  induction e as [tag a x children IH] using element_induction. intros He.
  cbn [subtree_matches]. apply List.Forall_app. split.
  - cbn [tag_of]. destruct (str_eqb tag t); constructor; [exact He | constructor].
  - cbn [element_encodable] in He. apply andb_true_iff in He as [_ Hc].
    rewrite forallb_forall in Hc. rewrite List.Forall_forall in IH.
    apply List.Forall_forall. intros c Hin. apply in_flat_map in Hin as (child & Hchild & Hin).
    specialize (IH child Hchild (Hc child Hchild)).
    rewrite List.Forall_forall in IH. apply IH. exact Hin.
Qed.

Lemma findall_encodable t e :
  element_encodable e = true ->
  Forall (fun c => element_encodable c = true) (element_findall_descendants e t).
Proof.
  intros He. destruct e as [tag a x children]. cbn [element_encodable] in He.
  apply andb_true_iff in He as [_ Hc]. rewrite forallb_forall in Hc.
  unfold element_findall_descendants. cbn [children_of].
  apply List.Forall_forall. intros c Hin. apply in_flat_map in Hin as (child & Hchild & Hin).
  pose proof (subtree_matches_encodable t child (Hc child Hchild)) as Hsub.
  rewrite List.Forall_forall in Hsub. apply Hsub. exact Hin.
Qed.

Lemma dict_get_encodable (d : list (str * str)) k :
  forallb (fun kv => utf8_encodable (snd kv)) d = true ->
  encodable (pyval_of_option (dict_get d k)) = true.
Proof.
  induction d as [|[k' v] d IH]; intros Hd; [reflexivity|].
  cbn [forallb snd] in Hd. apply andb_true_iff in Hd as [Hv Hd].
  cbn [dict_get]. destruct (str_eqb k' k); [exact Hv | apply IH; exact Hd].
Qed.

Lemma comment_of_element_encodable c :
  element_encodable c = true -> encodable (comment_of_element c) = true.
Proof.
  intros Hc. destruct c as [tag a x children]. cbn [element_encodable] in Hc.
  apply andb_true_iff in Hc as [Ha _].
  unfold comment_of_element, element_get. cbn [attrib_of encodable forallb fst snd].
  rewrite !dict_get_encodable by exact Ha. reflexivity.
Qed.

Section LookupResults.
Context (X : externals) (self : BGGDataClient).
Hypothesis parser_ok : parser_encodable X.

Lemma get_game_comments_returns game_id max_comments w :
  exists comments w',
    get_game_comments X self game_id max_comments w = (Returns comments, w')
    /\ quiet w w'
    /\ forallb encodable comments = true.
Proof.
  pose proof (quiet_get_game_comments X self game_id max_comments w) as Hq.
  unfold get_game_comments, try_except, bind in *.
  destruct (_safe_api_call X self thing_url (comments_params game_id max_comments) w)
    as [[xml|e] w1]; cbn in *; [|eauto 6].
  unfold _parse_xml, try_except, fromstring in *.
  destruct xml as [body|]; cbn in *; [|eauto 6].
  destruct (ET_fromstring X body) as [root|] eqn:Hroot; cbn in *; [|eauto 6].
  eexists. eexists. split; [reflexivity|]. split; [exact Hq|].
  apply forallb_forall. intros o Hin. apply in_map_iff in Hin as (c & <- & Hin).
  apply comment_of_element_encodable.
  pose proof (findall_encodable (py "comment") root (parser_ok body root Hroot)) as Hall.
  rewrite List.Forall_forall in Hall. apply Hall. exact Hin.
Qed.

Lemma get_game_id_returns game_name w :
  exists r w', get_game_id X self game_name w = (Returns r, w') /\ quiet w w'.
Proof.
  pose proof (quiet_get_game_id X self game_name w) as Hq.
  destruct (try_except_Exception_returns
              (xml_data <- _safe_api_call X self search_url (search_params game_name) ;;
               root <- _parse_xml X xml_data ;;
               match element_find root (py "item") with
               | Some game => n <- int X (element_get game (py "id")) ;; ret (Some n)
               | None => log WARNING (MsgNoGameFound game_name) ;;; ret None
               end)%py_scope
              ERROR (MsgFailedGameId game_name) None w) as (r & w' & Hrun).
  change (get_game_id X self game_name w = (Returns r, w')) in Hrun.
  rewrite Hrun in Hq. eauto.
Qed.

End LookupResults.

(* --------------------------------------------------------------------- *)
(** ** One turn of the retrieval loop *)
(* --------------------------------------------------------------------- *)

Lemma wrote_refl w : wrote w w [].
Proof. exists []. rewrite app_nil_r. split; reflexivity. Qed.

Lemma wrote_trans w1 w2 w3 a b :
  wrote w1 w2 a -> wrote w2 w3 b -> wrote w1 w3 (a ++ b).
Proof.
  intros (t1 & Ht1 & Hw1) (t2 & Ht2 & Hw2). exists (t1 ++ t2). split.
  - rewrite Ht2, Ht1, app_assoc. reflexivity.
  - rewrite writes_of_app, Hw1, Hw2. reflexivity.
Qed.

Lemma quiet_wrote w w' : quiet w w' -> wrote w w' [].
Proof. intros (_ & _ & t & Ht & Hw). exists t. split; assumption. Qed.

Lemma wrote_add_events w t : wrote w (add_events w t) (writes_of t).
Proof. exists t. split; reflexivity. Qed.

Lemma wrote_new_events w w' paths :
  wrote w w' paths -> writes_of (new_events w w') = paths.
Proof.
  intros (t & Ht & Hw). unfold new_events. rewrite Ht, drop_app_length. exact Hw.
Qed.

Section SaveGameComments.
Context (X : externals) (self : DataRetriever).

Lemma save_game_comments_returns game_name comments w :
  encodable comments = true ->
  exists w',
    _save_game_comments X self game_name comments w = (Returns tt, w')
    /\ wrote w w' (written_files X [game_file X self game_name]).
Proof.
  intros He. unfold _save_game_comments, try_except, bind, written_files.
  cbn [List.filter].
  destruct (write_refused X (game_file X self game_name)) eqn:Hw.
  - rewrite write_json_refused by exact Hw. cbn.
    eexists. split; [reflexivity|].
    apply (wrote_add_events w [EvLog ERROR _]).
  - rewrite write_json_ok by assumption. cbn.
    eexists. split; [reflexivity|].
    exists [EvWrite (game_file X self game_name);
            EvLog INFO (MsgSavedComments game_name (game_file X self game_name))].
    split; [|reflexivity]. cbn. rewrite <- app_assoc. reflexivity.
Qed.

End SaveGameComments.

Lemma str_eqb_sym a b : str_eqb a b = str_eqb b a.
Proof.
  unfold str_eqb. destruct (bool_decide_reflect (a = b)), (bool_decide_reflect (b = a));
    congruence.
Qed.

Lemma dict_set_keys {V} (d : list (str * V)) k v :
  map fst (dict_set d k v) =
  map fst d ++ (if existsb (str_eqb k) (map fst d) then [] else [k]).
Proof.
  induction d as [|[k' v'] d IH]; [reflexivity|].
  cbn [dict_set map fst existsb]. rewrite (str_eqb_sym k k').
  destruct (str_eqb k' k); cbn [orb map fst app].
  - rewrite app_nil_r. reflexivity.
  - rewrite IH. reflexivity.
Qed.

Lemma dict_set_encodable d k v :
  encodable (PDict d) = true -> utf8_encodable k = true -> encodable v = true ->
  encodable (PDict (dict_set d k v)) = true.
Proof.
  intros Hd Hk Hv. cbn [encodable] in *.
  induction d as [|[k' v'] d IH]; cbn [dict_set forallb fst snd].
  - rewrite Hk, Hv. reflexivity.
  - cbn [forallb fst snd] in Hd. apply andb_true_iff in Hd as [Hkv Hd].
    apply andb_true_iff in Hkv as [Hk' Hv'].
    destruct (str_eqb k' k); cbn [forallb fst snd].
    + rewrite Hk', Hv, Hd. reflexivity.
    + rewrite Hk', Hv', (IH Hd). reflexivity.
Qed.

Section RetrieveLoop.
Context (X : externals) (self : DataRetriever) (max_comments : Z).
Hypothesis parser_ok : parser_encodable X.

Lemma retrieve_step_world all_comments game_name w :
  snd (retrieve_comments_step X self max_comments all_comments game_name w)
  = world_after_step X self max_comments game_name w.
Proof.
  unfold world_after_step, retrieve_comments_step, try_except, bind.
  destruct (get_game_id X (bgg_client self) game_name w) as [[[game_id|]|e] w1];
    cbn; try reflexivity.
  destruct (get_game_comments X (bgg_client self) game_id max_comments w1)
    as [[comments|e] w2]; cbn; try reflexivity.
  destruct (_save_game_comments X self game_name (PList comments) _) as [[[]|e] w3];
    reflexivity.
Qed.

(** One turn: a name that is not found leaves the dictionary as it is and
    writes nothing; a name that is found is entered with its comments, and
    its file is written unless the file system refuses. *)
Lemma retrieve_step_spec all_comments game_name w :
  let w' := world_after_step X self max_comments game_name w in
  match fst (get_game_id X (bgg_client self) game_name w) with
  | Returns (Some game_id) =>
      exists comments,
        forallb encodable comments = true
        /\ retrieve_comments_step X self max_comments all_comments game_name w
           = (Returns (dict_set all_comments game_name (PList comments)), w')
        /\ wrote w w' (written_files X [game_file X self game_name])
  | _ =>
      retrieve_comments_step X self max_comments all_comments game_name w
        = (Returns all_comments, w')
      /\ wrote w w' []
  end.
Proof.
  intros w'. subst w'. rewrite <- (retrieve_step_world all_comments).
  unfold retrieve_comments_step, try_except, bind.
  destruct (get_game_id_returns X (bgg_client self) game_name w)
    as (r & w1 & Hid & Hq1).
  rewrite Hid. cbn [fst]. destruct r as [game_id|].
  - destruct (get_game_comments_returns X (bgg_client self) parser_ok game_id
                max_comments w1) as (comments & w2 & Hc & Hq2 & Henc).
    rewrite Hc. exists comments. split; [exact Henc|].
    cbn [log emit].
    destruct (save_game_comments_returns X self game_name (PList comments)
                (add_events w2 [EvLog INFO (MsgRetrieved (length comments) game_name)])
                Henc) as (w3 & Hsave & Hw3).
    change (add_events w2 [EvLog INFO (MsgRetrieved (length comments) game_name)])
      with {| requests_sent := requests_sent w2; files := files w2; heap := heap w2;
              trace := trace w2 ++ [EvLog INFO (MsgRetrieved (length comments) game_name)] |}
      in Hsave.
    rewrite Hsave. cbn [snd]. split; [reflexivity|].
    apply (wrote_trans w w1 w3 [] _ (quiet_wrote _ _ Hq1)).
    apply (wrote_trans w1 w2 w3 [] _ (quiet_wrote _ _ Hq2)).
    apply (wrote_trans w2 _ w3 [] _
             (wrote_add_events w2 [EvLog INFO (MsgRetrieved (length comments) game_name)])).
    exact Hw3.
  - cbn. split; [reflexivity|].
    apply (wrote_trans w w1 _ [] [] (quiet_wrote _ _ Hq1)).
    apply (wrote_add_events w1 [EvLog WARNING (MsgGameNotFound game_name)]).
Qed.

End RetrieveLoop.

Section RetrieveComments.
Context (X : externals) (self : DataRetriever) (max_comments : Z).
Hypothesis parser_ok : parser_encodable X.

Lemma retrieve_loop_spec games : forall all_comments w,
  Forall (fun game_name => utf8_encodable game_name = true) games ->
  encodable (PDict all_comments) = true ->
  exists dataset w',
    retrieve_comments_loop X self max_comments games all_comments w
      = (Returns dataset, w')
    /\ encodable (PDict dataset) = true
    /\ map fst dataset =
         map fst all_comments
         ++ first_occurrences (map fst all_comments)
              (found_names X self max_comments games w)
    /\ wrote w w'
         (written_files X
            (map (game_file X self) (found_names X self max_comments games w))).
Proof.
  induction games as [|game_name games IH]; intros all_comments w Hnames Hacc.
  - exists all_comments, w. cbn. rewrite app_nil_r.
    repeat split; [exact Hacc | apply wrote_refl].
  - inversion Hnames as [|? ? Hname Hrest]; subst.
    pose proof (retrieve_step_spec X self max_comments parser_ok all_comments
                  game_name w) as Hstep.
    cbn [retrieve_comments_loop]. unfold bind at 1.
    unfold found_names. cbn [id_lookups List.filter snd].
    cbv zeta in Hstep.
    destruct (fst (get_game_id X (bgg_client self) game_name w)) as [[game_id|]|e].
    + destruct Hstep as (comments & Henc & Hrun & Hwrote). rewrite Hrun.
      destruct (IH (dict_set all_comments game_name (PList comments))
                   (world_after_step X self max_comments game_name w) Hrest)
        as (dataset & w' & Hloop & Hd & Hkeys & Hw).
      { apply dict_set_encodable; assumption. }
      exists dataset, w'. split; [exact Hloop|]. split; [exact Hd|].
      rewrite bool_decide_eq_true_2 by (eexists; reflexivity).
      cbn [map fst first_occurrences]. split.
      * rewrite Hkeys, dict_set_keys.
        destruct (existsb (str_eqb game_name) (map fst all_comments)).
        -- rewrite app_nil_r. reflexivity.
        -- rewrite <- app_assoc. reflexivity.
      * change (written_files X (game_file X self game_name :: ?l))
          with (written_files X ([game_file X self game_name] ++ l)).
        unfold written_files in *. rewrite List.filter_app.
        eapply wrote_trans; [exact Hwrote | exact Hw].
    + destruct Hstep as (Hrun & Hwrote). rewrite Hrun.
      destruct (IH all_comments (world_after_step X self max_comments game_name w)
                   Hrest Hacc) as (dataset & w' & Hloop & Hd & Hkeys & Hw).
      exists dataset, w'. split; [exact Hloop|]. split; [exact Hd|].
      rewrite bool_decide_eq_false_2 by (intros [? ?]; discriminate).
      split; [exact Hkeys|].
      apply (wrote_trans _ _ _ [] _ Hwrote Hw).
    + destruct Hstep as (Hrun & Hwrote). rewrite Hrun.
      destruct (IH all_comments (world_after_step X self max_comments game_name w)
                   Hrest Hacc) as (dataset & w' & Hloop & Hd & Hkeys & Hw).
      exists dataset, w'. split; [exact Hloop|]. split; [exact Hd|].
      rewrite bool_decide_eq_false_2 by (intros [? ?]; discriminate).
      split; [exact Hkeys|].
      apply (wrote_trans _ _ _ [] _ Hwrote Hw).
Qed.

End RetrieveComments.

Lemma in_first_occurrences name names : forall seen,
  In name (first_occurrences seen names) <-> In name names /\ ~ In name seen.
Proof.
  induction names as [|n names IH]; intros seen; cbn [first_occurrences In].
  - tauto.
  - destruct (existsb (str_eqb n) seen) eqn:Hseen.
    + apply existsb_exists in Hseen as (k & Hk & Heq).
      unfold str_eqb in Heq. apply bool_decide_eq_true in Heq. subst k.
      rewrite IH. split.
      * tauto.
      * intros [[->|Hin] Hnot]; [contradiction | tauto].
    + assert (Hnot : ~ In n seen).
      { intros Hin. assert (existsb (str_eqb n) seen = true); [|congruence].
        apply existsb_exists. exists n. split; [exact Hin|].
        unfold str_eqb. apply bool_decide_eq_true. reflexivity. }
      cbn [In]. rewrite IH, in_app_iff. cbn [In]. split.
      * intros [->|[Hin Hns]]; [tauto|]. split; [tauto|]. tauto.
      * intros [[->|Hin] Hns]; [tauto|].
        destruct (decide (n = name)) as [->|Hne]; [tauto|]. right. tauto.
Qed.

Lemma in_found_names X self max_comments games w name :
  In name (found_names X self max_comments games w) <->
  exists game_id, In (name, Some game_id) (id_lookups X self max_comments games w).
Proof.
  unfold found_names. rewrite in_map_iff. split.
  - intros ([n [game_id|]] & <- & Hin); apply filter_In in Hin as [Hin Hsome].
    + exists game_id. exact Hin.
    + cbn in Hsome. discriminate Hsome.
  - intros (game_id & Hin). exists (name, Some game_id). split; [reflexivity|].
    apply filter_In. split; [exact Hin|]. reflexivity.
Qed.

Section RetrieveAll.
Context (X : externals) (self : DataRetriever).

Lemma save_full_dataset_returns dataset w :
  encodable dataset = true ->
  exists w',
    _save_full_dataset X self dataset w = (Returns tt, w')
    /\ wrote w w' (written_files X [full_dataset_path self])
    /\ (write_refused X (full_dataset_path self) = false ->
        files w' !! full_dataset_path self = Some (FileText (Json.dumps dataset))).
Proof.
  intros He. unfold written_files. cbn [List.filter].
  destruct (write_refused X (full_dataset_path self)) eqn:Hw.
  - unfold _save_full_dataset, try_except, bind.
    rewrite write_json_refused by exact Hw. cbn.
    eexists. split; [reflexivity|]. split; [|discriminate].
    apply (wrote_add_events w [EvLog ERROR _]).
  - rewrite save_full_dataset_ok by assumption.
    eexists. split; [reflexivity|]. split.
    + exists [EvWrite (full_dataset_path self);
              EvLog INFO (MsgSavedFull (full_dataset_path self))].
      split; [|reflexivity]. cbn. rewrite <- app_assoc. reflexivity.
    + intros _. cbn. apply lookup_insert_eq.
Qed.


End RetrieveAll.

Lemma sample_parser_encodable : parser_encodable sample_service.
Proof.
  intros s root. cbn [ET_fromstring sample_service]. unfold sample_fromstring.
  repeat match goal with
         | |- context [str_eqb s ?doc] => destruct (str_eqb s doc)
         end; intros H; inversion H; reflexivity.
Qed.


(* --------------------------------------------------------------------- *)
(** ** The preprocessor writes to its own objects only *)
(* --------------------------------------------------------------------- *)

Lemma keeps_weaken {A} n (m : M A) (Q R : A -> Prop) :
  keeps n m Q -> (forall r, Q r -> R r) -> keeps n m R.
Proof.
  intros Hm HQR w Hn. destruct (Hm w Hn) as (H1 & H2 & H3 & H4).
  repeat split; auto.
Qed.

Lemma keeps_ret {A} n (a : A) : keeps n (ret a) (fun r => r = a).
Proof. intros w Hn. cbn. repeat split; auto. intros r [= <-]. reflexivity. Qed.

Lemma keeps_raise {A} n e (Q : A -> Prop) : keeps n (raise e) Q.
Proof. intros w Hn. cbn. repeat split; auto. discriminate. Qed.

Lemma keeps_log n l m : keeps n (log l m) (fun _ => True).
Proof. intros w Hn. cbn. repeat split; auto. Qed.

Lemma keeps_bind {A B} n (m : M A) (k : A -> M B) (Q : A -> Prop) (R : B -> Prop) :
  keeps n m Q -> (forall a, Q a -> keeps n (k a) R) -> keeps n (bind m k) R.
Proof.
  intros Hm Hk w Hn. destruct (Hm w Hn) as (H1 & H2 & H3 & H4).
  unfold bind. destruct (m w) as [[a|e] w1]; cbn [fst snd] in *.
  - destruct (Hk a (H4 a eq_refl) w1 H1) as (K1 & K2 & K3 & K4).
    repeat split; [exact K1 | | congruence | exact K4].
    intros b Hb. rewrite K2 by exact Hb. apply H2. exact Hb.
  - repeat split; auto. discriminate.
Qed.

Lemma keeps_try_except {A} n (m : M A) handles (h : exn -> M A) (Q : A -> Prop) :
  keeps n m Q -> (forall e, keeps n (h e) Q) -> keeps n (try_except m handles h) Q.
Proof.
  intros Hm Hh w Hn. destruct (Hm w Hn) as (H1 & H2 & H3 & H4).
  unfold try_except. destruct (m w) as [[a|e] w1]; cbn [fst snd] in *.
  - repeat split; auto.
  - destruct (handles e).
    + destruct (Hh e w1 H1) as (K1 & K2 & K3 & K4).
      repeat split; [exact K1 | | congruence | exact K4].
      intros b Hb. rewrite K2 by exact Hb. apply H2. exact Hb.
    + repeat split; auto.
Qed.

Lemma keeps_deref n v : keeps n (deref v) (fun _ => True).
Proof.
  intros w Hn. unfold deref. destruct v as [ | s | a ]; cbn; auto.
  destruct (heap w !! a); cbn; auto.
Qed.

Lemma keeps_alloc n o : keeps n (alloc o) (fresh n).
Proof.
  intros w Hn. unfold alloc. cbn. repeat split.
  - rewrite length_app. lia.
  - intros a Ha. apply lookup_app_l. lia.
  - intros r [= <-]. exact Hn.
Qed.

Lemma keeps_update n a o : (n <= a)%nat -> keeps n (update a o) (fun _ => True).
Proof.
  intros Ha w Hn. unfold update. cbn. repeat split.
  - rewrite length_insert. exact Hn.
  - intros b Hb. apply list_lookup_insert_ne. lia.
Qed.

Lemma keeps_py_copy n x : keeps n (py_copy x) (fresh n).
Proof.
  unfold py_copy. eapply keeps_bind; [apply keeps_deref|]. intros [o|] _.
  - apply keeps_alloc.
  - apply keeps_raise.
Qed.

Lemma keeps_py_getitem n x key : keeps n (py_getitem x key) (fun _ => True).
Proof.
  unfold py_getitem. eapply keeps_bind; [apply keeps_deref|]. intros [[items|items]|] _;
    try apply keeps_raise.
  destruct (dict_get items key); [|apply keeps_raise].
  eapply keeps_weaken; [apply keeps_ret | auto].
Qed.

Lemma keeps_py_items n d : keeps n (py_items d) (fun _ => True).
Proof.
  unfold py_items. eapply keeps_bind; [apply keeps_deref|]. intros [[items|items]|] _;
    try apply keeps_raise.
  eapply keeps_weaken; [apply keeps_ret | auto].
Qed.

Lemma keeps_py_iter n xs : keeps n (py_iter xs) (fun _ => True).
Proof.
  unfold py_iter. eapply keeps_bind; [apply keeps_deref|].
  intros [[items|items]|] _; destruct xs;
    first [apply keeps_raise | eapply keeps_weaken; [apply keeps_ret | auto]].
Qed.

Lemma keeps_py_setitem n x key v :
  fresh n x -> keeps n (py_setitem x key v) (fun _ => True).
Proof.
  intros Hx. unfold py_setitem. eapply keeps_bind; [apply keeps_deref|].
  intros [[items|items]|] _; destruct x; try apply keeps_raise.
  apply keeps_update. exact Hx.
Qed.

Lemma keeps_py_append n xs v :
  fresh n xs -> keeps n (py_append xs v) (fun _ => True).
Proof.
  intros Hx. unfold py_append. eapply keeps_bind; [apply keeps_deref|].
  intros [[items|items]|] _; destruct xs; try apply keeps_raise.
  apply keeps_update. exact Hx.
Qed.

Lemma keeps_py_clean_text X n text : keeps n (py_clean_text X text) (fun _ => True).
Proof.
  unfold py_clean_text. destruct text; try apply keeps_raise.
  eapply keeps_weaken; [apply keeps_ret | auto].
Qed.

Lemma keeps_tokenize X n text : keeps n (tokenize X text) (fun _ => True).
Proof.
  unfold tokenize. apply keeps_try_except.
  - eapply keeps_bind with (Q := fun _ => True).
    + destruct text; try apply keeps_raise.
      destruct (word_tokenize X s); [|apply keeps_raise].
      eapply keeps_weaken; [apply keeps_ret | auto].
    + intros tokens _. eapply keeps_bind with (Q := fun _ => True).
      * destruct (stopwords_english X); [|apply keeps_raise].
        eapply keeps_weaken; [apply keeps_ret | auto].
      * intros words _. eapply keeps_weaken; [apply keeps_ret | auto].
  - intros e. eapply keeps_bind; [apply keeps_log|]. intros _ _.
    eapply keeps_weaken; [apply keeps_ret | auto].
Qed.

Lemma keeps_preprocess_comments X n comments target :
  fresh n target -> keeps n (preprocess_comments X comments target) (fun _ => True).
Proof.
  intros Htarget. induction comments as [|comment rest IH]; cbn [preprocess_comments].
  - eapply keeps_weaken; [apply keeps_ret | auto].
  - eapply keeps_bind; [apply keeps_py_copy|]. intros copy Hcopy.
    eapply keeps_bind; [apply keeps_py_getitem|]. intros value _.
    eapply keeps_bind; [apply keeps_py_clean_text|]. intros cleaned _.
    eapply keeps_bind; [apply keeps_py_setitem; exact Hcopy|]. intros _ _.
    eapply keeps_bind; [apply keeps_py_getitem|]. intros text _.
    eapply keeps_bind; [apply keeps_tokenize|]. intros tokens _.
    eapply keeps_bind; [apply keeps_alloc|]. intros tokens_list _.
    eapply keeps_bind; [apply keeps_py_setitem; exact Hcopy|]. intros _ _.
    eapply keeps_bind; [apply keeps_py_append; exact Htarget|]. intros _ _.
    exact IH.
Qed.

Lemma keeps_preprocess_games X n items target :
  fresh n target -> keeps n (preprocess_games X items target) (fun _ => True).
Proof.
  intros Htarget. induction items as [|[game comments] rest IH]; cbn [preprocess_games].
  - eapply keeps_weaken; [apply keeps_ret | auto].
  - eapply keeps_bind; [apply keeps_alloc|]. intros pc Hpc.
    eapply keeps_bind; [apply keeps_py_iter|]. intros cs _.
    eapply keeps_bind; [apply keeps_preprocess_comments; exact Hpc|]. intros _ _.
    eapply keeps_bind; [apply keeps_py_setitem; exact Htarget|]. intros _ _.
    exact IH.
Qed.

Lemma keeps_preprocess_dataset X n dataset :
  keeps n (preprocess_dataset X dataset) (fresh n).
Proof.
  unfold preprocess_dataset.
  eapply keeps_bind; [apply keeps_alloc|]. intros pd Hpd.
  eapply keeps_bind; [apply keeps_py_items|]. intros items _.
  eapply keeps_bind; [apply keeps_preprocess_games; exact Hpd|]. intros _ _.
  eapply keeps_weaken; [apply keeps_ret|]. intros r ->. exact Hpd.
Qed.

Lemma Forall2_impl_Forall {A B} (R R' : A -> B -> Prop) xs ys :
  Forall (fun y => forall x, R x y -> R' x y) ys ->
  Forall2 R xs ys -> Forall2 R' xs ys.
Proof.
  intros Hys H. induction H as [|x y xs ys Hxy H IH]; [constructor|].
  inversion Hys; subst. constructor; auto.
Qed.

(** Data read from a heap is read the same from any heap that still holds
    the same objects at the addresses that were read. *)
Lemma represents_within_extend (A : nat -> Prop) h h' :
  (forall a o, A a -> h !! a = Some o -> h' !! a = Some o) ->
  forall data v, represents_within A h v data -> represents_within A h' v data.
Proof.
  intros Hext data.
  induction data as [ | s | items IH | items IH ] using pyval_induction;
    intros v Hv; inversion Hv; subst.
  - constructor.
  - constructor.
  - econstructor; [assumption | apply Hext; eassumption |].
    eapply Forall2_impl_Forall; [exact IH | eassumption].
  - econstructor; [assumption | apply Hext; eassumption |].
    eapply Forall2_impl_Forall; [|eassumption].
    eapply List.Forall_impl; [|exact IH].
    intros entry Hentry kv [Hk Hr]. split; [exact Hk | apply Hentry; exact Hr].
Qed.

Lemma represents_within_weaken (A B : nat -> Prop) h :
  (forall a, h !! a <> None -> A a -> B a) ->
  forall data v, represents_within A h v data -> represents_within B h v data.
Proof.
  intros HAB data.
  induction data as [ | s | items IH | items IH ] using pyval_induction;
    intros v Hv; inversion Hv; subst.
  - constructor.
  - constructor.
  - econstructor; [apply HAB; [congruence | assumption] | eassumption |].
    eapply Forall2_impl_Forall; [exact IH | eassumption].
  - econstructor; [apply HAB; [congruence | assumption] | eassumption |].
    eapply Forall2_impl_Forall; [|eassumption].
    eapply List.Forall_impl; [|exact IH].
    intros entry Hentry kv [Hk Hr]. split; [exact Hk | apply Hentry; exact Hr].
Qed.

Lemma represents_extend h h' :
  (forall a o, h !! a = Some o -> h' !! a = Some o) ->
  forall data v, represents h v data -> represents h' v data.
Proof. intros Hext. apply represents_within_extend. intros a o _. apply Hext. Qed.

(** A value is the data of at most one Python value. *)
Lemma represents_functional h data : forall v data',
  represents h v data -> represents h v data' -> data = data'.
Proof.
  unfold represents.
  induction data as [ | s | items IH | items IH ] using pyval_induction;
    intros v data' Hv Hv'; inversion Hv; subst; inversion Hv'; subst;
    try reflexivity;
    repeat match goal with
           | H1 : h !! ?a = Some _, H2 : h !! ?a = Some _ |- _ =>
               rewrite H1 in H2; inversion H2; subst; clear H2
           end.
  - f_equal.
    match goal with
    | H1 : Forall2 _ ?vs items, H2 : Forall2 _ ?vs ?other |- items = ?other =>
        clear - IH H1 H2; revert other H2 IH;
        induction H1 as [|x y xs ys Hxy H1 IH1];
          intros other H2 IH; inversion H2; subst; [reflexivity|]
    end.
    inversion IH as [|? ? Hy Hys]; subst. f_equal; eauto.
  - f_equal.
    match goal with
    | H1 : Forall2 _ ?vs items, H2 : Forall2 _ ?vs ?other |- items = ?other =>
        clear - IH H1 H2; revert other H2 IH;
        induction H1 as [|x y xs ys Hxy H1 IH1];
          intros other H2 IH; inversion H2 as [|? y' ? ? Hxy' ?]; subst; [reflexivity|]
    end.
    inversion IH as [|? ? Hy Hys]; subst.
    destruct Hxy as [Hk Hr]. destruct Hxy' as [Hk' Hr'].
    destruct y as [k d], y' as [k' d']. cbn [fst snd] in *.
    f_equal; [f_equal; [congruence | eauto] | eauto].
Qed.

(** C10: [preprocess_dataset] does not change its input.  Whatever the
    argument is and however the call ends, every object that was in the heap
    before the call is the same object after it, so the dataset, each of its
    comment lists and each comment reads as the same data as before; the
    files are untouched as well.  The fields are added to copies. *)
Theorem preprocess_dataset_frame (X : externals) (dataset : val) (w : world) :
  (forall a o, heap w !! a = Some o ->
     heap (snd (preprocess_dataset X dataset w)) !! a = Some o)
  /\ (forall v data, represents (heap w) v data ->
        represents (heap (snd (preprocess_dataset X dataset w))) v data)
  /\ files (snd (preprocess_dataset X dataset w)) = files w.
Proof.
  destruct (keeps_preprocess_dataset X (length (heap w)) dataset w (le_n _))
    as (_ & Hsame & Hfiles & _).
  assert (Hext : forall a o, heap w !! a = Some o ->
            heap (snd (preprocess_dataset X dataset w)) !! a = Some o).
  { intros a o Ha. rewrite Hsame; [exact Ha|]. eapply lookup_lt_Some. exact Ha. }
  split; [exact Hext|]. split; [|exact Hfiles].
  intros v data. apply represents_extend. exact Hext.
Qed.

Lemma preprocess_dataset_frame_witness :
  heap (snd (preprocess_dataset sample_nltk (VRef 2) (set_heap initial_world sample_heap)))
    !! 0%nat
  = Some (ODict [ (py "username", VStr (py "ann")); (py "rating", VStr (py "8"));
                  (py "value", VStr (py "Catan IS Great!! (1995)")) ])
  /\ heap (snd (preprocess_dataset sample_nltk (VRef 2)
                  (set_heap initial_world null_value_heap))) !! 0%nat
     = Some (ODict [ (py "username", VStr (py "bob")); (py "rating", VStr (py "N/A"));
                     (py "value", VNone) ]).
Proof.
  split.
  - apply (preprocess_dataset_frame sample_nltk (VRef 2)
             (set_heap initial_world sample_heap)). reflexivity.
  - apply (preprocess_dataset_frame sample_nltk (VRef 2)
             (set_heap initial_world null_value_heap)). reflexivity.
Defined.

(* --------------------------------------------------------------------- *)
(** ** What the preprocessor builds *)
(* --------------------------------------------------------------------- *)

Lemma bind_returns {A B} (m : M A) (k : A -> M B) w a w1 :
  m w = (Returns a, w1) -> bind m k w = k a w1.
Proof. intros H. unfold bind. rewrite H. reflexivity. Qed.

Lemma py_copy_run a o w :
  heap w !! a = Some o ->
  py_copy (VRef a) w = (Returns (VRef (length (heap w))), set_heap w (heap w ++ [o])).
Proof. intros H. unfold py_copy, bind, deref. rewrite H. reflexivity. Qed.

Lemma py_getitem_run a items key v w :
  heap w !! a = Some (ODict items) -> dict_get items key = Some v ->
  py_getitem (VRef a) key w = (Returns v, w).
Proof. intros H Hk. unfold py_getitem, bind, deref. rewrite H, Hk. reflexivity. Qed.

Lemma py_setitem_run a items key v w :
  heap w !! a = Some (ODict items) ->
  py_setitem (VRef a) key v w =
    (Returns tt, set_heap w (<[a := ODict (dict_set items key v)]> (heap w))).
Proof. intros H. unfold py_setitem, bind, deref. rewrite H. reflexivity. Qed.

Lemma py_append_run a items v w :
  heap w !! a = Some (OList items) ->
  py_append (VRef a) v w =
    (Returns tt, set_heap w (<[a := OList (items ++ [v])]> (heap w))).
Proof. intros H. unfold py_append, bind, deref. rewrite H. reflexivity. Qed.

Lemma py_iter_run a items w :
  heap w !! a = Some (OList items) -> py_iter (VRef a) w = (Returns items, w).
Proof. intros H. unfold py_iter, bind, deref. rewrite H. reflexivity. Qed.

Lemma py_items_run a items w :
  heap w !! a = Some (ODict items) -> py_items (VRef a) w = (Returns items, w).
Proof. intros H. unfold py_items, bind, deref. rewrite H. reflexivity. Qed.

(** [tokenize] returns, whatever NLTK does, and leaves the heap alone. *)
Lemma tokenize_run X s w :
  exists w', tokenize X (VStr s) w = (Returns (tokens_of X s), w')
             /\ heap w' = heap w.
Proof.
  unfold tokenize, tokens_of, try_except, bind.
  destruct (word_tokenize X s) as [tokens|]; cbn.
  - destruct (stopwords_english X) as [words|]; cbn; eauto.
  - destruct (stopwords_english X); eauto.
Qed.

Lemma dict_get_set_eq {V} (d : list (str * V)) k v :
  dict_get (dict_set d k v) k = Some v.
Proof.
  induction d as [|[k' v'] d IH]; cbn [dict_set dict_get].
  - unfold str_eqb. rewrite bool_decide_eq_true_2 by reflexivity. reflexivity.
  - destruct (str_eqb k' k) eqn:Hk; cbn [dict_get]; rewrite Hk; [reflexivity | exact IH].
Qed.

Lemma entries_dict_get A h items data k d :
  entries_represent A h items data -> dict_get data k = Some d ->
  exists v, dict_get items k = Some v /\ represents_within A h v d.
Proof.
  induction 1 as [|[k1 v1] [k2 d2] items data [Hk Hr] H IH]; cbn [dict_get];
    [discriminate|].
  cbn [fst snd] in *. subst k2. destruct (str_eqb k1 k).
  - intros [= <-]. eauto.
  - exact IH.
Qed.

Lemma entries_dict_set A h items data k v d :
  entries_represent A h items data -> represents_within A h v d ->
  entries_represent A h (dict_set items k v) (dict_set data k d).
Proof.
  intros H Hv. induction H as [|[k1 v1] [k2 d2] items data [Hk Hr] H IH];
    cbn [dict_set].
  - constructor; [split; [reflexivity | exact Hv] | constructor].
  - cbn [fst snd] in *. subst k2. destruct (str_eqb k1 k).
    + constructor; [split; [reflexivity | exact Hv] | exact H].
    + constructor; [split; [reflexivity | exact Hr] | exact IH].
Qed.

Lemma entries_extend (A : nat -> Prop) h h' items data :
  (forall a o, A a -> h !! a = Some o -> h' !! a = Some o) ->
  entries_represent A h items data -> entries_represent A h' items data.
Proof.
  intros Hext H. eapply Forall2_impl; [exact H|].
  intros kv entry [Hk Hr]. split; [exact Hk|].
  eapply represents_within_extend; eassumption.
Qed.

Lemma entries_weaken (A B : nat -> Prop) h items data :
  (forall a, h !! a <> None -> A a -> B a) ->
  entries_represent A h items data -> entries_represent B h items data.
Proof.
  intros HAB H. eapply Forall2_impl; [exact H|].
  intros kv entry [Hk Hr]. split; [exact Hk|].
  eapply represents_within_weaken; eassumption.
Qed.

Lemma tokens_represent A h tokens :
  Forall2 (represents_within A h) (map VStr tokens) (map PStr tokens).
Proof. induction tokens; cbn; constructor; [constructor | assumption]. Qed.

Section PreprocessComment.
Context (X : externals) (n0 pd pc : nat).

(** One comment: the loop body appends a reference to a new dictionary, which
    reads as the comment with its two new fields; nothing else that existed
    changes. *)
Lemma preprocess_comment_step comment fields value rest done w :
  (n0 <= pc)%nat -> (n0 <= pd)%nat -> (pd < length (heap w))%nat ->
  heap w !! pc = Some (OList done) ->
  represents_within (fun a => (a < n0)%nat) (heap w) comment (PDict fields) ->
  dict_get fields (py "value") = Some (PStr value) ->
  exists w' copy,
    preprocess_comments X (comment :: rest) (VRef pc) w
      = preprocess_comments X rest (VRef pc) w'
    /\ (length (heap w) <= length (heap w'))%nat
    /\ (forall a, (a < length (heap w))%nat -> a <> pc ->
          heap w' !! a = heap w !! a)
    /\ heap w' !! pc = Some (OList (done ++ [copy]))
    /\ represents_within (settled pc pd w') (heap w') copy
         (preprocessed_comment X (PDict fields)).
Proof.
  intros Hpc0 Hpd0 Hpd Hpc Hcomment Hvalue.
  inversion Hcomment as [ | | | a items data Ha Hobj Hentries ]; subst.
  destruct (entries_dict_get _ _ _ _ _ _ Hentries Hvalue) as (v & Hget & Hv).
  inversion Hv; subst. clear Hv.
  assert (Hpc_lt : (pc < length (heap w))%nat) by (eapply lookup_lt_Some; exact Hpc).
  assert (Ha_lt : (a < length (heap w))%nat) by (eapply lookup_lt_Some; exact Hobj).
  set (T := length (heap w)) in *.
  set (cleaned := clean_text (unicode X) value).
  set (items1 := dict_set items (py "clean_text") (VStr cleaned)).
  set (items2 := dict_set items1 (py "tokens") (VRef (S T))).
  cbn [preprocess_comments].
  (* preprocessed_comment = comment.copy() *)
  rewrite (bind_returns _ _ _ _ _ (py_copy_run a _ w Hobj)). fold T.
  set (w1 := set_heap w (heap w ++ [ODict items])).
  assert (H1a : heap w1 !! a = Some (ODict items))
    by (cbn; rewrite lookup_app_l by exact Ha_lt; exact Hobj).
  assert (H1T : heap w1 !! T = Some (ODict items))
    by (cbn; apply list_lookup_middle; reflexivity).
  (* comment['value'], clean_text *)
  rewrite (bind_returns _ _ _ _ _ (py_getitem_run a items _ _ w1 H1a Hget)).
  rewrite (bind_returns (py_clean_text X (VStr value)) _ w1 (VStr cleaned) w1 eq_refl).
  (* preprocessed_comment['clean_text'] = ... *)
  rewrite (bind_returns _ _ _ _ _ (py_setitem_run T items _ _ w1 H1T)).
  set (w2 := set_heap w1 (<[T := ODict items1]> (heap w1))).
  assert (H2T : heap w2 !! T = Some (ODict items1)).
  { cbn. apply list_lookup_insert_eq. rewrite length_app. cbn. fold T. lia. }
  rewrite (bind_returns _ _ _ _ _
             (py_getitem_run T items1 _ _ w2 H2T (dict_get_set_eq items _ _))).
  (* tokenize *)
  destruct (tokenize_run X cleaned w2) as (w3 & Htok & Hheap3).
  rewrite (bind_returns _ _ _ _ _ Htok).
  assert (Hlen3 : length (heap w3) = S T).
  { rewrite Hheap3. cbn. rewrite length_insert, length_app. cbn. fold T. lia. }
  unfold alloc at 1. unfold bind at 1. rewrite Hlen3.
  set (w4 := set_heap w3 (heap w3 ++ [OList (map VStr (tokens_of X cleaned))])).
  assert (H4T : heap w4 !! T = Some (ODict items1)).
  { cbn. rewrite lookup_app_l by lia. rewrite Hheap3. exact H2T. }
  (* preprocessed_comment['tokens'] = ... *)
  rewrite (bind_returns _ _ _ _ _ (py_setitem_run T items1 _ _ w4 H4T)).
  fold items2.
  set (w5 := set_heap w4 (<[T := ODict items2]> (heap w4))).
  assert (Hlen5 : length (heap w5) = S (S T)).
  { cbn. rewrite length_insert, length_app, Hlen3. cbn. lia. }
  assert (Hold5 : forall b, (b < T)%nat -> heap w5 !! b = heap w !! b).
  { intros b Hb. cbn. rewrite list_lookup_insert_ne by lia.
    rewrite lookup_app_l by lia. rewrite Hheap3. cbn.
    rewrite list_lookup_insert_ne by lia. apply lookup_app_l. exact Hb. }
  assert (H5pc : heap w5 !! pc = Some (OList done)) by (rewrite Hold5; assumption).
  (* preprocessed_comments.append(preprocessed_comment) *)
  rewrite (bind_returns _ _ _ _ _ (py_append_run pc done _ w5 H5pc)).
  set (w6 := set_heap w5 (<[pc := OList (done ++ [VRef T])]> (heap w5))).
  assert (Hlen6 : length (heap w6) = S (S T)) by (cbn; rewrite length_insert; exact Hlen5).
  assert (Hold6 : forall b, (b < T)%nat -> b <> pc -> heap w6 !! b = heap w !! b).
  { intros b Hb Hne. cbn. rewrite list_lookup_insert_ne by congruence. apply Hold5. exact Hb. }
  assert (H6T : heap w6 !! T = Some (ODict items2)).
  { cbn. rewrite list_lookup_insert_ne by lia.
    apply list_lookup_insert_eq. rewrite length_app, Hlen3. cbn. lia. }
  assert (H6t : heap w6 !! S T = Some (OList (map VStr (tokens_of X cleaned)))).
  { cbn. rewrite list_lookup_insert_ne by lia. rewrite list_lookup_insert_ne by lia.
    apply list_lookup_middle. symmetry. exact Hlen3. }
  exists w6, (VRef T). split; [reflexivity|]. split; [lia|]. split; [exact Hold6|].
  split; [unfold w6; cbn [heap set_heap]; apply list_lookup_insert_eq; rewrite Hlen5; lia|].
  (* the copy reads as the preprocessed comment *)
  unfold preprocessed_comment. rewrite Hvalue. fold cleaned.
  assert (Hsettled : forall b, (b < n0)%nat -> settled pc pd w6 b).
  { intros b Hb. unfold settled. rewrite Hlen6. lia. }
  econstructor; [unfold settled; rewrite Hlen6; lia | exact H6T |].
  apply entries_dict_set.
  - apply entries_dict_set; [|constructor].
    apply (entries_weaken (fun b => (b < n0)%nat)); [intros b _; apply Hsettled|].
    eapply entries_extend; [|exact Hentries].
    intros b o Hb Hlook. rewrite Hold6 by lia. exact Hlook.
  - econstructor; [unfold settled; rewrite Hlen6; lia | exact H6t |].
    apply tokens_represent.
Qed.

End PreprocessComment.

Section PreprocessComments.
Context (X : externals) (n0 pd pc : nat).
Hypothesis pc_new : (n0 <= pc)%nat.
Hypothesis pd_new : (n0 <= pd)%nat.

Lemma preprocess_comments_run comments data :
  Forall2 (fun c d => has_text d) comments data ->
  forall done done_data w,
  (pd < length (heap w))%nat ->
  heap w !! pc = Some (OList done) ->
  Forall2 (represents_within (fun a => (a < n0)%nat) (heap w)) comments data ->
  Forall2 (represents_within (settled pc pd w) (heap w)) done done_data ->
  exists w' final,
    preprocess_comments X comments (VRef pc) w = (Returns tt, w')
    /\ (length (heap w) <= length (heap w'))%nat
    /\ (forall a, (a < length (heap w))%nat -> a <> pc ->
          heap w' !! a = heap w !! a)
    /\ heap w' !! pc = Some (OList final)
    /\ Forall2 (represents_within (settled pc pd w') (heap w')) final
         (done_data ++ map (preprocessed_comment X) data).
Proof.
  induction 1 as [|comment d comments data Htext _ IH];
    intros done done_data w Hpd Hpc Hcomments Hdone.
  - exists w, done. cbn. rewrite app_nil_r. repeat split; auto.
  - inversion Hcomments as [|? ? ? ? Hcomment Hrest]; subst.
    destruct Htext as (fields & value & -> & Hvalue).
    destruct (preprocess_comment_step X n0 pd pc comment fields value comments done w
                pc_new pd_new Hpd Hpc Hcomment Hvalue)
      as (w1 & copy & Hrun & Hlen & Hold & Hpc1 & Hcopy).
    assert (Hext : forall a o, (a < length (heap w))%nat -> a <> pc ->
              heap w !! a = Some o -> heap w1 !! a = Some o).
    { intros a o Ha Hne Hlook. rewrite Hold by assumption. exact Hlook. }
    destruct (IH (done ++ [copy]) (done_data ++ [preprocessed_comment X (PDict fields)])
                 w1) as (w' & final & Hrun' & Hlen' & Hold' & Hpc' & Hfinal).
    + lia.
    + exact Hpc1.
    + eapply Forall2_impl; [exact Hrest|]. intros v o Hv.
      eapply represents_within_extend; [|exact Hv].
      intros a obj Ha Hlook. apply Hext; [eapply lookup_lt_Some; exact Hlook | lia | exact Hlook].
    + apply Forall2_app; [|constructor; [exact Hcopy | constructor]].
      eapply Forall2_impl; [exact Hdone|]. intros v o Hv.
      apply (represents_within_weaken (settled pc pd w)).
      { intros a _ (Ha & Hne1 & Hne2). unfold settled. repeat split; [lia | assumption..]. }
      eapply represents_within_extend; [|exact Hv].
      intros a obj (Ha & Hne1 & Hne2) Hlook. apply Hext; assumption.
    + exists w', final. split; [rewrite Hrun; exact Hrun'|].
      split; [lia|]. split.
      * intros a Ha Hne. rewrite Hold' by (try lia; assumption). apply Hold; assumption.
      * split; [exact Hpc'|]. cbn [map]. rewrite <- app_assoc in Hfinal. exact Hfinal.
Qed.

End PreprocessComments.

Lemma represents_bounded A h v data :
  represents_within A h v data ->
  represents_within (fun a => (a < length h)%nat) h v data.
Proof.
  apply represents_within_weaken. intros a Ha _.
  apply lookup_lt_is_Some. destruct (h !! a); [eauto | contradiction].
Qed.

Section PreprocessGames.
Context (X : externals) (n0 pd : nat).
Hypothesis pd_new : (n0 <= pd)%nat.

(** The dictionary that the assignments [preprocessed_dataset[game] = ...]
    build from [done_data]. *)
Let assigned (done_data entries : list (str * pyval)) : list (str * pyval) :=
  fold_left (fun d entry => dict_set d (fst entry) (snd entry)) entries done_data.

Lemma preprocess_games_run items data :
  Forall2 (fun (kv : str * val) (entry : str * pyval) =>
             exists comments, snd entry = PList comments /\ Forall has_text comments)
          items data ->
  forall done done_data w,
  heap w !! pd = Some (ODict done) ->
  entries_represent (fun a => (a < n0)%nat) (heap w) items data ->
  entries_represent (settled pd pd w) (heap w) done done_data ->
  exists w' final,
    preprocess_games X items (VRef pd) w = (Returns tt, w')
    /\ (length (heap w) <= length (heap w'))%nat
    /\ (forall a, (a < length (heap w))%nat -> a <> pd ->
          heap w' !! a = heap w !! a)
    /\ heap w' !! pd = Some (ODict final)
    /\ entries_represent (settled pd pd w') (heap w') final
         (assigned done_data (preprocessed X data)).
Proof.
  induction 1 as [|[game cv] [game' cd] items data Htext _ IH];
    intros done done_data w Hpd Hitems Hdone.
  - exists w, done. cbn. repeat split; auto.
  - inversion Hitems as [|? ? ? ? [Hkey Hcv] Hrest]; subst.
    cbn [fst snd] in *. subst game'.
    destruct Htext as (cdata & -> & Htext).
    inversion Hcv as [ | | a cvals ? Ha Hobj Hcvals | ]; subst.
    assert (Hpd_lt : (pd < length (heap w))%nat) by (eapply lookup_lt_Some; exact Hpd).
    assert (Ha_lt : (a < length (heap w))%nat) by (eapply lookup_lt_Some; exact Hobj).
    set (T := length (heap w)) in *.
    cbn [preprocess_games].
    (* preprocessed_comments = [] *)
    unfold alloc at 1. unfold bind at 1. fold T.
    set (w1 := set_heap w (heap w ++ [OList []])).
    assert (Hold1 : forall b, (b < T)%nat -> heap w1 !! b = heap w !! b)
      by (intros b Hb; cbn; apply lookup_app_l; exact Hb).
    assert (H1T : heap w1 !! T = Some (OList []))
      by (cbn; apply list_lookup_middle; reflexivity).
    assert (Hlen1 : length (heap w1) = S T) by (cbn; rewrite length_app; cbn; lia).
    (* for comment in comments *)
    rewrite (bind_returns _ _ _ _ _ (py_iter_run a cvals w1 ltac:(rewrite Hold1; assumption))).
    destruct (preprocess_comments_run X n0 pd T ltac:(lia) pd_new cvals cdata) with
      (done := @nil val) (done_data := @nil pyval) (w := w1)
      as (w2 & final & Hrun2 & Hlen2 & Hold2 & H2T & Hfinal).
    { clear -Hcvals Htext. induction Hcvals; inversion Htext; subst; constructor; auto. }
    { lia. }
    { exact H1T. }
    { eapply Forall2_impl; [exact Hcvals|]. intros v o Hv.
      eapply represents_within_extend; [|exact Hv].
      intros b obj Hb Hlook. rewrite Hold1; [exact Hlook|].
      eapply lookup_lt_Some. exact Hlook. }
    { constructor. }
    rewrite (bind_returns _ _ _ _ _ Hrun2). cbn [app] in Hfinal.
    (* preprocessed_dataset[game] = preprocessed_comments *)
    assert (H2pd : heap w2 !! pd = Some (ODict done)).
    { rewrite Hold2 by lia. rewrite Hold1 by lia. exact Hpd. }
    rewrite (bind_returns _ _ _ _ _ (py_setitem_run pd done game (VRef T) w2 H2pd)).
    set (w3 := set_heap w2 (<[pd := ODict (dict_set done game (VRef T))]> (heap w2))).
    assert (Hlen3 : length (heap w3) = length (heap w2))
      by (cbn; apply length_insert).
    assert (Hold3 : forall b, b <> pd -> heap w3 !! b = heap w2 !! b)
      by (intros b Hb; cbn; apply list_lookup_insert_ne; congruence).
    assert (Hold : forall b, (b < T)%nat -> b <> pd -> heap w3 !! b = heap w !! b).
    { intros b Hb Hne. rewrite Hold3 by exact Hne. rewrite Hold2 by lia.
      apply Hold1. exact Hb. }
    destruct (IH (dict_set done game (VRef T))
                 (dict_set done_data game (preprocessed_comments X (PList cdata))) w3)
      as (w' & final' & Hrun' & Hlen' & Hold' & Hpd' & Hfinal').
    + unfold w3. cbn [heap set_heap]. apply list_lookup_insert_eq. lia.
    + eapply entries_extend; [|exact Hrest].
      intros b obj Hb Hlook. rewrite Hold; [exact Hlook | | lia].
      eapply lookup_lt_Some. exact Hlook.
    + apply entries_dict_set.
      * apply (entries_weaken (settled pd pd w)).
        { intros b _ (Hb & Hne & _). unfold settled. repeat split; [lia | assumption..]. }
        eapply entries_extend; [|exact Hdone].
        intros b obj (Hb & Hne & _) Hlook. rewrite Hold by assumption. exact Hlook.
      * cbn [preprocessed_comments].
        econstructor.
        -- unfold settled. repeat split; lia.
        -- rewrite Hold3 by lia. exact H2T.
        -- eapply Forall2_impl; [exact Hfinal|]. intros v o Hv.
           apply (represents_within_weaken (settled T pd w2)).
           { intros b _ (Hb & _ & Hne). unfold settled. repeat split; [lia | assumption..]. }
           eapply represents_within_extend; [|exact Hv].
           intros b obj (Hb & _ & Hne) Hlook. rewrite Hold3 by exact Hne. exact Hlook.
    + exists w', final'. split; [exact Hrun'|]. split; [lia|]. split.
      * intros b Hb Hne. rewrite Hold' by (try lia; assumption). apply Hold; assumption.
      * split; [exact Hpd'|]. exact Hfinal'.
Qed.

End PreprocessGames.

Lemma dict_get_set_ne {V} (d : list (str * V)) k k' v :
  k <> k' -> dict_get (dict_set d k v) k' = dict_get d k'.
Proof.
  intros Hne. induction d as [|[k1 v1] d IH]; cbn [dict_set dict_get].
  - unfold str_eqb. rewrite bool_decide_eq_false_2 by exact Hne. reflexivity.
  - destruct (str_eqb k1 k) eqn:Hk; cbn [dict_get].
    + unfold str_eqb in *. apply bool_decide_eq_true in Hk. subst k1.
      rewrite bool_decide_eq_false_2 by exact Hne. reflexivity.
    + rewrite IH. reflexivity.
Qed.

Lemma preprocessed_keys X data : map fst (preprocessed X data) = map fst data.
Proof. unfold preprocessed. rewrite map_map. reflexivity. Qed.

(** C5 (amended): for a dataset in which every comment has a string under
    ["value"], [preprocess_dataset] returns a new dictionary with the same
    games in the same order; every comment list has the same comments in the
    same order; and every comment keeps its fields and has [clean_text], the
    cleaned value, and [tokens], the result of [tokenize] on that text.  A
    comment whose value is [None] or missing is not covered. *)
Theorem preprocess_dataset_spec (X : externals) (dataset : val)
    (data : list (str * pyval)) (w : world) :
  represents (heap w) dataset (PDict data) ->
  nodupb (map fst data) = true ->
  comments_have_text data ->
  (exists w',
     preprocess_dataset X dataset w = (Returns (VRef (length (heap w))), w')
     /\ represents (heap w') (VRef (length (heap w))) (PDict (preprocessed X data)))
  /\ map fst (preprocessed X data) = map fst data
  /\ (forall fields value,
        dict_get fields (py "value") = Some (PStr value) ->
        exists fields',
          preprocessed_comment X (PDict fields) = PDict fields'
          /\ dict_get fields' (py "clean_text")
             = Some (PStr (clean_text (unicode X) value))
          /\ (forall w0, exists w1,
                tokenize X (VStr (clean_text (unicode X) value)) w0
                  = (Returns (tokens_of X (clean_text (unicode X) value)), w1))
          /\ dict_get fields' (py "tokens")
             = Some (PList (map PStr (tokens_of X (clean_text (unicode X) value))))
          /\ (forall key, key <> py "clean_text" -> key <> py "tokens" ->
                dict_get fields' key = dict_get fields key)).
Proof.
  intros Hdataset Hkeys Htext. split; [|split].
  - inversion Hdataset as [ | | | a items ? _ Hobj Hentries ]; subst.
    assert (Ha_lt : (a < length (heap w))%nat) by (eapply lookup_lt_Some; exact Hobj).
    set (n0 := length (heap w)) in *.
    unfold preprocess_dataset.
    unfold alloc at 1. unfold bind at 1. fold n0.
    set (w1 := set_heap w (heap w ++ [ODict []])).
    assert (Hold1 : forall b, (b < n0)%nat -> heap w1 !! b = heap w !! b)
      by (intros b Hb; cbn; apply lookup_app_l; exact Hb).
    rewrite (bind_returns _ _ _ _ _ (py_items_run a items w1 ltac:(rewrite Hold1; assumption))).
    destruct (preprocess_games_run X n0 n0 (le_n _) items data) with
      (done := @nil (str * val)) (done_data := @nil (str * pyval)) (w := w1)
      as (w' & final & Hrun & _ & _ & Hfinal_obj & Hfinal).
    { clear -Hentries Htext. unfold comments_have_text in Htext.
      induction Hentries; inversion Htext; subst; constructor; auto. }
    { cbn. apply list_lookup_middle. reflexivity. }
    { apply (entries_extend _ (heap w)).
      - intros b obj Hb Hlook. rewrite Hold1; assumption.
      - eapply entries_weaken; [|exact Hentries].
        intros b Hb _. apply lookup_lt_is_Some.
        destruct (heap w !! b); [eauto | contradiction]. }
    { constructor. }
    rewrite (bind_returns _ _ _ _ _ Hrun).
    exists w'. split; [reflexivity|].
    change (fold_left _ (preprocessed X data) [])
      with (Json.dict_of_pairs (preprocessed X data)) in Hfinal.
    rewrite JsonFacts.dict_of_pairs_unique in Hfinal
      by (rewrite preprocessed_keys; exact Hkeys).
    econstructor; [exact I | exact Hfinal_obj |].
    eapply entries_weaken; [|exact Hfinal]. auto.
  - apply preprocessed_keys.
  - intros fields value Hvalue. unfold preprocessed_comment. rewrite Hvalue.
    eexists. split; [reflexivity|]. split; [|split; [|split]].
    + rewrite dict_get_set_ne by discriminate. apply dict_get_set_eq.
    + intros w0. destruct (tokenize_run X (clean_text (unicode X) value) w0)
        as (w1 & Hrun & _). eauto.
    + apply dict_get_set_eq.
    + intros key Hk1 Hk2. rewrite !dict_get_set_ne by congruence. reflexivity.
Qed.

Lemma preprocess_dataset_spec_witness :
  exists w',
    preprocess_dataset sample_nltk (VRef 2) (set_heap initial_world sample_heap)
      = (Returns (VRef 3), w')
    /\ represents (heap w') (VRef 3)
         (PDict
            [ (py "Catan",
               PList
                 [ PDict [ (py "username", PStr (py "ann"));
                           (py "rating", PStr (py "8"));
                           (py "value", PStr (py "Catan IS Great!! (1995)"));
                           (py "clean_text", PStr (py "catan is great "));
                           (py "tokens", PList [PStr (py "catan"); PStr (py "great")]) ] ]) ]).
Proof.
  destruct (preprocess_dataset_spec sample_nltk (VRef 2)
              [ (py "Catan",
                 PList [ PDict [ (py "username", PStr (py "ann"));
                                 (py "rating", PStr (py "8"));
                                 (py "value", PStr (py "Catan IS Great!! (1995)")) ] ]) ]
              (set_heap initial_world sample_heap))
    as ((w' & Hrun & Hrep) & _).
  - repeat (econstructor; try reflexivity).
  - reflexivity.
  - repeat (econstructor; try reflexivity).
  - exists w'. split; [exact Hrun | exact Hrep].
Defined.

Lemma preprocess_dataset_missing_text_counterexample :
  represents null_value_heap (VRef 2)
    (PDict [ (py "Catan",
              PList [ PDict [ (py "username", PStr (py "bob"));
                              (py "rating", PStr (py "N/A"));
                              (py "value", PNone) ] ]) ])
  /\ fst (preprocess_dataset sample_nltk (VRef 2) (set_heap initial_world null_value_heap))
     = Raises AttributeError
  /\ represents missing_value_heap (VRef 2)
       (PDict [ (py "Catan",
                 PList [ PDict [ (py "username", PStr (py "bob"));
                                 (py "rating", PStr (py "N/A")) ] ]) ])
  /\ fst (preprocess_dataset sample_nltk (VRef 2)
            (set_heap initial_world missing_value_heap))
     = Raises KeyError.
Proof.
  split; [repeat (econstructor; try reflexivity)|].
  split; [vm_compute; reflexivity|].
  split; [repeat (econstructor; try reflexivity)|].
  vm_compute. reflexivity.
Qed.

(* ===================================================================== *)
(** * Further results: the client *)
(* ===================================================================== *)

Section SafeApiCallShape.
Context (X : externals) (self : BGGDataClient) (url : str) (p : params).

Let n := Z.to_nat (max_retries self).

(** Whatever the service does, a run of the retry loop from attempt [i] is a
    number [k] of failed attempts, each followed by its sleep, and then one
    last request (a success, a failure that is raised, or a refused sleep). *)
Lemma safe_api_call_loop_shape m : forall i w,
  (i + m = n)%nat ->
  exists k t,
    snd (_safe_api_call_loop X self url p (map Z.of_nat (seq i m)) w)
      = {| requests_sent := (requests_sent w + length (gets_of t))%nat;
           files := files w; heap := heap w; trace := trace w ++ t |}
    /\ sleeps_of t = map (fun j => retry_delay self * Z.of_nat j) (seq (S i) k)
    /\ length (gets_of t) = match m with O => O | S _ => S k end
    /\ (k <= m - 1)%nat
    /\ writes_of t = [].
Proof.
  induction m as [|m IH]; intros i w Him.
  - exists 0%nat, []. cbn. rewrite app_nil_r, Nat.add_0_r. destruct w; auto.
  - assert (Hone : forall t0, gets_of t0 = [] -> sleeps_of t0 = [] -> writes_of t0 = [] ->
        exists k t,
          {| requests_sent := S (requests_sent w); files := files w; heap := heap w;
             trace := (trace w ++ [EvGet url p]) ++ t0 |}
          = {| requests_sent := (requests_sent w + length (gets_of t))%nat;
               files := files w; heap := heap w; trace := trace w ++ t |}
          /\ sleeps_of t = map (fun j => retry_delay self * Z.of_nat j) (seq (S i) k)
          /\ length (gets_of t) = S k /\ (k <= S m - 1)%nat /\ writes_of t = []).
    { intros t0 Hg Hs Hw. exists 0%nat, (EvGet url p :: t0).
      cbn [gets_of sleeps_of writes_of flat_map app length seq map].
      fold (gets_of t0) (sleeps_of t0) (writes_of t0). rewrite Hg, Hs, Hw.
      rewrite <- app_assoc. cbn. repeat split; [f_equal; lia | lia]. }
    cbn [seq map _safe_api_call_loop].
    unfold try_except, bind, do_requests_get.
    destruct (requests_get X url p (requests_sent w)) as [r|e]; cbn.
    + unfold raise_for_status.
      destruct ((400 <=? status_code r) && (status_code r <? 600)); cbn.
      * (* HTTP error status *)
        destruct (Z.of_nat i <? max_retries self - 1) eqn:Hlt; cbn.
        -- unfold sleep.
           destruct (retry_delay self * (Z.of_nat i + 1) <? 0) eqn:Hneg; cbn;
             [apply (Hone [EvLog WARNING _]); reflexivity|].
           destruct (time_sleep X (retry_delay self * (Z.of_nat i + 1))) eqn:Hrefused;
             cbn.
           ++ apply (Hone [EvLog WARNING _]); reflexivity.
           ++ apply Z.ltb_lt in Hlt.
              destruct (IH (S i)
                          {| requests_sent := S (requests_sent w); files := files w;
                             heap := heap w;
                             trace := ((trace w ++ [EvGet url p])
                                       ++ [EvLog WARNING
                                             (MsgApiCallFailed (Z.of_nat i + 1)
                                                (RequestException (HTTPError (status_code r))))])
                                      ++ [EvSleep (retry_delay self * (Z.of_nat i + 1))] |}
                          ltac:(lia))
                as (k & t & Hrun & Hs & Hg & Hk & Hw).
              destruct m as [|m]; [subst n; lia|].
              exists (S k),
                ([EvGet url p;
                  EvLog WARNING (MsgApiCallFailed (Z.of_nat i + 1)
                                   (RequestException (HTTPError (status_code r))));
                  EvSleep (retry_delay self * (Z.of_nat i + 1))] ++ t).
              rewrite Hrun. cbn [requests_sent files heap trace].
              rewrite gets_of_app, sleeps_of_app, writes_of_app, Hs, Hw, length_app, Hg.
              cbn [gets_of sleeps_of writes_of flat_map app length seq map].
              repeat split.
              ** f_equal; [lia|]. rewrite <- !app_assoc. reflexivity.
              ** f_equal. f_equal. lia.
              ** lia.
        -- apply (Hone [EvLog WARNING _]); reflexivity.
      * pose proof (Hone [] eq_refl eq_refl eq_refl) as Hlast.
        rewrite app_nil_r in Hlast. exact Hlast.
    + destruct (is_RequestException e); cbn.
      * destruct (Z.of_nat i <? max_retries self - 1) eqn:Hlt; cbn.
        -- unfold sleep.
           destruct (retry_delay self * (Z.of_nat i + 1) <? 0) eqn:Hneg; cbn;
             [apply (Hone [EvLog WARNING _]); reflexivity|].
           destruct (time_sleep X (retry_delay self * (Z.of_nat i + 1))) eqn:Hrefused;
             cbn.
           ++ apply (Hone [EvLog WARNING _]); reflexivity.
           ++ apply Z.ltb_lt in Hlt.
              destruct (IH (S i)
                          {| requests_sent := S (requests_sent w); files := files w;
                             heap := heap w;
                             trace := ((trace w ++ [EvGet url p])
                                       ++ [EvLog WARNING
                                             (MsgApiCallFailed (Z.of_nat i + 1) e)])
                                      ++ [EvSleep (retry_delay self * (Z.of_nat i + 1))] |}
                          ltac:(lia))
                as (k & t & Hrun & Hs & Hg & Hk & Hw).
              destruct m as [|m]; [subst n; lia|].
              exists (S k),
                ([EvGet url p;
                  EvLog WARNING (MsgApiCallFailed (Z.of_nat i + 1) e);
                  EvSleep (retry_delay self * (Z.of_nat i + 1))] ++ t).
              rewrite Hrun. cbn [requests_sent files heap trace].
              rewrite gets_of_app, sleeps_of_app, writes_of_app, Hs, Hw, length_app, Hg.
              cbn [gets_of sleeps_of writes_of flat_map app length seq map].
              repeat split.
              ** f_equal; [lia|]. rewrite <- !app_assoc. reflexivity.
              ** f_equal. f_equal. lia.
              ** lia.
        -- apply (Hone [EvLog WARNING _]); reflexivity.
      * pose proof (Hone [] eq_refl eq_refl eq_refl) as Hlast.
        rewrite app_nil_r in Hlast. exact Hlast.
Qed.

End SafeApiCallShape.

Lemma failed_attempts_sleeps_all X self url p first m : forall i,
  (i + m < Z.to_nat (max_retries self))%nat ->
  sleeps_of (failed_attempts_events X self url p first i m) =
    map (fun k => retry_delay self * Z.of_nat k) (seq (S i) m).
Proof.
  unfold failed_attempts_events.
  induction m as [|m IH]; intros i Him; [reflexivity|].
  cbn [seq flat_map]. rewrite sleeps_of_app.
  unfold failed_attempt_events at 1. rewrite sleeps_of_app.
  destruct (Z.ltb_spec (Z.of_nat i) (max_retries self - 1)) as [Hlt|Hge]; [|lia].
  rewrite (IH (S i)) by lia. cbn [seq map sleeps_of flat_map app].
  replace (Z.of_nat i + 1) with (Z.of_nat (S i)) by lia. reflexivity.
Qed.

Section SafeApiCallRecovers.
Context (X : externals) (self : BGGDataClient) (url : str) (p : params).
Hypothesis delay_nonneg : 0 <= retry_delay self.

Lemma safe_api_call_loop_recovers (r : response) first m : forall i w rest,
  requests_sent w = (first + i)%nat ->
  (i + m < Z.to_nat (max_retries self))%nat ->
  (forall k, (i <= k < i + m)%nat ->
     attempt_failure (requests_get X url p (first + k)) <> None) ->
  (forall k, (i < k <= i + m)%nat ->
     time_sleep X (retry_delay self * Z.of_nat k) = None) ->
  requests_get X url p (first + (i + m)) = GetResponse r ->
  attempt_failure (GetResponse r) = None ->
  _safe_api_call_loop X self url p (map Z.of_nat (seq i m) ++ Z.of_nat (i + m) :: rest) w
  = (Returns (Some (text r)),
     {| requests_sent := S (first + (i + m)); files := files w; heap := heap w;
        trace := trace w ++ failed_attempts_events X self url p first i m
                 ++ [EvGet url p] |}).
Proof.
  induction m as [|m IH]; intros i w rest Hw Him Hfail Hacc Hget Hok.
  - rewrite Nat.add_0_r in *. cbn [seq map app _safe_api_call_loop].
    unfold try_except, bind, do_requests_get. rewrite Hw, Hget. cbn.
    unfold raise_for_status. cbn [attempt_failure] in Hok.
    destruct ((400 <=? status_code r) && (status_code r <? 600)); [discriminate|].
    reflexivity.
  - cbn [seq map app].
    destruct (attempt_failure (requests_get X url p (first + i))) as [e|] eqn:He;
      [|exfalso; apply (Hfail i); [lia | exact He]].
    rewrite (safe_api_call_loop_cons_fail X self url p _ _ w e);
      [| rewrite Hw; exact He | exact delay_nonneg | lia
       | intros _; replace (Z.of_nat i + 1) with (Z.of_nat (S i)) by lia;
         apply Hacc; lia].
    cbv zeta.
    destruct (Z.ltb_spec (Z.of_nat i) (max_retries self - 1)) as [Hlt|Hge]; [|lia].
    replace (i + S m)%nat with (S i + m)%nat in * by lia.
    rewrite (IH (S i)); cbn [requests_sent files heap trace];
      [| lia | lia | intros k Hk; apply Hfail; lia | intros k Hk; apply Hacc; lia
       | exact Hget | exact Hok].
    unfold failed_attempts_events. cbn [seq flat_map].
    unfold failure_at at 2. rewrite He. cbn [default].
    rewrite <- !app_assoc. reflexivity.
Qed.

End SafeApiCallRecovers.

Lemma total_linear d k :
  2 * total (map (fun j => d * Z.of_nat j) (seq 1 k)) = d * Z.of_nat k * (Z.of_nat k + 1).
Proof.
  induction k as [|k IH]; [cbn; lia|].
  rewrite seq_S, map_app. unfold total in *. rewrite fold_right_app.
  cbn [map fold_right].
  assert (Hshift : forall l a, fold_right Z.add a l = fold_right Z.add 0 l + a).
  { induction l as [|x l IHl]; intros a; cbn; [lia | rewrite IHl; lia]. }
  rewrite Hshift. nia.
Qed.

(** X1: a call of [_safe_api_call] whose first [j] attempts fail and whose
    next attempt is answered with a status below 400 returns the text of
    that answer; it has made [j + 1] requests, logged [j] warnings and slept
    [retry_delay * 1], ..., [retry_delay * j].  The delay is not negative
    and [time.sleep] accepts each of these [j] delays. *)
Theorem safe_api_call_recovers (X : externals) (self : BGGDataClient)
    (url : str) (p : params) (w : world) (j : nat) (r : response) :
  0 <= retry_delay self ->
  sleeps_accepted X self j ->
  (j < Z.to_nat (max_retries self))%nat ->
  (forall k, (k < j)%nat ->
     attempt_failure (requests_get X url p (requests_sent w + k)) <> None) ->
  requests_get X url p (requests_sent w + j) = GetResponse r ->
  attempt_failure (GetResponse r) = None ->
  let t := failed_attempts_events X self url p (requests_sent w) 0 j in
  _safe_api_call X self url p w
    = (Returns (Some (text r)),
       {| requests_sent := S (requests_sent w + j); files := files w; heap := heap w;
          trace := trace w ++ t ++ [EvGet url p] |})
  /\ gets_of (t ++ [EvGet url p]) = repeat (url, p) (S j)
  /\ logs_of t = map (fun k => (WARNING, MsgApiCallFailed (Z.of_nat k + 1)
                                  (failure_at X url p (requests_sent w + k))))
                     (seq 0 j)
  /\ sleeps_of (t ++ [EvGet url p])
     = map (fun k => retry_delay self * Z.of_nat k) (seq 1 j).
Proof.
  intros Hd Hacc Hj Hfail Hget Hok t. split; [|split; [|split]].
  - unfold _safe_api_call, range.
    replace (Z.to_nat (max_retries self))
      with (j + S (Z.to_nat (max_retries self) - j - 1))%nat by lia.
    rewrite seq_app, map_app. cbn [seq map].
    apply (safe_api_call_loop_recovers X self url p Hd r (requests_sent w) j 0%nat w);
      [lia | lia | intros k Hk; apply Hfail; lia | intros k Hk; apply Hacc; lia
       | exact Hget | exact Hok].
  - rewrite gets_of_app. subst t. rewrite failed_attempts_gets.
    cbn [gets_of flat_map app]. rewrite <- repeat_cons. reflexivity.
  - apply failed_attempts_logs.
  - rewrite sleeps_of_app. subst t. rewrite failed_attempts_sleeps_all by lia.
    cbn. apply app_nil_r.
Qed.

Lemma safe_api_call_recovers_witness :
  _safe_api_call
    {| unicode := sample_db;
       requests_get _ _ n :=
         match n with
         | O => GetRaises (RequestException Timeout)
         | _ => GetResponse {| status_code := 200; text := no_match_xml |}
         end;
       ET_fromstring := sample_fromstring; int_of_str := sample_int;
       word_tokenize _ := None; stopwords_english := None;
       write_refused _ := false; time_sleep := sample_sleep |}
    default_client search_url [] initial_world
  = (Returns (Some no_match_xml),
     {| requests_sent := 2; files := ∅; heap := [];
        trace := [ EvGet search_url [];
                   EvLog WARNING (MsgApiCallFailed 1 (RequestException Timeout));
                   EvSleep 2;
                   EvGet search_url [] ] |}).
Proof.
  refine (proj1 (safe_api_call_recovers _ default_client search_url [] initial_world 1
                   {| status_code := 200; text := no_match_xml |} _ _ _ _ _ _)).
  - cbn. lia.
  - intros k Hk. replace k with 1%nat by lia. reflexivity.
  - cbn. lia.
  - intros k Hk. destruct k; [discriminate | lia].
  - reflexivity.
  - reflexivity.
Defined.

(** X2: however the service behaves, [_safe_api_call] makes at most
    [max_retries] requests and touches neither files nor heap; its sleeps are
    [retry_delay * 1], [retry_delay * 2], ... in this order, one fewer than
    its requests, so with a non-negative delay it waits no longer than
    [retry_delay * (max_retries - 1) * max_retries / 2] in all. *)
Theorem safe_api_call_bounded (X : externals) (self : BGGDataClient)
    (url : str) (p : params) (w : world) :
  let n := Z.to_nat (max_retries self) in
  exists k t,
    snd (_safe_api_call X self url p w)
      = {| requests_sent := (requests_sent w + length (gets_of t))%nat;
           files := files w; heap := heap w; trace := trace w ++ t |}
    /\ sleeps_of t = map (fun j => retry_delay self * Z.of_nat j) (seq 1 k)
    /\ length (gets_of t) = match n with O => O | S _ => S k end
    /\ (length (gets_of t) <= n)%nat
    /\ writes_of t = []
    /\ (0 <= retry_delay self ->
        2 * total (sleeps_of t) <= retry_delay self * (Z.of_nat n - 1) * Z.of_nat n).
Proof.
  intros n.
  destruct (safe_api_call_loop_shape X self url p n 0%nat w eq_refl)
    as (k & t & Hrun & Hs & Hg & Hk & Hw).
  exists k, t. split; [exact Hrun|]. split; [exact Hs|]. split; [exact Hg|].
  split; [|split; [exact Hw|]].
  - rewrite Hg. destruct n; lia.
  - intros Hd. rewrite Hs, total_linear. nia.
Qed.

Section SafeApiCallSkips.
Context (X : externals) (self : BGGDataClient) (url : str) (p : params).
Hypothesis delay_nonneg : 0 <= retry_delay self.

(** Failed attempts that are not the last one allowed are skipped one by
    one: the loop goes on with the attempts that remain. *)
Lemma safe_api_call_loop_skip_failures first m : forall i w rest,
  requests_sent w = (first + i)%nat ->
  (i + m < Z.to_nat (max_retries self))%nat ->
  (forall k, (i <= k < i + m)%nat ->
     attempt_failure (requests_get X url p (first + k)) <> None) ->
  (forall k, (i < k <= i + m)%nat ->
     time_sleep X (retry_delay self * Z.of_nat k) = None) ->
  _safe_api_call_loop X self url p (map Z.of_nat (seq i m) ++ rest) w
  = _safe_api_call_loop X self url p rest
      {| requests_sent := (first + (i + m))%nat; files := files w; heap := heap w;
         trace := trace w ++ failed_attempts_events X self url p first i m |}.
Proof.
  induction m as [|m IH]; intros i w rest Hw Him Hfail Hacc.
  - cbn [seq map app]. unfold failed_attempts_events. cbn [seq flat_map].
    rewrite app_nil_r, Nat.add_0_r, <- Hw. destruct w; reflexivity.
  - cbn [seq map app].
    destruct (attempt_failure (requests_get X url p (first + i))) as [e|] eqn:He;
      [|exfalso; apply (Hfail i); [lia | exact He]].
    rewrite (safe_api_call_loop_cons_fail X self url p _ _ w e);
      [| rewrite Hw; exact He | exact delay_nonneg | lia
       | intros _; replace (Z.of_nat i + 1) with (Z.of_nat (S i)) by lia;
         apply Hacc; lia].
    cbv zeta.
    destruct (Z.ltb_spec (Z.of_nat i) (max_retries self - 1)) as [Hlt|Hge]; [|lia].
    rewrite (IH (S i)); cbn [requests_sent files heap trace];
      [| lia | lia | intros k Hk; apply Hfail; lia | intros k Hk; apply Hacc; lia].
    replace (S i + m)%nat with (i + S m)%nat by lia.
    unfold failed_attempts_events. cbn [seq flat_map].
    unfold failure_at at 2. rewrite He. cbn [default].
    rewrite <- !app_assoc. reflexivity.
Qed.

End SafeApiCallSkips.

(** X3: [_safe_api_call] retries on [requests.RequestException] only.  When
    an attempt raises any other exception (after [j] failed attempts that
    were retried, each followed by a sleep that [time.sleep] accepted), the
    call raises it at once: the request is the last one, no warning is
    logged for it and no sleep follows it. *)
Theorem safe_api_call_other_exception (X : externals) (self : BGGDataClient)
    (url : str) (p : params) (w : world) (j : nat) (e : exn) :
  0 <= retry_delay self ->
  sleeps_accepted X self j ->
  (j < Z.to_nat (max_retries self))%nat ->
  (forall k, (k < j)%nat ->
     attempt_failure (requests_get X url p (requests_sent w + k)) <> None) ->
  requests_get X url p (requests_sent w + j) = GetRaises e ->
  is_RequestException e = false ->
  let t := failed_attempts_events X self url p (requests_sent w) 0 j in
  _safe_api_call X self url p w
    = (Raises e,
       {| requests_sent := S (requests_sent w + j); files := files w; heap := heap w;
          trace := trace w ++ t ++ [EvGet url p] |})
  /\ length (logs_of (t ++ [EvGet url p])) = j
  /\ length (sleeps_of (t ++ [EvGet url p])) = j.
Proof.
  intros Hd Hacc Hj Hfail Hget Hother t. split; [|split].
  - unfold _safe_api_call, range.
    replace (Z.to_nat (max_retries self))
      with (j + S (Z.to_nat (max_retries self) - j - 1))%nat by lia.
    rewrite seq_app, map_app.
    rewrite (safe_api_call_loop_skip_failures X self url p Hd (requests_sent w) j 0%nat w);
      [| lia | lia | intros k Hk; apply Hfail; lia | intros k Hk; apply Hacc; lia].
    cbn [seq map _safe_api_call_loop]. unfold try_except, bind, do_requests_get.
    cbn [requests_sent files heap trace]. rewrite Nat.add_0_l, Hget, Hother.
    rewrite <- app_assoc. reflexivity.
  - rewrite logs_of_app. subst t. rewrite failed_attempts_logs.
    cbn. rewrite app_nil_r, length_map, length_seq. reflexivity.
  - rewrite sleeps_of_app. subst t. rewrite failed_attempts_sleeps_all by lia.
    cbn. rewrite app_nil_r, length_map, length_seq. reflexivity.
Qed.

Lemma safe_api_call_other_exception_witness :
  _safe_api_call
    {| unicode := sample_db;
       requests_get _ _ n :=
         match n with
         | O => GetRaises (RequestException Timeout)
         | _ => GetRaises TypeError
         end;
       ET_fromstring := sample_fromstring; int_of_str := sample_int;
       word_tokenize _ := None; stopwords_english := None;
       write_refused _ := false; time_sleep := sample_sleep |}
    default_client search_url [] initial_world
  = (Raises TypeError,
     {| requests_sent := 2; files := ∅; heap := [];
        trace := [ EvGet search_url [];
                   EvLog WARNING (MsgApiCallFailed 1 (RequestException Timeout));
                   EvSleep 2;
                   EvGet search_url [] ] |}).
Proof.
  refine (proj1 (safe_api_call_other_exception _ default_client search_url []
                   initial_world 1 TypeError _ _ _ _ _ _)).
  - cbn. lia.
  - intros k Hk. replace k with 1%nat by lia. reflexivity.
  - cbn. lia.
  - intros k Hk. destruct k; [discriminate | lia].
  - reflexivity.
  - reflexivity.
Defined.

(** X4: a client whose [max_retries] is zero or negative never sends a
    request.  [_safe_api_call] falls off the end of its loop and returns
    [None]; each lookup then fails on parsing [None], logs the [TypeError]
    and returns [None], [None] and the empty list. *)
Theorem no_retries_no_request (X : externals) (self : BGGDataClient) (w : world) :
  max_retries self <= 0 ->
  (forall url p, _safe_api_call X self url p w = (Returns None, w))
  /\ (forall game_name,
        get_game_id X self game_name w
        = (Returns None, add_events w [EvLog ERROR (MsgFailedGameId game_name TypeError)]))
  /\ (forall game_id,
        get_game_info X self game_id w
        = (Returns None, add_events w [EvLog ERROR (MsgFailedGameInfo game_id TypeError)]))
  /\ (forall game_id max_comments,
        get_game_comments X self game_id max_comments w
        = (Returns [], add_events w [EvLog ERROR (MsgFailedComments game_id TypeError)])).
Proof.
  intros Hn.
  assert (Hcall : forall url p, _safe_api_call X self url p w = (Returns None, w)).
  { intros url p. unfold _safe_api_call, range.
    replace (Z.to_nat (max_retries self)) with 0%nat by lia. reflexivity. }
  split; [exact Hcall|]. split; [|split].
  - intros game_name. unfold get_game_id, try_except, bind. rewrite Hcall. reflexivity.
  - intros game_id. unfold get_game_info, try_except, bind. rewrite Hcall. reflexivity.
  - intros game_id max_comments. unfold get_game_comments, try_except, bind.
    rewrite Hcall. reflexivity.
Qed.

Lemma no_retries_no_request_witness :
  get_game_comments sample_service {| max_retries := 0; retry_delay := 2 |} 13 100
    initial_world
  = (Returns [], add_events initial_world [EvLog ERROR (MsgFailedComments 13 TypeError)]).
Proof.
  refine (proj2 (proj2 (proj2
    (no_retries_no_request sample_service {| max_retries := 0; retry_delay := 2 |}
       initial_world _))) 13 100).
  cbn. lia.
Defined.

Section LookupsDown.
Context (X : externals) (self : BGGDataClient).
Hypothesis retries_pos : 1 <= max_retries self.
Hypothesis delay_nonneg : 0 <= retry_delay self.

Let n := Z.to_nat (max_retries self).

Hypothesis sleeps_ok : sleeps_accepted X self (n - 1).

(** The call of a lookup when every attempt fails. *)
Lemma safe_api_call_down url p w :
  every_attempt_fails X self url p w ->
  _safe_api_call X self url p w =
    (Raises (failure_at X url p (requests_sent w + n - 1)),
     {| requests_sent := (requests_sent w + n)%nat; files := files w; heap := heap w;
        trace := trace w ++ failed_attempts_events X self url p (requests_sent w) 0 n |}).
Proof.
  intros Hall. unfold _safe_api_call, range.
  apply (safe_api_call_loop_all_fail X self url p delay_nonneg sleeps_ok n 0%nat
           (requests_sent w) w);
    [reflexivity | subst n; lia | lia | exact Hall].
Qed.

End LookupsDown.

(** X5: when the service is down (every attempt of the call fails) and
    [time.sleep] accepts the delays between the attempts, a lookup does not
    raise: after the [max_retries] requests of [_safe_api_call] it logs one
    error that carries the failure of the last attempt, and [get_game_id]
    and [get_game_info] return [None], [get_game_comments] the empty list. *)
Theorem lookups_when_service_down (X : externals) (self : BGGDataClient) (w : world) :
  1 <= max_retries self ->
  0 <= retry_delay self ->
  sleeps_accepted X self (Z.to_nat (max_retries self) - 1) ->
  let n := Z.to_nat (max_retries self) in
  let after url p msg :=
    {| requests_sent := (requests_sent w + n)%nat; files := files w; heap := heap w;
       trace := trace w ++ failed_attempts_events X self url p (requests_sent w) 0 n
                ++ [EvLog ERROR (msg (failure_at X url p (requests_sent w + n - 1)))] |} in
  (forall game_name,
     every_attempt_fails X self search_url (search_params game_name) w ->
     get_game_id X self game_name w
     = (Returns None, after search_url (search_params game_name) (MsgFailedGameId game_name)))
  /\ (forall game_id,
        every_attempt_fails X self thing_url (info_params game_id) w ->
        get_game_info X self game_id w
        = (Returns None, after thing_url (info_params game_id) (MsgFailedGameInfo game_id)))
  /\ (forall game_id max_comments,
        every_attempt_fails X self thing_url (comments_params game_id max_comments) w ->
        get_game_comments X self game_id max_comments w
        = (Returns [], after thing_url (comments_params game_id max_comments)
                         (MsgFailedComments game_id))).
Proof.
  intros Hn Hd Hacc n after. split; [|split].
  - intros game_name Hall. unfold get_game_id, try_except, bind.
    rewrite (safe_api_call_down X self Hn Hd Hacc) by exact Hall.
    cbn. rewrite <- app_assoc. reflexivity.
  - intros game_id Hall. unfold get_game_info, try_except, bind.
    rewrite (safe_api_call_down X self Hn Hd Hacc) by exact Hall.
    cbn. rewrite <- app_assoc. reflexivity.
  - intros game_id max_comments Hall. unfold get_game_comments, try_except, bind.
    rewrite (safe_api_call_down X self Hn Hd Hacc) by exact Hall.
    cbn. rewrite <- app_assoc. reflexivity.
Qed.

Lemma lookups_when_service_down_witness :
  get_game_id offline default_client (py "Catan") initial_world
  = (Returns None,
     {| requests_sent := 3; files := ∅; heap := [];
        trace :=
          failed_attempts_events offline default_client search_url
            (search_params (py "Catan")) 0 0 3
          ++ [EvLog ERROR (MsgFailedGameId (py "Catan")
                             (RequestException (HTTPError 503)))] |}).
Proof.
  refine (proj1 (lookups_when_service_down offline default_client initial_world _ _ _)
            (py "Catan") _).
  - cbn. lia.
  - cbn. lia.
  - intros j Hj. cbn in Hj. destruct j as [|[|[|j]]]; first [reflexivity | lia].
  - intros k Hk. cbn in Hk.
    destruct k as [|[|[|k]]]; [discriminate | discriminate | discriminate | lia].
Defined.

(* --------------------------------------------------------------------- *)
(** ** How many requests a computation sends *)

Lemma sends_weaken {A} k k' (m : M A) :
  (k <= k')%nat -> sends_at_most k m -> sends_at_most k' m.
Proof. intros Hk H w. specialize (H w). lia. Qed.

Lemma sends_ret {A} (a : A) : sends_at_most 0 (ret a).
Proof. intros w. cbn. lia. Qed.

Lemma sends_raise {A} e : sends_at_most 0 (@raise A e).
Proof. intros w. cbn. lia. Qed.

Lemma sends_log l m : sends_at_most 0 (log l m).
Proof. intros w. cbn. lia. Qed.

Lemma sends_bind {A B} k1 k2 (m : M A) (k : A -> M B) :
  sends_at_most k1 m -> (forall a, sends_at_most k2 (k a)) ->
  sends_at_most (k1 + k2) (bind m k).
Proof.
  intros Hm Hk w. unfold bind. specialize (Hm w).
  destruct (m w) as [[a|e] w1]; cbn in *; [|lia].
  specialize (Hk a w1). lia.
Qed.

Lemma sends_try_except {A} k1 k2 (m : M A) handles (h : exn -> M A) :
  sends_at_most k1 m -> (forall e, sends_at_most k2 (h e)) ->
  sends_at_most (k1 + k2) (try_except m handles h).
Proof.
  intros Hm Hh w. unfold try_except. specialize (Hm w).
  destruct (m w) as [[a|e] w1]; cbn in *; [lia|].
  destruct (handles e); cbn; [|lia].
  specialize (Hh e w1). lia.
Qed.

Lemma sends_safe_api_call X self url p :
  sends_at_most (Z.to_nat (max_retries self)) (_safe_api_call X self url p).
Proof.
  intros w.
  destruct (safe_api_call_loop_shape X self url p (Z.to_nat (max_retries self)) 0%nat w
              eq_refl) as (k & t & Hrun & _ & Hg & Hk & _).
  unfold _safe_api_call, range. rewrite Hrun. cbn [requests_sent]. rewrite Hg.
  destruct (Z.to_nat (max_retries self)); lia.
Qed.

Lemma sends_parse_xml X xml : sends_at_most 0 (_parse_xml X xml).
Proof.
  intros w. unfold _parse_xml, try_except, fromstring.
  destruct xml as [body|]; cbn; [|lia].
  destruct (ET_fromstring X body); cbn; lia.
Qed.

Lemma sends_get_game_id X self game_name :
  sends_at_most (Z.to_nat (max_retries self)) (get_game_id X self game_name).
Proof.
  unfold get_game_id.
  apply (sends_weaken (Z.to_nat (max_retries self) + (0 + 0) + 0)); [lia|].
  apply sends_try_except.
  - apply sends_bind; [apply sends_safe_api_call|]. intros xml.
    apply sends_bind; [apply sends_parse_xml|]. intros root.
    destruct (element_find root (py "item")) as [game|].
    + intros w. unfold bind, int.
      destruct (element_get game (py "id")) as [id|]; cbn; [|lia].
      destruct (int_of_str X id); cbn; lia.
    + intros w. cbn. lia.
  - intros e w. cbn. lia.
Qed.

Lemma sends_get_game_info X self game_id :
  sends_at_most (Z.to_nat (max_retries self)) (get_game_info X self game_id).
Proof.
  unfold get_game_info.
  apply (sends_weaken (Z.to_nat (max_retries self) + (0 + 0) + 0)); [lia|].
  apply sends_try_except.
  - apply sends_bind; [apply sends_safe_api_call|]. intros xml.
    apply sends_bind; [apply sends_parse_xml|]. intros root.
    destruct (element_find root (py "item")) as [item|]; intros w; cbn; lia.
  - intros e w. cbn. lia.
Qed.

Lemma sends_get_game_comments X self game_id max_comments :
  sends_at_most (Z.to_nat (max_retries self))
    (get_game_comments X self game_id max_comments).
Proof.
  unfold get_game_comments.
  apply (sends_weaken (Z.to_nat (max_retries self) + (0 + 0) + 0)); [lia|].
  apply sends_try_except.
  - apply sends_bind; [apply sends_safe_api_call|]. intros xml.
    apply sends_bind; [apply sends_parse_xml|]. intros root.
    apply sends_ret.
  - intros e w. cbn. lia.
Qed.

(** X6: however the service behaves, each of the three lookups sends at most
    [max_retries] requests, and writes no file and no object. *)
Theorem lookups_request_bound (X : externals) (self : BGGDataClient) (w : world) :
  let n := Z.to_nat (max_retries self) in
  (forall game_name,
     let w' := snd (get_game_id X self game_name w) in
     (requests_sent w <= requests_sent w' <= requests_sent w + n)%nat /\ quiet w w')
  /\ (forall game_id,
        let w' := snd (get_game_info X self game_id w) in
        (requests_sent w <= requests_sent w' <= requests_sent w + n)%nat /\ quiet w w')
  /\ (forall game_id max_comments,
        let w' := snd (get_game_comments X self game_id max_comments w) in
        (requests_sent w <= requests_sent w' <= requests_sent w + n)%nat /\ quiet w w').
Proof.
  intros n. split; [|split].
  - intros game_name. split; [apply sends_get_game_id | apply quiet_get_game_id].
  - intros game_id. split; [apply sends_get_game_info|].
    unfold get_game_info. pose proof (quiet_safe_api_call X self).
    pose proof (quiet_parse_xml X). revert w. quiet.
  - intros game_id max_comments.
    split; [apply sends_get_game_comments | apply quiet_get_game_comments].
Qed.

(* --------------------------------------------------------------------- *)
(** ** What the lookups read from a document *)

Lemma subtree_matches_spec t c : forall e,
  In c (subtree_matches t e) <-> (c = e \/ descendant c e) /\ tag_of c = t.
Proof.
  induction e as [tag a x children IH] using element_induction.
  cbn [subtree_matches]. rewrite in_app_iff, in_flat_map. split.
  - intros [Hself | (child & Hchild & Hin)].
    + cbn [tag_of] in Hself. unfold str_eqb in Hself.
      destruct (bool_decide_reflect (tag = t)) as [Ht|Ht]; [|destruct Hself].
      destruct Hself as [<- | []]. split; [left; reflexivity | exact Ht].
    + rewrite List.Forall_forall in IH. apply (IH child Hchild) in Hin as [Hc Ht].
      split; [right | exact Ht].
      destruct Hc as [-> | Hc].
      * apply descendant_child. exact Hchild.
      * apply (descendant_deeper c _ child); assumption.
  - intros [[-> | Hdesc] Ht].
    + left. cbn [tag_of] in *. unfold str_eqb.
      destruct (bool_decide_reflect (tag = t)) as [_|Hne]; [left; reflexivity | contradiction].
    + right. rewrite List.Forall_forall in IH.
      inversion Hdesc as [e Hchild | e child Hchild Hbelow]; subst.
      * exists c. split; [exact Hchild|]. apply (IH c Hchild). auto.
      * exists child. split; [exact Hchild|]. apply (IH child Hchild). auto.
Qed.

Lemma findall_descendants_spec t c e :
  In c (element_findall_descendants e t) <-> descendant c e /\ tag_of c = t.
Proof.
  unfold element_findall_descendants. rewrite in_flat_map. split.
  - intros (child & Hchild & Hin). apply subtree_matches_spec in Hin as [Hc Ht].
    split; [|exact Ht]. destruct Hc as [-> | Hc].
    + apply descendant_child. exact Hchild.
    + apply (descendant_deeper c _ child); assumption.
  - intros [Hdesc Ht]. inversion Hdesc as [e' Hchild | e' child Hchild Hbelow]; subst.
    + exists c. split; [exact Hchild|]. apply subtree_matches_spec. auto.
    + exists child. split; [exact Hchild|]. apply subtree_matches_spec. auto.
Qed.

(** X7: when the request for a game is answered by a well-formed document,
    [get_game_info] describes the first [item] child of the root: [id] is the
    argument of the call (not what the document says), [name] and [year] are
    the [value] attributes of the first [name] and [yearpublished] children,
    [description] is the text of the first [description] child, and a child
    that is missing gives [None] for its field alone.  Without an [item] the
    result is [None], after a warning.  Whatever the service answers, a
    result carries the id that was asked for. *)
Theorem get_game_info_spec (X : externals) (self : BGGDataClient)
    (game_id : Z) (body : str) (root : element) (w w1 : world) :
  _safe_api_call X self thing_url (info_params game_id) w = (Returns (Some body), w1) ->
  ET_fromstring X body = Some root ->
  (forall item, element_find root (py "item") = Some item ->
     exists info,
       get_game_info X self game_id w = (Returns (Some info), w1)
       /\ info_id info = game_id
       /\ (forall c, element_find item (py "name") = Some c ->
             info_name info = element_get c (py "value"))
       /\ (element_find item (py "name") = None -> info_name info = None)
       /\ (forall c, element_find item (py "yearpublished") = Some c ->
             info_year info = element_get c (py "value"))
       /\ (element_find item (py "yearpublished") = None -> info_year info = None)
       /\ (forall c, element_find item (py "description") = Some c ->
             info_description info = text_of c)
       /\ (element_find item (py "description") = None -> info_description info = None))
  /\ (element_find root (py "item") = None ->
      get_game_info X self game_id w
      = (Returns None, add_events w1 [EvLog WARNING (MsgNoInformation game_id)]))
  /\ (forall info w', get_game_info X self game_id w = (Returns (Some info), w') ->
        info_id info = game_id).
Proof.
  intros Hfetch Hok.
  assert (Hrun : get_game_info X self game_id w =
            match element_find root (py "item") with
            | Some item =>
                (Returns (Some
                   {| info_id := game_id;
                      info_name := match element_find item (py "name") with
                                   | Some c => element_get c (py "value")
                                   | None => None
                                   end;
                      info_year := match element_find item (py "yearpublished") with
                                   | Some c => element_get c (py "value")
                                   | None => None
                                   end;
                      info_description := match element_find item (py "description") with
                                          | Some c => text_of c
                                          | None => None
                                          end |}), w1)
            | None => (Returns None, add_events w1 [EvLog WARNING (MsgNoInformation game_id)])
            end).
  { unfold get_game_info, try_except, bind. rewrite Hfetch.
    unfold _parse_xml, try_except, fromstring. rewrite Hok.
    cbv beta iota zeta delta [ret].
    destruct (element_find root (py "item")); reflexivity. }
  split; [|split].
  - intros item Hitem. rewrite Hitem in Hrun. eexists. split; [exact Hrun|].
    cbn [info_id info_name info_year info_description].
    split; [reflexivity|].
    repeat split; try (intros c Hc; rewrite Hc; reflexivity);
      intros Hc; rewrite Hc; reflexivity.
  - intros Hnone. rewrite Hnone in Hrun. exact Hrun.
  - intros info w' Hinfo. rewrite Hrun in Hinfo.
    destruct (element_find root (py "item")); [|discriminate].
    injection Hinfo as <- _. reflexivity.
Qed.

Lemma get_game_info_spec_witness :
  exists info,
    get_game_info sample_service default_client 13 initial_world
    = (Returns (Some info),
       {| requests_sent := 1; files := ∅; heap := [];
          trace := [EvGet thing_url (info_params 13)] |})
    /\ info_id info = 13
    /\ info_name info = None.
Proof.
  destruct (proj1 (get_game_info_spec sample_service default_client 13
                     catan_comments_xml catan_comments_tree initial_world
                     {| requests_sent := 1; files := ∅; heap := [];
                        trace := [EvGet thing_url (info_params 13)] |}
                     eq_refl eq_refl)
              (Element (py "item") [(py "type", py "boardgame"); (py "id", py "13")] None
                 [ Element (py "comments") [(py "page", py "1")] None
                     [ Element (py "comment")
                         [(py "username", py "ann"); (py "rating", py "8");
                          (py "value", py "Great!! (1995)")] None [];
                       Element (py "comment")
                         [(py "username", py "bob"); (py "rating", py "N/A")] None [] ] ])
              eq_refl) as (info & Hrun & Hid & _ & Hname & _).
  exists info. split; [exact Hrun|]. split; [exact Hid|]. apply Hname. reflexivity.
Defined.

Lemma filter_flat_map {A B} (f : B -> bool) (g : A -> list B) (l : list A) :
  List.filter f (flat_map g l) = flat_map (fun a => List.filter f (g a)) l.
Proof.
  induction l as [|a l IH]; [reflexivity|].
  cbn [flat_map]. rewrite List.filter_app, IH. reflexivity.
Qed.

Lemma subtree_matches_preorder t : forall e,
  subtree_matches t e = List.filter (fun c => str_eqb (tag_of c) t) (preorder e).
Proof.
  induction e as [tag a x children IH] using element_induction.
  cbn [subtree_matches preorder List.filter].
  rewrite filter_flat_map.
  assert (Hc : flat_map (subtree_matches t) children
               = flat_map (fun c => List.filter (fun c0 => str_eqb (tag_of c0) t) (preorder c))
                   children).
  { induction IH as [|c cs Hc _ IHcs]; [reflexivity|].
    cbn [flat_map]. rewrite Hc, IHcs. reflexivity. }
  rewrite Hc. destruct (str_eqb (tag_of (Element tag a x children)) t); reflexivity.
Qed.

(** X8: when the request is answered by a well-formed document,
    [get_game_comments] returns one record for every [comment] element below
    the root, at any depth, in document order, however many there are (the
    argument [max_comments] only goes into the request).  A record has the
    keys [username], [rating] and [value], and holds a text under [value]
    exactly when the element has a [value] attribute. *)
Theorem get_game_comments_spec (X : externals) (self : BGGDataClient)
    (game_id max_comments : Z) (body : str) (root : element) (w w1 : world) :
  _safe_api_call X self thing_url (comments_params game_id max_comments) w
    = (Returns (Some body), w1) ->
  ET_fromstring X body = Some root ->
  let found := element_findall_descendants root (py "comment") in
  get_game_comments X self game_id max_comments w
    = (Returns (map comment_of_element found), w1)
  /\ (forall c, In c found <-> descendant c root /\ tag_of c = py "comment")
  /\ found = List.filter (fun c => str_eqb (tag_of c) (py "comment"))
               (flat_map preorder (children_of root))
  /\ (forall c, In c found ->
        exists username rating value,
          comment_of_element c
          = PDict [(py "username", username); (py "rating", rating); (py "value", value)]
          /\ (forall text, value = PStr text <-> element_get c (py "value") = Some text)
          /\ (value = PNone <-> element_get c (py "value") = None)).
Proof.
  intros Hfetch Hok found. split; [|split; [|split]].
  - unfold get_game_comments, try_except, bind. rewrite Hfetch.
    unfold _parse_xml, try_except, fromstring. rewrite Hok. reflexivity.
  - intros c. apply findall_descendants_spec.
  - subst found. unfold element_findall_descendants. rewrite filter_flat_map.
    induction (children_of root) as [|c cs IH]; [reflexivity|].
    cbn [flat_map]. rewrite IH, subtree_matches_preorder. reflexivity.
  - intros c _. unfold comment_of_element. do 3 eexists. split; [reflexivity|].
    destruct (element_get c (py "value")) as [text|]; cbn [pyval_of_option]; split.
    + intros text'. split; intros [= ->]; reflexivity.
    + split; discriminate.
    + intros text'. split; discriminate.
    + split; reflexivity.
Qed.

Lemma get_game_comments_spec_witness :
  get_game_comments sample_service default_client 13 100 initial_world
  = (Returns
       [ PDict [ (py "username", PStr (py "ann")); (py "rating", PStr (py "8"));
                 (py "value", PStr (py "Great!! (1995)")) ];
         PDict [ (py "username", PStr (py "bob")); (py "rating", PStr (py "N/A"));
                 (py "value", PNone) ] ],
     {| requests_sent := 1; files := ∅; heap := [];
        trace := [EvGet thing_url (comments_params 13 100)] |}).
Proof.
  exact (proj1 (get_game_comments_spec sample_service default_client 13 100
                  catan_comments_xml catan_comments_tree initial_world
                  {| requests_sent := 1; files := ∅; heap := [];
                     trace := [EvGet thing_url (comments_params 13 100)] |}
                  eq_refl eq_refl)).
Defined.

(* ===================================================================== *)
(** * Further results: the retriever *)
(* ===================================================================== *)

Section LoadFacts.
Context (self : DataRetriever).

(** What [load_local_dataset] returns depends on the file at its path only. *)
Lemma load_local_dataset_reads_one_file source w w' :
  files w' !! load_path self source = files w !! load_path self source ->
  fst (load_local_dataset self source w') = fst (load_local_dataset self source w).
Proof.
  intros Hsame. unfold load_local_dataset, try_except, bind, read_json.
  rewrite Hsame.
  destruct (files w !! load_path self source) as [[document| |e]|]; cbn;
    try reflexivity.
  - destruct (Json.loads document); reflexivity.
  - destruct (is_FileNotFoundError e); cbn; [reflexivity|].
    destruct (is_JSONDecodeError e); reflexivity.
Qed.

End LoadFacts.

(** X9: [load_local_dataset] answers a dataset that is not there or is not
    JSON with the empty dictionary and an error in the log: "not found" when
    there is no file at the path, "failed to parse" when the file is empty
    or was cut short by a failed save.  It catches nothing else: when the
    path cannot be opened or read as text (a directory, a file that may not
    be read, bytes that are not UTF-8), the exception leaves the call and
    nothing is logged.  Loading changes no file, no object and sends no
    request. *)
Theorem load_local_dataset_unreadable (self : DataRetriever) (source : option str)
    (w : world) :
  let path := load_path self source in
  (files w !! path = None ->
   load_local_dataset self source w
   = (Returns (PDict []), add_events w [EvLog ERROR (MsgDatasetNotFound path)]))
  /\ (files w !! path = Some (FileText []) ->
      load_local_dataset self source w
      = (Returns (PDict []),
         add_events w [EvLog ERROR (MsgFailedParseJSON path JSONDecodeError)]))
  /\ (files w !! path = Some FileTruncated ->
      load_local_dataset self source w
      = (Returns (PDict []),
         add_events w [EvLog ERROR (MsgFailedParseJSON path JSONDecodeError)]))
  /\ (forall e,
        files w !! path = Some (FileUnreadable e) ->
        is_FileNotFoundError e = false ->
        is_JSONDecodeError e = false ->
        load_local_dataset self source w = (Raises e, w))
  /\ (let w' := snd (load_local_dataset self source w) in
      files w' = files w /\ heap w' = heap w /\ requests_sent w' = requests_sent w).
Proof.
  intros path. unfold load_local_dataset, try_except, bind, read_json. fold path.
  split; [|split; [|split; [|split]]].
  - intros ->. reflexivity.
  - intros ->. reflexivity.
  - intros ->. reflexivity.
  - intros e -> He1 He2. cbn. rewrite He1, He2. reflexivity.
  - destruct (files w !! path) as [[document| |e]|]; cbn; auto.
    + destruct (Json.loads document); cbn; auto.
    + destruct (is_FileNotFoundError e) eqn:He1; cbn; auto.
      destruct (is_JSONDecodeError e); cbn; auto.
Qed.

Lemma load_local_dataset_unreadable_witness :
  load_local_dataset sample_retriever None initial_world
  = (Returns (PDict []),
     add_events initial_world
       [EvLog ERROR (MsgDatasetNotFound (py "data/raw_comments/full_comments_dataset.json"))])
  /\ load_local_dataset sample_retriever (Some (py "data")) directory_world
     = (Raises PermissionError, directory_world).
Proof.
  split.
  - exact (proj1 (load_local_dataset_unreadable sample_retriever None initial_world)
             eq_refl).
  - exact (proj1 (proj2 (proj2 (proj2
             (load_local_dataset_unreadable sample_retriever (Some (py "data"))
                directory_world))))
             PermissionError eq_refl eq_refl eq_refl).
Defined.

Section SaveFacts.
Context (X : externals) (self : DataRetriever).

Lemma write_json_other_files path o w other :
  other <> path ->
  files (snd (write_json X path o w)) !! other = files w !! other.
Proof.
  intros Hne. unfold write_json.
  destruct (write_refused X path); [reflexivity|].
  destruct (utf8_encodable (Json.dumps o)); cbn; apply lookup_insert_ne; congruence.
Qed.

Lemma save_full_dataset_other_files dataset w other :
  other <> full_dataset_path self ->
  files (snd (_save_full_dataset X self dataset w)) !! other = files w !! other.
Proof.
  intros Hne.
  pose proof (write_json_other_files (full_dataset_path self) dataset w other Hne) as Hw.
  unfold _save_full_dataset, try_except, bind.
  destruct (write_json X (full_dataset_path self) dataset w) as [[[]|e] w1]; cbn in *;
    [exact Hw|].
  destruct (is_IOError e); exact Hw.
Qed.

Lemma save_game_comments_other_files game_name comments w other :
  other <> game_file X self game_name ->
  files (snd (_save_game_comments X self game_name comments w)) !! other
  = files w !! other.
Proof.
  intros Hne.
  pose proof (write_json_other_files (game_file X self game_name) comments w other Hne)
    as Hw.
  unfold _save_game_comments, try_except, bind.
  destruct (write_json X (game_file X self game_name) comments w) as [[[]|e] w1];
    cbn in *; [exact Hw|].
  destruct (is_IOError e); exact Hw.
Qed.

End SaveFacts.


(* --------------------------------------------------------------------- *)
(** ** Saves that fail *)

Lemma utf8_encodable_escape_char_inv c :
  utf8_encodable (Json.escape_char c) = true -> utf8_encodable [c] = true.
Proof.
  intros H. destruct (N.ltb_spec c 0xD800) as [Hlt|Hge].
  - cbn. destruct (N.leb_spec 55296 c); [lia | reflexivity].
  - unfold Json.escape_char, Json.quote, Json.backslash in H.
    repeat match type of H with
           | context [N.eqb c ?k] => destruct (N.eqb_spec c k); [lia|]
           end.
    destruct (N.ltb_spec c 32); [lia | exact H].
Qed.

Lemma utf8_encodable_escaped_inv s :
  utf8_encodable (flat_map Json.escape_char s) = true -> utf8_encodable s = true.
Proof.
  induction s as [|c s IH]; intros Hs; [reflexivity|].
  cbn [flat_map] in Hs. rewrite JsonFacts.utf8_encodable_app in Hs.
  apply andb_true_iff in Hs as [Hc Hs].
  change (c :: s) with ([c] ++ s). rewrite JsonFacts.utf8_encodable_app.
  rewrite utf8_encodable_escape_char_inv, IH; auto.
Qed.

Lemma utf8_encodable_basestring_inv s :
  utf8_encodable (Json.encode_basestring s) = true -> utf8_encodable s = true.
Proof.
  unfold Json.encode_basestring. rewrite !JsonFacts.utf8_encodable_app.
  intros H. apply andb_true_iff in H as [_ H]. apply andb_true_iff in H as [H _].
  apply utf8_encodable_escaped_inv. exact H.
Qed.

Lemma utf8_encodable_join_inv {A} sep (text : A -> str) (items : list A) :
  utf8_encodable (Json.join sep (map text items)) = true ->
  Forall (fun x => utf8_encodable (text x) = true) items.
Proof.
  induction items as [|x items IH]; intros H; [constructor|].
  destruct items as [|y items].
  - constructor; [exact H | constructor].
  - cbn [map] in H. rewrite JsonFacts.join_cons_cons, !JsonFacts.utf8_encodable_app in H.
    apply andb_true_iff in H as [Hx H]. apply andb_true_iff in H as [_ H].
    constructor; [exact Hx | apply IH; exact H].
Qed.

(** With [ensure_ascii=False] every character of the data reaches the file:
    a document that UTF-8 encodes comes from data that it encodes. *)
Lemma utf8_encodable_encode_inv o : forall level,
  utf8_encodable (Json.encode level o) = true -> encodable o = true.
Proof.
  induction o as [ | s | items IH | items IH ] using pyval_induction; intros level He.
  - reflexivity.
  - apply utf8_encodable_basestring_inv. exact He.
  - destruct items as [|x items]; [reflexivity|].
    change (Json.encode level (PList (x :: items))) with
      ([91%N] ++ Json.newline_indent (S level)
       ++ Json.join (44%N :: Json.newline_indent (S level))
            (map (Json.encode (S level)) (x :: items))
       ++ Json.newline_indent level ++ [93%N]) in He.
    rewrite !JsonFacts.utf8_encodable_app in He.
    apply andb_true_iff in He as [_ He]. apply andb_true_iff in He as [_ He].
    apply andb_true_iff in He as [He _].
    apply utf8_encodable_join_inv in He.
    cbn [encodable]. apply forallb_forall. intros o Ho.
    rewrite List.Forall_forall in IH, He. apply (IH o Ho (S level)). apply He. exact Ho.
  - destruct items as [|kv items]; [reflexivity|].
    change (Json.encode level (PDict (kv :: items))) with
      ([123%N] ++ Json.newline_indent (S level)
       ++ Json.join (44%N :: Json.newline_indent (S level))
            (map (fun kv => Json.encode_basestring (fst kv) ++ py ": "
                            ++ Json.encode (S level) (snd kv)) (kv :: items))
       ++ Json.newline_indent level ++ [125%N]) in He.
    rewrite !JsonFacts.utf8_encodable_app in He.
    apply andb_true_iff in He as [_ He]. apply andb_true_iff in He as [_ He].
    apply andb_true_iff in He as [He _].
    apply utf8_encodable_join_inv in He.
    cbn [encodable]. apply forallb_forall. intros e Hin.
    rewrite List.Forall_forall in IH, He. specialize (He e Hin). cbv beta in He.
    rewrite !JsonFacts.utf8_encodable_app in He.
    apply andb_true_iff in He as [Hk He]. apply andb_true_iff in He as [_ Hv].
    rewrite (utf8_encodable_basestring_inv _ Hk), (IH e Hin (S level) Hv). reflexivity.
Qed.

Lemma write_json_not_encodable X path o w :
  write_refused X path = false ->
  encodable o = false ->
  write_json X path o w
  = (Raises UnicodeEncodeError, set_file (add_events w [EvWrite path]) path FileTruncated).
Proof.
  intros Hw He. unfold write_json. rewrite Hw.
  destruct (utf8_encodable (Json.dumps o)) eqn:Hdoc; [|reflexivity].
  apply utf8_encodable_encode_inv in Hdoc. congruence.
Qed.



(* --------------------------------------------------------------------- *)
(** ** The per-game files *)

Section GameFiles.
Context (X : externals) (self : DataRetriever).

Lemma sanitize_char_not_slash c : sanitize_char (unicode X) c <> 47%N.
Proof.
  unfold sanitize_char. intros H.
  destruct (isalnum (unicode X) c || in_dot_underscore_dash c) eqn:Hkeep;
    [|discriminate].
  subst c. cbn in Hkeep. discriminate.
Qed.

(** The name of a per-game file inside the output directory. *)
Lemma game_file_name_relative game_name :
  exists c rest,
    _sanitize_filename (unicode X) game_name ++ py "_comments.json" = c :: rest
    /\ c <> 47%N.
Proof.
  rewrite sanitize_filename_map. destruct game_name as [|c name]; cbn [map app].
  - eexists _, _. split; [reflexivity | discriminate].
  - eexists _, _. split; [reflexivity | apply sanitize_char_not_slash].
Qed.

(** [os.path.join] with a relative name puts the directory in front, with a
    slash unless the directory is empty or ends with one. *)
Lemma os_path_join_relative a c rest :
  c <> 47%N ->
  os_path_join a (c :: rest)
  = match last a with
    | None => a ++ c :: rest
    | Some l => if (l =? 47)%N then a ++ c :: rest else a ++ [47%N] ++ c :: rest
    end.
Proof.
  intros Hc. unfold os_path_join.
  destruct c as [|p]; [reflexivity|].
  repeat (destruct p as [p|p|]; try reflexivity; try contradiction).
Qed.

Lemma os_path_join_separator a :
  exists sep, forall c rest, c <> 47%N -> os_path_join a (c :: rest) = a ++ sep ++ c :: rest.
Proof.
  destruct (last a) as [l|] eqn:Hlast; [destruct (l =? 47)%N eqn:Hl|].
  - exists []. intros c rest Hc. rewrite os_path_join_relative, Hlast, Hl by exact Hc.
    reflexivity.
  - exists [47%N]. intros c rest Hc. rewrite os_path_join_relative, Hlast, Hl by exact Hc.
    reflexivity.
  - exists []. intros c rest Hc. rewrite os_path_join_relative, Hlast by exact Hc.
    reflexivity.
Qed.

End GameFiles.

Section GameFilePaths.
Context (X : externals) (self : DataRetriever).

Lemma game_file_split game_name :
  exists sep,
    game_file X self game_name
    = output_dir self ++ sep
      ++ _sanitize_filename (unicode X) game_name ++ py "_comments.json"
    /\ full_dataset_path self
       = output_dir self ++ sep ++ py "full_comments_dataset.json"
    /\ (sep = [] \/ sep = [47%N])
    /\ forall other,
         game_file X self other
         = output_dir self ++ sep
           ++ _sanitize_filename (unicode X) other ++ py "_comments.json".
Proof.
  unfold game_file, full_dataset_path.
  assert (Hfull : exists rest, py "full_comments_dataset.json" = 102%N :: rest)
    by (eexists; reflexivity).
  destruct Hfull as (frest & Hfull). rewrite Hfull.
  destruct (last (output_dir self)) as [l|] eqn:Hlast; [destruct (l =? 47)%N eqn:Hl|].
  - exists []. split; [|split; [|split]].
    + destruct (game_file_name_relative X game_name) as (c & rest & -> & Hc).
      rewrite os_path_join_relative, Hlast, Hl by exact Hc. reflexivity.
    + rewrite os_path_join_relative, Hlast, Hl by discriminate. reflexivity.
    + auto.
    + intros other. destruct (game_file_name_relative X other) as (c & rest & -> & Hc).
      rewrite os_path_join_relative, Hlast, Hl by exact Hc. reflexivity.
  - exists [47%N]. split; [|split; [|split]].
    + destruct (game_file_name_relative X game_name) as (c & rest & -> & Hc).
      rewrite os_path_join_relative, Hlast, Hl by exact Hc. reflexivity.
    + rewrite os_path_join_relative, Hlast, Hl by discriminate. reflexivity.
    + auto.
    + intros other. destruct (game_file_name_relative X other) as (c & rest & -> & Hc).
      rewrite os_path_join_relative, Hlast, Hl by exact Hc. reflexivity.
  - exists []. split; [|split; [|split]].
    + destruct (game_file_name_relative X game_name) as (c & rest & -> & Hc).
      rewrite os_path_join_relative, Hlast by exact Hc. reflexivity.
    + rewrite os_path_join_relative, Hlast by discriminate. reflexivity.
    + auto.
    + intros other. destruct (game_file_name_relative X other) as (c & rest & -> & Hc).
      rewrite os_path_join_relative, Hlast by exact Hc. reflexivity.
Qed.

Lemma game_file_nonempty game_name :
  exists c rest, game_file X self game_name = c :: rest.
Proof.
  destruct (game_file_split game_name) as (sep & -> & _).
  destruct (game_file_name_relative X game_name) as (c & rest & -> & _).
  destruct (output_dir self) as [|d out]; [|eexists _, _; reflexivity].
  destruct sep; eexists _, _; reflexivity.
Qed.

Lemma load_path_game_file game_name :
  load_path self (Some (game_file X self game_name)) = game_file X self game_name.
Proof.
  destruct (game_file_nonempty game_name) as (c & rest & ->). reflexivity.
Qed.

Lemma game_file_eq g1 g2 :
  game_file X self g1 = game_file X self g2
  <-> _sanitize_filename (unicode X) g1 = _sanitize_filename (unicode X) g2.
Proof.
  destruct (game_file_split g1) as (sep & H1 & _ & _ & Hother).
  rewrite H1, (Hother g2). split.
  - intros H. apply app_inv_head in H. apply app_inv_head in H.
    apply app_inv_tail in H. exact H.
  - intros ->. reflexivity.
Qed.

Lemma game_file_not_full game_name :
  game_file X self game_name <> full_dataset_path self.
Proof.
  destruct (game_file_split game_name) as (sep & -> & -> & _).
  intros H. apply app_inv_head in H. apply app_inv_head in H.
  change (py "full_comments_dataset.json")
    with (py "full_comment" ++ py "s_dataset.json") in H.
  apply app_inj_2 in H as [_ H]; [discriminate | reflexivity].
Qed.

Lemma save_game_comments_then_load game_name comments w :
  unique_keys comments = true ->
  encodable comments = true ->
  write_refused X (game_file X self game_name) = false ->
  exists w1,
    _save_game_comments X self game_name comments w = (Returns tt, w1)
    /\ files w1 !! game_file X self game_name = Some (FileText (Json.dumps comments))
    /\ load_local_dataset self (Some (game_file X self game_name)) w1
       = (Returns comments,
          add_events w1 [EvLog INFO (MsgLoaded (game_file X self game_name))]).
Proof.
  intros Hu He Hw. eexists. split; [|split].
  - unfold _save_game_comments, try_except, bind.
    rewrite write_json_ok by assumption. reflexivity.
  - cbn. apply lookup_insert_eq.
  - unfold load_local_dataset, try_except, bind, read_json.
    rewrite load_path_game_file. cbn [files add_events set_file].
    rewrite lookup_insert_eq, JsonFacts.loads_dumps by exact Hu. reflexivity.
Qed.

End GameFilePaths.

(** X10: a save opens one path.  However it ends (written, refused, or cut
    short), [_save_full_dataset] leaves what is at every other path as it
    was, and [_save_game_comments] likewise.  The aggregate file and the
    per-game files lie side by side in the output directory under different
    names, so the two kinds of save do not disturb each other: loading the
    file of a game returns after a [_save_full_dataset] what it returned
    before, and loading the aggregate file returns after a
    [_save_game_comments] what it returned before. *)
Theorem saves_touch_one_file (X : externals) (self : DataRetriever) (w : world) :
  (forall dataset other, other <> full_dataset_path self ->
     files (snd (_save_full_dataset X self dataset w)) !! other = files w !! other)
  /\ (forall game_name comments other, other <> game_file X self game_name ->
        files (snd (_save_game_comments X self game_name comments w)) !! other
        = files w !! other)
  /\ (forall dataset game_name,
        fst (load_local_dataset self (Some (game_file X self game_name))
               (snd (_save_full_dataset X self dataset w)))
        = fst (load_local_dataset self (Some (game_file X self game_name)) w))
  /\ (forall game_name comments source,
        load_path self source = full_dataset_path self ->
        fst (load_local_dataset self source
               (snd (_save_game_comments X self game_name comments w)))
        = fst (load_local_dataset self source w)).
Proof.
  split; [|split; [|split]].
  - intros dataset other. apply save_full_dataset_other_files.
  - intros game_name comments other. apply save_game_comments_other_files.
  - intros dataset game_name. apply load_local_dataset_reads_one_file.
    apply save_full_dataset_other_files.
    rewrite load_path_game_file. apply game_file_not_full.
  - intros game_name comments source Hpath. apply load_local_dataset_reads_one_file.
    apply save_game_comments_other_files.
    rewrite Hpath. intros Heq. exact (game_file_not_full X self game_name (eq_sym Heq)).
Qed.

Lemma saves_touch_one_file_witness :
  fst (load_local_dataset sample_retriever None
         (snd (_save_game_comments sample_service sample_retriever (py "Catan")
                 (PList [PStr (py "fun")])
                 (snd (_save_full_dataset sample_service sample_retriever sample_dataset
                         initial_world)))))
  = Returns sample_dataset.
Proof.
  rewrite (proj2 (proj2 (proj2
             (saves_touch_one_file sample_service sample_retriever
                (snd (_save_full_dataset sample_service sample_retriever sample_dataset
                        initial_world)))))
             (py "Catan") (PList [PStr (py "fun")]) None eq_refl).
  vm_compute. reflexivity.
Defined.



(** X13: a sanitised name is made of alphanumeric characters and ['.'],
    ['_'], ['-'] only; it holds no slash, no backslash and no NUL, so it
    names a file and not a path.  Sanitising is idempotent, and a name made
    of those characters is left as it is. *)
Theorem sanitize_filename_safe (db : unicode_db) (name : str) :
  Forall (fun c => isalnum db c || in_dot_underscore_dash c = true)
         (_sanitize_filename db name)
  /\ ~ In 47%N (_sanitize_filename db name)
  /\ ~ In 92%N (_sanitize_filename db name)
  /\ ~ In 0%N (_sanitize_filename db name)
  /\ _sanitize_filename db (_sanitize_filename db name) = _sanitize_filename db name
  /\ (Forall (fun c => isalnum db c || in_dot_underscore_dash c = true) name ->
      _sanitize_filename db name = name).
Proof.
  assert (Hsafe : Forall (fun c => isalnum db c || in_dot_underscore_dash c = true)
                    (_sanitize_filename db name)).
  { rewrite sanitize_filename_map. apply List.Forall_forall. intros c Hin.
    apply in_map_iff in Hin as (c0 & <- & _). unfold sanitize_char.
    destruct (isalnum db c0 || in_dot_underscore_dash c0) eqn:Hk; [exact Hk|].
    apply orb_true_iff. right. reflexivity. }
  assert (Hfixed : forall s,
            Forall (fun c => isalnum db c || in_dot_underscore_dash c = true) s ->
            _sanitize_filename db s = s).
  { intros s Hs. rewrite sanitize_filename_map.
    induction Hs as [|c s Hc _ IH]; [reflexivity|].
    cbn [map]. rewrite IH. unfold sanitize_char. rewrite Hc. reflexivity. }
  assert (Hnot : forall c, isalnum db c || in_dot_underscore_dash c = false ->
            ~ In c (_sanitize_filename db name)).
  { intros c Hc Hin. rewrite List.Forall_forall in Hsafe.
    specialize (Hsafe c Hin). cbv beta in Hsafe. congruence. }
  split; [exact Hsafe|]. split; [|split; [|split; [|split]]].
  - apply Hnot. reflexivity.
  - apply Hnot. reflexivity.
  - apply Hnot. reflexivity.
  - apply Hfixed. exact Hsafe.
  - apply Hfixed.
Qed.

(** X14: the file of a game lies directly in the output directory: its path
    is the output directory, then one slash unless the directory is empty or
    already ends with a slash, then a file name without any slash, which is
    the sanitised name of the game followed by ["_comments.json"].  The
    aggregate file lies beside it, and the two paths always differ, so no
    game, whatever its name, overwrites the full dataset. *)
Theorem game_file_in_output_dir (X : externals) (self : DataRetriever)
    (game_name : str) :
  let base := _sanitize_filename (unicode X) game_name ++ py "_comments.json" in
  let slash :=
    match last (output_dir self) with
    | None => []
    | Some c => if (c =? 47)%N then [] else [47%N]
    end in
  game_file X self game_name = output_dir self ++ slash ++ base
  /\ full_dataset_path self
     = output_dir self ++ slash ++ py "full_comments_dataset.json"
  /\ ~ In 47%N base
  /\ base <> []
  /\ game_file X self game_name <> full_dataset_path self.
Proof.
  intros base slash.
  assert (Hbase : ~ In 47%N base).
  { subst base. rewrite in_app_iff. intros [Hin | Hin].
    - rewrite sanitize_filename_map in Hin. apply in_map_iff in Hin as (c & Hc & _).
      exact (sanitize_char_not_slash X c Hc).
    - vm_compute in Hin. intuition discriminate. }
  split; [|split; [|split; [|split]]].
  - unfold game_file. fold base.
    destruct (game_file_name_relative X game_name) as (c & rest & Heq & Hc).
    fold base in Heq. rewrite Heq, os_path_join_relative by exact Hc.
    subst slash. destruct (last (output_dir self)) as [l|]; [|reflexivity].
    destruct (l =? 47)%N; reflexivity.
  - unfold full_dataset_path.
    change (py "full_comments_dataset.json")
      with (102%N :: py "ull_comments_dataset.json").
    rewrite os_path_join_relative by discriminate.
    subst slash. destruct (last (output_dir self)) as [l|]; [|reflexivity].
    destruct (l =? 47)%N; reflexivity.
  - exact Hbase.
  - destruct (game_file_name_relative X game_name) as (c & rest & Heq & _).
    fold base in Heq. rewrite Heq. discriminate.
  - apply game_file_not_full.
Qed.

Lemma game_file_in_output_dir_witness :
  game_file sample_service sample_retriever (py "On Mars")
  = py "data/raw_comments" ++ py "/" ++ py "On_Mars_comments.json"
  /\ game_file sample_service (DataRetriever_init (py "out/") None) (py "On Mars")
     = py "out/" ++ py "On_Mars_comments.json".
Proof.
  split.
  - exact (proj1 (game_file_in_output_dir sample_service sample_retriever (py "On Mars"))).
  - exact (proj1 (game_file_in_output_dir sample_service
                    (DataRetriever_init (py "out/") None) (py "On Mars"))).
Defined.



(* --------------------------------------------------------------------- *)
(** ** A whole retrieval *)

Section RetrieveBounds.
Context (X : externals) (self : DataRetriever) (max_comments : Z).

Let n := Z.to_nat (max_retries (bgg_client self)).

Lemma sends_write_json path o : sends_at_most 0 (write_json X path o).
Proof.
  intros w. unfold write_json. destruct (write_refused X path); cbn; [lia|].
  destruct (utf8_encodable (Json.dumps o)); cbn; lia.
Qed.

Lemma sends_save_game_comments game_name comments :
  sends_at_most 0 (_save_game_comments X self game_name comments).
Proof.
  unfold _save_game_comments. apply (sends_try_except 0 0).
  - apply (sends_bind 0 0); [apply sends_write_json | intros; apply sends_log].
  - intros e. apply sends_log.
Qed.

Lemma sends_save_full_dataset dataset :
  sends_at_most 0 (_save_full_dataset X self dataset).
Proof.
  unfold _save_full_dataset. apply (sends_try_except 0 0).
  - apply (sends_bind 0 0); [apply sends_write_json | intros; apply sends_log].
  - intros e. apply sends_log.
Qed.

Lemma sends_retrieve_comments_step all_comments game_name :
  sends_at_most (2 * n) (retrieve_comments_step X self max_comments all_comments game_name).
Proof.
  unfold retrieve_comments_step.
  apply (sends_weaken (n + (n + 0) + 0)); [lia|].
  apply sends_try_except.
  - apply sends_bind; [apply sends_get_game_id|]. intros [game_id|].
    + apply sends_bind; [apply sends_get_game_comments|]. intros comments.
      apply (sends_try_except 0 0).
      * apply (sends_bind 0 0); [apply sends_log|]. intros _.
        apply (sends_bind 0 0); [apply sends_save_game_comments|]. intros _.
        apply sends_ret.
      * intros e. apply (sends_bind 0 0); [apply sends_log | intros; apply sends_ret].
    + apply (sends_weaken 0); [lia|].
      apply (sends_bind 0 0); [apply sends_log | intros; apply sends_ret].
  - intros e. apply (sends_bind 0 0); [apply sends_log | intros; apply sends_ret].
Qed.

Lemma sends_retrieve_comments_loop games : forall all_comments,
  sends_at_most (2 * n * length games)
    (retrieve_comments_loop X self max_comments games all_comments).
Proof.
  induction games as [|game_name games IH]; intros all_comments.
  - apply (sends_weaken 0); [lia | apply sends_ret].
  - cbn [retrieve_comments_loop length].
    apply (sends_weaken (2 * n + 2 * n * length games)); [lia|].
    apply sends_bind; [apply sends_retrieve_comments_step | intros; apply IH].
Qed.

(** One turn of the loop swallows every exception. *)
Lemma retrieve_comments_step_returns all_comments game_name w :
  exists r w', retrieve_comments_step X self max_comments all_comments game_name w
               = (Returns r, w').
Proof. apply try_except_Exception_returns. Qed.

Lemma retrieve_comments_loop_returns games : forall all_comments w,
  exists r w', retrieve_comments_loop X self max_comments games all_comments w
               = (Returns r, w').
Proof.
  induction games as [|game_name games IH]; intros all_comments w.
  - eexists _, _. reflexivity.
  - cbn [retrieve_comments_loop]. unfold bind.
    destruct (retrieve_comments_step_returns all_comments game_name w) as (r & w' & ->).
    apply IH.
Qed.

End RetrieveBounds.

(** X16: [retrieve_comments] sends at most two times [max_retries] requests
    for every name it is given, whatever the service answers; with the
    client a [DataRetriever] creates, that is at most six per name. *)
Theorem retrieve_comments_request_bound (X : externals) (self : DataRetriever)
    (games : list str) (max_comments : Z) (w : world) :
  let n := Z.to_nat (max_retries (bgg_client self)) in
  let w' := snd (retrieve_comments X self games max_comments w) in
  (requests_sent w <= requests_sent w' <= requests_sent w + 2 * n * length games)%nat
  /\ (bgg_client self = default_client ->
      (requests_sent w' <= requests_sent w + 6 * length games)%nat).
Proof.
  intros n w'.
  assert (Hb : sends_at_most (2 * n * length games)
                 (retrieve_comments X self games max_comments)).
  { unfold retrieve_comments.
    apply (sends_weaken (2 * n * length games + (0 + 0))); [lia|].
    apply sends_bind; [apply sends_retrieve_comments_loop|]. intros all_comments.
    apply sends_bind; [apply sends_save_full_dataset | intros; apply sends_ret]. }
  split; [apply Hb|].
  intros Hclient. specialize (Hb w). fold w' in Hb.
  subst n. rewrite Hclient in Hb. cbn in Hb. lia.
Qed.

Lemma retrieve_comments_request_bound_witness :
  (requests_sent
     (snd (retrieve_comments offline sample_retriever [py "Gloomhaven"; py "On Mars"]
             500 initial_world))
   <= 12)%nat.
Proof.
  exact (proj2 (retrieve_comments_request_bound offline sample_retriever
                  [py "Gloomhaven"; py "On Mars"] 500 initial_world) eq_refl).
Defined.

(** X17: the loop of [retrieve_comments] swallows every exception, so the
    only statement that can fail is the final save.  The call returns the
    collected dictionary when the aggregate file cannot be opened (the
    [IOError] is logged) or when the data encodes; otherwise, when a name or
    a comment holds text UTF-8 cannot encode, it raises [UnicodeEncodeError],
    the collected dictionary is lost and the aggregate file is left cut
    short.  No other exception leaves [retrieve_comments]. *)
Theorem retrieve_comments_outcome (X : externals) (self : DataRetriever)
    (games : list str) (max_comments : Z) (w : world) :
  exists dataset w1,
    retrieve_comments_loop X self max_comments games [] w = (Returns dataset, w1)
    /\ (write_refused X (full_dataset_path self) = true
        \/ encodable (PDict dataset) = true ->
        exists w2, retrieve_comments X self games max_comments w = (Returns dataset, w2))
    /\ (write_refused X (full_dataset_path self) = false ->
        encodable (PDict dataset) = false ->
        exists w2,
          retrieve_comments X self games max_comments w = (Raises UnicodeEncodeError, w2)
          /\ files w2 !! full_dataset_path self = Some FileTruncated)
    /\ (forall e, fst (retrieve_comments X self games max_comments w) = Raises e ->
          e = UnicodeEncodeError).
Proof.
  destruct (retrieve_comments_loop_returns X self max_comments games [] w)
    as (dataset & w1 & Hloop).
  exists dataset, w1. split; [exact Hloop|].
  unfold retrieve_comments, bind. rewrite Hloop.
  unfold _save_full_dataset, try_except, bind.
  destruct (write_refused X (full_dataset_path self)) eqn:Hw.
  - rewrite write_json_refused by exact Hw. cbn.
    split; [eauto|]. split; [discriminate|]. discriminate.
  - destruct (encodable (PDict dataset)) eqn:He.
    + rewrite write_json_ok by assumption. cbn.
      split; [eauto|]. split; [discriminate|]. discriminate.
    + rewrite write_json_not_encodable by assumption. cbn.
      split; [intros [? | ?]; discriminate|]. split.
      * intros _ _. eexists. split; [reflexivity|]. cbn. apply lookup_insert_eq.
      * intros e [= <-]. reflexivity.
Qed.

Lemma retrieve_comments_outcome_witness :
  exists e,
    fst (retrieve_comments surrogate_service sample_retriever [py "Catan"] 500
           initial_world) = Raises e
    /\ e = UnicodeEncodeError.
Proof.
  destruct (retrieve_comments_outcome surrogate_service sample_retriever [py "Catan"] 500
              initial_world) as (dataset & w1 & _ & _ & _ & Honly).
  exists UnicodeEncodeError. split; [vm_compute; reflexivity|].
  apply Honly. vm_compute. reflexivity.
Defined.

(* ===================================================================== *)
(** * Further results: the preprocessor *)
(* ===================================================================== *)

Section CleanByCharacter.
Context (db : unicode_db).

(** The context of a character matters for the capital sigma only, and
    both small sigmas are deleted. *)
Lemma clean_lower_char before c after :
  List.filter letter_or_space (lower_char db before c after) = clean_char db c.
Proof.
  unfold clean_char, lower_char.
  destruct (c <? 128)%N; [reflexivity|].
  destruct (c =? 931)%N; [|reflexivity].
  destruct (final_sigma db before after), (final_sigma db [] []); reflexivity.
Qed.

Lemma clean_lower_from s : forall before,
  List.filter letter_or_space (lower_from db before s) = flat_map (clean_char db) s.
Proof.
  induction s as [|c s IH]; intros before; [reflexivity|].
  cbn [lower_from flat_map]. rewrite List.filter_app, clean_lower_char, IH. reflexivity.
Qed.

Lemma clean_text_flat_map s : clean_text db s = flat_map (clean_char db) s.
Proof. rewrite clean_text_unfold. apply clean_lower_from. Qed.

End CleanByCharacter.

(** X18: [clean_text] works character by character: what it makes of a
    character does not depend on the characters around it.  So it
    distributes over concatenation, and cleaning the comments one by one or
    joined gives the same text.  An ASCII letter gives its small letter, an
    ASCII blank itself, every other ASCII character nothing. *)
Theorem clean_text_concat (db : unicode_db) :
  (forall s, clean_text db s = flat_map (clean_char db) s)
  /\ (forall a b, clean_text db (a ++ b) = clean_text db a ++ clean_text db b)
  /\ (forall parts, clean_text db (concat parts) = concat (map (clean_text db) parts))
  /\ (forall c, (c < 128)%N ->
        clean_char db c
        = if is_ascii_letter c then [ascii_lower c]
          else if is_space c then [c] else []).
Proof.
  split; [apply clean_text_flat_map|]. split; [|split].
  - intros a b. rewrite !clean_text_flat_map. apply flat_map_app.
  - induction parts as [|p parts IH]; [reflexivity|].
    cbn [concat map]. rewrite <- IH, !clean_text_flat_map. apply flat_map_app.
  - intros c Hc. unfold clean_char, lower_char.
    destruct (N.ltb_spec c 128) as [_|Hge]; [|lia].
    cbn [List.filter]. unfold ascii_lower.
    destruct (is_ascii_upper c) eqn:Hu.
    + unfold is_ascii_letter. rewrite Hu, orb_true_r.
      unfold is_ascii_upper in Hu. apply andb_true_iff in Hu as [H1 H2].
      apply N.leb_le in H1, H2.
      unfold letter_or_space, is_ascii_letter, is_ascii_lower.
      replace (97 <=? c + 32)%N with true by (symmetry; apply N.leb_le; lia).
      replace (c + 32 <=? 122)%N with true by (symmetry; apply N.leb_le; lia).
      reflexivity.
    + unfold letter_or_space.
      destruct (is_ascii_letter c); cbn [orb]; [reflexivity|].
      destruct (is_space c); reflexivity.
Qed.

Lemma clean_text_concat_witness :
  clean_text sample_db (py "Great!! " ++ py "(1995) Fun") = py "great " ++ py " fun"
  /\ clean_char sample_db 71%N = [103%N].
Proof.
  split.
  - rewrite (proj1 (proj2 (clean_text_concat sample_db))). reflexivity.
  - rewrite (proj2 (proj2 (proj2 (clean_text_concat sample_db))) 71%N); [reflexivity|].
    reflexivity.
Defined.

Lemma filter_subsequence (keep : str -> bool) (all : list str) :
  subsequence (List.filter keep all) all.
Proof.
  induction all as [|a all IH]; [exact I|].
  cbn [List.filter]. destruct (keep a).
  - cbn [subsequence]. left. split; [reflexivity | exact IH].
  - destruct (List.filter keep all) as [|t tokens] eqn:Hf; [exact I|].
    cbn [subsequence]. right. exact IH.
Qed.

Lemma is_stop_word_In stop_words token :
  is_stop_word stop_words token = true <-> In token stop_words.
Proof.
  unfold is_stop_word. rewrite existsb_exists. split.
  - intros (x & Hin & Heq). unfold str_eqb in Heq.
    apply bool_decide_eq_true in Heq. subst x. exact Hin.
  - intros Hin. exists token. split; [exact Hin|].
    unfold str_eqb. apply bool_decide_eq_true. reflexivity.
Qed.

Lemma occurrences_filter (keep : str -> bool) (token : str) (all : list str) :
  keep token = true ->
  occurrences token (List.filter keep all) = occurrences token all.
Proof.
  intros Hkeep. unfold occurrences.
  induction all as [|a all IH]; [reflexivity|].
  cbn [List.filter]. destruct (keep a) eqn:Ha; cbn [List.filter].
  - destruct (str_eqb token a); cbn [length]; rewrite IH; reflexivity.
  - unfold str_eqb at 2. destruct (bool_decide_reflect (token = a)) as [->|_];
      [congruence | exact IH].
Qed.

(** X19: [tokenize] never raises and changes nothing but the log.  When the
    tokenizer and the stop word list are available, the result is exactly
    the tokenizer's output without the stop words: a token that is a stop
    word does not occur in it, every other token occurs as often as in the
    tokenizer's output, and the tokens that remain are in their order;
    nothing is logged.  When NLTK fails (a missing resource), the error is
    logged and the result is the empty list, which a caller cannot tell from
    a text without tokens. *)
Theorem tokenize_spec (X : externals) (s : str) (w : world) :
  (forall all stop_words,
     word_tokenize X s = Some all ->
     stopwords_english X = Some stop_words ->
     exists tokens,
       tokenize X (VStr s) w = (Returns tokens, w)
       /\ tokens = List.filter (fun token => negb (is_stop_word stop_words token)) all
       /\ (forall token, is_stop_word stop_words token = true <-> In token stop_words)
       /\ subsequence tokens all
       /\ (forall token, In token stop_words -> occurrences token tokens = 0%nat)
       /\ (forall token, ~ In token stop_words ->
             occurrences token tokens = occurrences token all)
       /\ (forall token, In token tokens <-> In token all /\ ~ In token stop_words))
  /\ (word_tokenize X s = None \/ stopwords_english X = None ->
      tokenize X (VStr s) w
      = (Returns [], add_events w [EvLog ERROR (MsgTokenizationError LookupError)]))
  /\ (exists tokens t,
        tokenize X (VStr s) w = (Returns tokens, add_events w t)
        /\ gets_of t = [] /\ writes_of t = [] /\ sleeps_of t = []).
Proof.
  unfold tokenize, try_except, bind. split; [|split].
  - intros all stop_words -> ->. cbn. eexists. split; [reflexivity|].
    assert (Hmem : forall token,
              In token (List.filter (fun t => negb (is_stop_word stop_words t)) all)
              <-> In token all /\ ~ In token stop_words).
    { intros token. rewrite filter_In, negb_true_iff.
      rewrite <- (is_stop_word_In stop_words token).
      destruct (is_stop_word stop_words token); intuition congruence. }
    split; [reflexivity|]. split; [apply is_stop_word_In|].
    split; [apply filter_subsequence|]. split; [|split; [|exact Hmem]].
    + intros token Hstop. unfold occurrences.
      destruct (List.filter (str_eqb token) _) as [|t rest] eqn:Hf; [reflexivity|].
      assert (Hin : In t (List.filter (str_eqb token)
                            (List.filter (fun t => negb (is_stop_word stop_words t)) all)))
        by (rewrite Hf; left; reflexivity).
      apply filter_In in Hin as [Hin Heq]. unfold str_eqb in Heq.
      apply bool_decide_eq_true in Heq. subst t.
      apply Hmem in Hin as [_ Hnot]. contradiction.
    + intros token Hnot. apply occurrences_filter.
      apply negb_true_iff. destruct (is_stop_word stop_words token) eqn:Hs; [|reflexivity].
      apply is_stop_word_In in Hs. contradiction.
  - intros [Hnone | Hnone].
    + rewrite Hnone. reflexivity.
    + rewrite Hnone. destruct (word_tokenize X s); reflexivity.
  - destruct (word_tokenize X s) as [all|]; cbn.
    + destruct (stopwords_english X) as [stop_words|]; cbn.
      * exists (List.filter (fun token => negb (is_stop_word stop_words token)) all), [].
        unfold add_events. rewrite app_nil_r. destruct w; auto.
      * eexists [], [_]. split; [reflexivity|]. auto.
    + eexists [], [_]. split; [reflexivity|]. auto.
Qed.

Lemma tokenize_spec_witness :
  tokenize sample_nltk (VStr (py "the game is a great game")) initial_world
  = (Returns [py "game"; py "great"; py "game"], initial_world)
  /\ tokenize sample_service (VStr (py "the game")) initial_world
     = (Returns [], add_events initial_world
                      [EvLog ERROR (MsgTokenizationError LookupError)]).
Proof.
  split.
  - destruct (proj1 (tokenize_spec sample_nltk (py "the game is a great game")
                       initial_world) _ _ eq_refl eq_refl) as (tokens & Hrun & _).
    rewrite Hrun. vm_compute in Hrun. injection Hrun as <-. reflexivity.
  - apply (proj1 (proj2 (tokenize_spec sample_service (py "the game") initial_world))).
    left. reflexivity.
Defined.

(* --------------------------------------------------------------------- *)
(** ** A comment without text *)

Lemma bind_assoc {A B C} (m : M A) (k : A -> M B) (k' : B -> M C) w :
  bind (bind m k) k' w = bind m (fun a => bind (k a) k') w.
Proof. unfold bind. destruct (m w) as [[a|e] w1]; reflexivity. Qed.

Lemma bind_ext {A B} (m : M A) (k k' : A -> M B) w :
  (forall a w', k a w' = k' a w') -> bind m k w = bind m k' w.
Proof. intros H. unfold bind. destruct (m w) as [[a|e] w1]; [apply H | reflexivity]. Qed.

Lemma preprocess_comments_app X a : forall b target w,
  preprocess_comments X (a ++ b) target w
  = (preprocess_comments X a target ;;; preprocess_comments X b target) w.
Proof.
  induction a as [|comment a IH]; intros b target w; [reflexivity|].
  cbn [app preprocess_comments].
  do 9 (rewrite bind_assoc; apply bind_ext; intros ? ?).
  apply IH.
Qed.

Lemma preprocess_games_app X a : forall b target w,
  preprocess_games X (a ++ b) target w
  = (preprocess_games X a target ;;; preprocess_games X b target) w.
Proof.
  induction a as [|[game comments] a IH]; intros b target w; [reflexivity|].
  cbn [app preprocess_games].
  do 4 (rewrite bind_assoc; apply bind_ext; intros ? ?).
  apply IH.
Qed.

Lemma entries_dict_get_none A h items data k :
  entries_represent A h items data -> dict_get data k = None -> dict_get items k = None.
Proof.
  induction 1 as [|[k1 v1] [k2 d2] items data [Hk Hr] H IH]; cbn [dict_get];
    [reflexivity|].
  cbn [fst snd] in *. subst k2. destruct (str_eqb k1 k); [discriminate | exact IH].
Qed.

(** The loop body at a comment without text. *)
Lemma preprocess_comment_fails X A comment data rest target w :
  represents_within A (heap w) comment data ->
  ~ has_text data ->
  exists w', preprocess_comments X (comment :: rest) target w
             = (Raises (text_error data), w').
Proof.
  intros Hcomment Hnot. cbn [preprocess_comments].
  inversion Hcomment as [ | s | a items ds Ha Hobj Hitems | a items fields Ha Hobj Hentries ];
    subst.
  - eexists. reflexivity.
  - eexists. reflexivity.
  - rewrite (bind_returns _ _ _ _ _ (py_copy_run a _ w Hobj)).
    assert (Hobj' : heap (set_heap w (heap w ++ [OList items])) !! a = Some (OList items)).
    { cbn [heap set_heap]. rewrite lookup_app_l by (eapply lookup_lt_Some; exact Hobj).
      exact Hobj. }
    unfold bind at 1. unfold py_getitem, bind, deref. rewrite Hobj'.
    eexists. reflexivity.
  - rewrite (bind_returns _ _ _ _ _ (py_copy_run a _ w Hobj)).
    assert (Hobj' : heap (set_heap w (heap w ++ [ODict items])) !! a = Some (ODict items)).
    { cbn [heap set_heap]. rewrite lookup_app_l by (eapply lookup_lt_Some; exact Hobj).
      exact Hobj. }
    cbn [text_error].
    destruct (dict_get fields (py "value")) as [d|] eqn:Hvalue.
    + destruct (entries_dict_get _ _ _ _ _ _ Hentries Hvalue) as (v & Hget & Hv).
      rewrite (bind_returns _ _ _ _ _ (py_getitem_run a items _ v _ Hobj' Hget)).
      inversion Hv; subst.
      * eexists. reflexivity.
      * exfalso. apply Hnot. eexists _, _. split; [reflexivity | exact Hvalue].
      * eexists. reflexivity.
      * eexists. reflexivity.
    + pose proof (entries_dict_get_none _ _ _ _ _ Hentries Hvalue) as Hget.
      unfold bind at 1. unfold py_getitem, bind, deref. rewrite Hobj', Hget.
      eexists. reflexivity.
Qed.

(** The run up to the first comment without text. *)
Lemma preprocess_dataset_first_bad (X : externals) (dataset : val)
    (data good_games rest_games : list (str * pyval)) (game : str)
    (good rest : list pyval) (bad : pyval) (w : world) :
  represents (heap w) dataset (PDict data) ->
  data = good_games ++ (game, PList (good ++ bad :: rest)) :: rest_games ->
  comments_have_text good_games ->
  Forall has_text good ->
  ~ has_text bad ->
  exists w', preprocess_dataset X dataset w = (Raises (text_error bad), w').
Proof.
  intros Hdataset -> Hgames Hgood Hbad.
  inversion Hdataset as [ | | | a items ? _ Hobj Hentries ]; subst.
  assert (Ha_lt : (a < length (heap w))%nat) by (eapply lookup_lt_Some; exact Hobj).
  set (n0 := length (heap w)) in *.
  unfold preprocess_dataset.
  unfold alloc at 1. unfold bind at 1. fold n0.
  set (w1 := set_heap w (heap w ++ [ODict []])).
  assert (Hold1 : forall b, (b < n0)%nat -> heap w1 !! b = heap w !! b)
    by (intros b Hb; cbn; apply lookup_app_l; exact Hb).
  rewrite (bind_returns _ _ _ _ _ (py_items_run a items w1 ltac:(rewrite Hold1; assumption))).
  apply Forall2_app_inv_r in Hentries
    as (items_good & items_tail & Hentries_good & Hentries_tail & ->).
  inversion Hentries_tail as [|[game' cv] ? items_rest ? [Hkey Hcv] _]; subst.
  cbn [fst snd] in *. subst game'.
  (* the games before *)
  destruct (preprocess_games_run X n0 n0 (le_n _) items_good good_games) with
    (done := @nil (str * val)) (done_data := @nil (str * pyval)) (w := w1)
    as (w2 & final & Hrun2 & Hlen2 & Hold2 & Hpd2 & _).
  { clear -Hentries_good Hgames. unfold comments_have_text in Hgames.
    induction Hentries_good; inversion Hgames; subst; constructor; auto. }
  { cbn. apply list_lookup_middle. reflexivity. }
  { apply (entries_extend _ (heap w)).
    - intros b obj Hb Hlook. rewrite Hold1; assumption.
    - eapply entries_weaken; [|exact Hentries_good].
      intros b Hb _. apply lookup_lt_is_Some.
      destruct (heap w !! b); [eauto | contradiction]. }
  { constructor. }
  assert (Hlen1 : length (heap w1) = S n0) by (cbn; rewrite length_app; cbn; lia).
  assert (Hold : forall b, (b < n0)%nat -> heap w2 !! b = heap w !! b).
  { intros b Hb. rewrite Hold2 by lia. apply Hold1. exact Hb. }
  unfold bind at 1. rewrite preprocess_games_app. unfold bind at 1. rewrite Hrun2.
  (* the game of the comment *)
  apply represents_bounded in Hcv. fold n0 in Hcv.
  inversion Hcv as [ | | c cvals ? Hc Hcobj Hcvals | ]; subst.
  cbn [preprocess_games].
  unfold alloc at 1. unfold bind at 1.
  set (T := length (heap w2)).
  set (w3 := set_heap w2 (heap w2 ++ [OList []])).
  assert (Hold3 : forall b, (b < n0)%nat -> heap w3 !! b = heap w !! b).
  { intros b Hb. cbn. rewrite lookup_app_l by lia. apply Hold. exact Hb. }
  rewrite (bind_returns _ _ _ _ _ (py_iter_run c cvals w3 ltac:(rewrite Hold3; assumption))).
  apply Forall2_app_inv_r in Hcvals
    as (cgood & ctail & Hcgood & Hctail & ->).
  inversion Hctail as [|cbad ? crest ? Hcbad _]; subst.
  assert (Hext3 : forall b obj, (b < n0)%nat -> heap w !! b = Some obj ->
            heap w3 !! b = Some obj).
  { intros b obj Hb Hlook. rewrite Hold3 by exact Hb. exact Hlook. }
  destruct (preprocess_comments_run X n0 n0 T ltac:(subst T; lia) (le_n _) cgood good) with
    (done := @nil val) (done_data := @nil pyval) (w := w3)
    as (w4 & finalc & Hrun4 & Hlen4 & Hold4 & _).
  { clear -Hcgood Hgood. induction Hcgood; inversion Hgood; subst; constructor; auto. }
  { cbn. rewrite length_app. cbn. lia. }
  { cbn. apply list_lookup_middle. reflexivity. }
  { eapply Forall2_impl; [exact Hcgood|]. intros v o Hv.
    eapply represents_within_extend; [|exact Hv]. exact Hext3. }
  { constructor. }
  unfold bind at 1. rewrite preprocess_comments_app. unfold bind at 1. rewrite Hrun4.
  destruct (preprocess_comment_fails X (fun b => (b < n0)%nat) cbad bad crest (VRef T) w4)
    as (w5 & Hfail).
  { eapply represents_within_extend; [|exact Hcbad].
    intros b obj Hb Hlook. rewrite Hold4.
    - apply Hext3; assumption.
    - cbn. rewrite length_app. lia.
    - subst T. lia. }
  { exact Hbad. }
  rewrite Hfail. eexists. reflexivity.
Qed.

(** X20: [preprocess_dataset] stops at the first comment that has no string
    under ["value"], and returns nothing, however many comments came before
    it: a comment without the key raises [KeyError], a comment whose value
    is [None] (what [get_game_comments] builds for an element without a
    [value] attribute) raises [AttributeError]. *)
Theorem preprocess_dataset_fails (X : externals) (dataset : val)
    (data good_games rest_games : list (str * pyval)) (game : str)
    (good rest : list pyval) (bad : pyval) (w : world) :
  represents (heap w) dataset (PDict data) ->
  data = good_games ++ (game, PList (good ++ bad :: rest)) :: rest_games ->
  comments_have_text good_games ->
  Forall has_text good ->
  ~ has_text bad ->
  (exists w', preprocess_dataset X dataset w = (Raises (text_error bad), w'))
  /\ (forall fields, bad = PDict fields -> dict_get fields (py "value") = None ->
        text_error bad = KeyError)
  /\ (forall fields, bad = PDict fields -> dict_get fields (py "value") = Some PNone ->
        text_error bad = AttributeError).
Proof.
  intros Hdataset Hdata Hgames Hgood Hbad. split; [|split].
  - eapply preprocess_dataset_first_bad; eassumption.
  - intros fields -> Hv. unfold text_error. rewrite Hv. reflexivity.
  - intros fields -> Hv. unfold text_error. rewrite Hv. reflexivity.
Qed.

Lemma preprocess_dataset_fails_witness :
  exists w',
    preprocess_dataset sample_nltk (VRef 3) (set_heap initial_world second_comment_heap)
    = (Raises AttributeError, w').
Proof.
  destruct (proj1 (preprocess_dataset_fails sample_nltk (VRef 3)
              [ (py "Catan",
                 PList [ PDict [ (py "username", PStr (py "ann"));
                                 (py "rating", PStr (py "8"));
                                 (py "value", PStr (py "Great")) ];
                         PDict [ (py "username", PStr (py "bob"));
                                 (py "rating", PStr (py "N/A"));
                                 (py "value", PNone) ] ]) ]
              [] [] (py "Catan")
              [ PDict [ (py "username", PStr (py "ann"));
                        (py "rating", PStr (py "8"));
                        (py "value", PStr (py "Great")) ] ]
              []
              (PDict [ (py "username", PStr (py "bob"));
                       (py "rating", PStr (py "N/A"));
                       (py "value", PNone) ])
              (set_heap initial_world second_comment_heap)
              ltac:(repeat (econstructor; try reflexivity))
              eq_refl
              ltac:(constructor)
              ltac:(constructor; [eexists _, _; split; reflexivity | constructor])
              ltac:(intros (fields & value & Heq & Hv); injection Heq as <-;
                    vm_compute in Hv; discriminate)))
    as (w' & Hrun).
  exists w'. exact Hrun.
Defined.

(* ===================================================================== *)
(** * Further results: from the retriever to the preprocessor *)
(* ===================================================================== *)

Lemma existsb_str_eqb_In k keys : existsb (str_eqb k) keys = true <-> In k keys.
Proof.
  rewrite existsb_exists. split.
  - intros (x & Hin & Heq). unfold str_eqb in Heq.
    apply bool_decide_eq_true in Heq. subst x. exact Hin.
  - intros Hin. exists k. split; [exact Hin|].
    unfold str_eqb. apply bool_decide_eq_true. reflexivity.
Qed.

Lemma nodupb_app_fresh keys k :
  nodupb keys = true -> existsb (str_eqb k) keys = false -> nodupb (keys ++ [k]) = true.
Proof.
  induction keys as [|k' keys IH]; intros Hk Hnew; [reflexivity|].
  cbn [nodupb app] in *. apply andb_true_iff in Hk as [Hk' Hkeys].
  cbn [existsb] in Hnew. apply orb_false_iff in Hnew as [Hne Hnew].
  rewrite (IH Hkeys Hnew), andb_true_r.
  rewrite existsb_app. apply negb_true_iff in Hk'. rewrite Hk'. cbn [existsb orb].
  rewrite str_eqb_sym, Hne. reflexivity.
Qed.

Lemma dict_set_nodupb {V} (d : list (str * V)) k v :
  nodupb (map fst d) = true -> nodupb (map fst (dict_set d k v)) = true.
Proof.
  intros Hd. rewrite dict_set_keys.
  destruct (existsb (str_eqb k) (map fst d)) eqn:Hk.
  - rewrite app_nil_r. exact Hd.
  - apply nodupb_app_fresh; assumption.
Qed.

Lemma dict_set_comment_lists d k elements :
  comment_lists d ->
  comment_lists (dict_set d k (PList (map comment_of_element elements))).
Proof.
  unfold comment_lists. induction 1 as [|[k' v'] d Hv Hd IH]; cbn [dict_set].
  - constructor; [eexists; reflexivity | constructor].
  - destruct (str_eqb k' k).
    + constructor; [eexists; reflexivity | exact Hd].
    + constructor; [exact Hv | exact IH].
Qed.

Section RetrieveShape.
Context (X : externals) (self : DataRetriever) (max_comments : Z).

Lemma get_game_comments_shape client game_id w :
  exists elements w',
    get_game_comments X client game_id max_comments w
    = (Returns (map comment_of_element elements), w').
Proof.
  unfold get_game_comments, try_except, bind.
  destruct (_safe_api_call X client thing_url (comments_params game_id max_comments) w)
    as [[xml|e] w1]; [|exists []; eexists; reflexivity].
  destruct (_parse_xml X xml w1) as [[root|e] w2];
    [|exists []; eexists; reflexivity].
  eexists _, _. reflexivity.
Qed.

Lemma retrieve_comments_step_shape all_comments game_name w :
  exists r w',
    retrieve_comments_step X self max_comments all_comments game_name w = (Returns r, w')
    /\ (r = all_comments
        \/ exists elements,
             r = dict_set all_comments game_name (PList (map comment_of_element elements))).
Proof.
  unfold retrieve_comments_step, try_except, bind.
  destruct (get_game_id X (bgg_client self) game_name w) as [[[game_id|]|e] w1]; cbn.
  - destruct (get_game_comments_shape (bgg_client self) game_id w1)
      as (elements & w2 & ->). cbn.
    destruct (_save_game_comments X self game_name _ _) as [[[]|e] w3]; cbn;
      eexists _, _; (split; [reflexivity | right; eexists; reflexivity]).
  - eexists _, _. split; [reflexivity | left; reflexivity].
  - eexists _, _. split; [reflexivity | left; reflexivity].
Qed.

Lemma retrieve_comments_loop_shape games : forall all_comments w,
  nodupb (map fst all_comments) = true ->
  comment_lists all_comments ->
  exists r w',
    retrieve_comments_loop X self max_comments games all_comments w = (Returns r, w')
    /\ nodupb (map fst r) = true
    /\ comment_lists r
    /\ (forall name, In name (map fst r) ->
          In name (map fst all_comments) \/ In name games).
Proof.
  induction games as [|game_name games IH]; intros all_comments w Hkeys Hlists.
  - eexists _, _. split; [reflexivity|]. auto.
  - cbn [retrieve_comments_loop]. unfold bind.
    destruct (retrieve_comments_step_shape all_comments game_name w)
      as (r1 & w1 & -> & Hr1).
    destruct Hr1 as [-> | (elements & ->)].
    + destruct (IH all_comments w1 Hkeys Hlists) as (r & w' & -> & Hk & Hl & Hin).
      eexists _, _. split; [reflexivity|]. split; [exact Hk|]. split; [exact Hl|].
      intros name Hname. destruct (Hin name Hname); [left | right; right]; assumption.
    + destruct (IH (dict_set all_comments game_name
                      (PList (map comment_of_element elements))) w1)
        as (r & w' & -> & Hk & Hl & Hin).
      * apply dict_set_nodupb. exact Hkeys.
      * apply dict_set_comment_lists. exact Hlists.
      * eexists _, _. split; [reflexivity|]. split; [exact Hk|]. split; [exact Hl|].
        intros name Hname. destruct (Hin name Hname) as [Hold | Hrest];
          [|right; right; exact Hrest].
        rewrite dict_set_keys in Hold. apply in_app_or in Hold as [Hold | Hnew];
          [left; exact Hold|].
        destruct (existsb (str_eqb game_name) (map fst all_comments)); [destruct Hnew|].
        destruct Hnew as [<- | []]. right. left. reflexivity.
Qed.

Lemma retrieve_comments_returns_shape games w dataset w1 :
  retrieve_comments X self games max_comments w = (Returns dataset, w1) ->
  nodupb (map fst dataset) = true
  /\ comment_lists dataset
  /\ (forall name, In name (map fst dataset) -> In name games).
Proof.
  unfold retrieve_comments, bind. intros Hrun.
  destruct (retrieve_comments_loop_shape games [] w eq_refl (List.Forall_nil _))
    as (r & w' & Hloop & Hk & Hl & Hin).
  rewrite Hloop in Hrun.
  destruct (_save_full_dataset X self (PDict r) w') as [[[]|e] w2]; [|discriminate].
  injection Hrun as <- _. split; [exact Hk|]. split; [exact Hl|].
  intros name Hname. destruct (Hin name Hname) as [[] | H]; exact H.
Qed.

End RetrieveShape.

Lemma comment_of_element_unique_keys c : unique_keys (comment_of_element c) = true.
Proof.
  unfold comment_of_element.
  destruct (element_get c (py "username")), (element_get c (py "rating")),
    (element_get c (py "value")); reflexivity.
Qed.

Lemma comment_lists_unique_keys dataset :
  nodupb (map fst dataset) = true -> comment_lists dataset ->
  unique_keys (PDict dataset) = true.
Proof.
  intros Hk Hl. cbn [unique_keys]. rewrite Hk. cbn [andb].
  apply forallb_forall. intros entry Hin.
  unfold comment_lists in Hl. rewrite List.Forall_forall in Hl.
  destruct (Hl entry Hin) as (elements & ->). cbn [unique_keys].
  apply forallb_forall. intros o Ho. apply in_map_iff in Ho as (c & <- & _).
  apply comment_of_element_unique_keys.
Qed.

(** X21: the dictionary [retrieve_comments] returns is well formed,
    whatever the service answered: its keys are distinct names of the list
    it was given, and under every key there is a list of comment records,
    each with the three keys [username], [rating] and [value].  So it is data
    that the snapshot round trip applies to. *)
Theorem retrieve_comments_shape (X : externals) (self : DataRetriever)
    (games : list str) (max_comments : Z) (w w1 : world)
    (dataset : list (str * pyval)) :
  retrieve_comments X self games max_comments w = (Returns dataset, w1) ->
  nodupb (map fst dataset) = true
  /\ (forall name, In name (map fst dataset) -> In name games)
  /\ (forall name comments, In (name, comments) dataset ->
        exists elements, comments = PList (map comment_of_element elements))
  /\ unique_keys (PDict dataset) = true.
Proof.
  intros Hrun.
  destruct (retrieve_comments_returns_shape X self max_comments games w dataset w1 Hrun)
    as (Hk & Hl & Hin).
  split; [exact Hk|]. split; [exact Hin|]. split.
  - intros name comments Hentry. unfold comment_lists in Hl.
    rewrite List.Forall_forall in Hl. exact (Hl _ Hentry).
  - apply comment_lists_unique_keys; assumption.
Qed.

Lemma retrieve_comments_shape_witness :
  unique_keys
    (PDict (match fst (retrieve_comments sample_service sample_retriever
                         [py "Catan"; py "Nothing"; py "Catan"] 500 initial_world) with
            | Returns dataset => dataset
            | Raises _ => []
            end)) = true.
Proof.
  destruct (retrieve_comments sample_service sample_retriever
              [py "Catan"; py "Nothing"; py "Catan"] 500 initial_world)
    as [[dataset|e] w1] eqn:Hrun; [|reflexivity].
  exact (proj2 (proj2 (proj2
           (retrieve_comments_shape sample_service sample_retriever
              [py "Catan"; py "Nothing"; py "Catan"] 500 initial_world w1 dataset Hrun)))).
Defined.

(** A dataset whose comments all have text is preprocessed to the end. *)
Lemma preprocess_dataset_returns (X : externals) (dataset : val)
    (data : list (str * pyval)) (w : world) :
  represents (heap w) dataset (PDict data) ->
  nodupb (map fst data) = true ->
  comments_have_text data ->
  exists w',
    preprocess_dataset X dataset w = (Returns (VRef (length (heap w))), w')
    /\ represents (heap w') (VRef (length (heap w))) (PDict (preprocessed X data)).
Proof.
  intros Hdataset Hkeys Htext.
  inversion Hdataset as [ | | | a items ? _ Hobj Hentries ]; subst.
  assert (Ha_lt : (a < length (heap w))%nat) by (eapply lookup_lt_Some; exact Hobj).
  set (n0 := length (heap w)) in *.
  unfold preprocess_dataset.
  unfold alloc at 1. unfold bind at 1. fold n0.
  set (w1 := set_heap w (heap w ++ [ODict []])).
  assert (Hold1 : forall b, (b < n0)%nat -> heap w1 !! b = heap w !! b)
    by (intros b Hb; cbn; apply lookup_app_l; exact Hb).
  rewrite (bind_returns _ _ _ _ _ (py_items_run a items w1 ltac:(rewrite Hold1; assumption))).
  destruct (preprocess_games_run X n0 n0 (le_n _) items data) with
    (done := @nil (str * val)) (done_data := @nil (str * pyval)) (w := w1)
    as (w' & final & Hrun & _ & _ & Hfinal_obj & Hfinal).
  { clear -Hentries Htext. unfold comments_have_text in Htext.
    induction Hentries; inversion Htext; subst; constructor; auto. }
  { cbn. apply list_lookup_middle. reflexivity. }
  { apply (entries_extend _ (heap w)).
    - intros b obj Hb Hlook. rewrite Hold1; assumption.
    - eapply entries_weaken; [|exact Hentries].
      intros b Hb _. apply lookup_lt_is_Some.
      destruct (heap w !! b); [eauto | contradiction]. }
  { constructor. }
  rewrite (bind_returns _ _ _ _ _ Hrun).
  exists w'. split; [reflexivity|].
  change (fold_left _ (preprocessed X data) [])
    with (Json.dict_of_pairs (preprocessed X data)) in Hfinal.
  rewrite JsonFacts.dict_of_pairs_unique in Hfinal
    by (rewrite preprocessed_keys; exact Hkeys).
  econstructor; [exact I | exact Hfinal_obj |].
  eapply entries_weaken; [|exact Hfinal]. auto.
Qed.

Lemma has_text_decide comment : has_text comment \/ ~ has_text comment.
Proof.
  destruct comment as [ | s | items | fields ];
    try (right; intros (f & v & Heq & _); discriminate).
  destruct (dict_get fields (py "value")) as [[ | value | | ]|] eqn:Hv;
    try (right; intros (f & v & [= <-] & Hv'); congruence).
  left. eexists _, _. split; [reflexivity | exact Hv].
Qed.

Lemma first_without_text comments :
  Forall has_text comments
  \/ exists good bad rest,
       comments = good ++ bad :: rest /\ Forall has_text good /\ ~ has_text bad.
Proof.
  induction comments as [|c comments IH]; [left; constructor|].
  destruct (has_text_decide c) as [Hc | Hc].
  - destruct IH as [Hall | (good & bad & rest & -> & Hgood & Hbad)].
    + left. constructor; assumption.
    + right. exists (c :: good), bad, rest. split; [reflexivity|].
      split; [constructor; assumption | exact Hbad].
  - right. exists [], c, comments. split; [reflexivity|]. split; [constructor | exact Hc].
Qed.

Lemma first_game_without_text dataset :
  comment_lists dataset ->
  comments_have_text dataset
  \/ exists good_games game good bad rest rest_games element,
       dataset = good_games ++ (game, PList (good ++ bad :: rest)) :: rest_games
       /\ comments_have_text good_games
       /\ Forall has_text good
       /\ ~ has_text bad
       /\ bad = comment_of_element element.
Proof.
  unfold comment_lists, comments_have_text.
  induction 1 as [|[game cs] dataset (elements & Hcs) _ IH]; [left; constructor|].
  cbn [snd] in Hcs. subst cs.
  destruct (first_without_text (map comment_of_element elements))
    as [Hall | (good & bad & rest & Heq & Hgood & Hbad)].
  - destruct IH as [Hrest | (gg & g & good & bad & rest & rg & el & -> & Hgg & Hgood & Hbad & Hel)].
    + left. constructor; [|exact Hrest]. eexists. split; [reflexivity | exact Hall].
    + right. exists ((game, PList (map comment_of_element elements)) :: gg),
        g, good, bad, rest, rg, el.
      split; [reflexivity|]. split; [|auto].
      constructor; [|exact Hgg]. eexists. split; [reflexivity | exact Hall].
  - right.
    assert (Hel : exists element, bad = comment_of_element element).
    { assert (Hin : In bad (map comment_of_element elements))
        by (rewrite Heq; apply in_elt).
      apply in_map_iff in Hin as (el & <- & _). eauto. }
    destruct Hel as (el & Hel).
    exists [], game, good, bad, rest, dataset, el. rewrite Heq.
    split; [reflexivity|]. split; [constructor|]. auto.
Qed.

Lemma text_error_comment element :
  text_error (comment_of_element element) = AttributeError.
Proof. reflexivity. Qed.

(** X22: [preprocess_dataset] on the result of [retrieve_comments], the way
    [main] chains them.  In a world that holds the returned dictionary as
    objects, [preprocess_dataset] either goes through, which it does exactly when every comment the
    service delivered has a text under [value], and returns the preprocessed
    dataset; or it raises [AttributeError] at the first comment whose
    element had no [value] attribute, and returns nothing for any game. *)
Theorem retrieve_then_preprocess (X : externals) (self : DataRetriever)
    (games : list str) (max_comments : Z) (w w1 : world)
    (dataset : list (str * pyval)) (stored : val) (w2 : world) :
  retrieve_comments X self games max_comments w = (Returns dataset, w1) ->
  represents (heap w2) stored (PDict dataset) ->
  (comments_have_text dataset
   /\ exists w3,
        preprocess_dataset X stored w2 = (Returns (VRef (length (heap w2))), w3)
        /\ represents (heap w3) (VRef (length (heap w2)))
             (PDict (preprocessed X dataset)))
  \/ (~ comments_have_text dataset
      /\ exists w3, preprocess_dataset X stored w2 = (Raises AttributeError, w3)).
Proof.
  intros Hrun Hstored.
  destruct (retrieve_comments_returns_shape X self max_comments games w dataset w1 Hrun)
    as (Hk & Hl & _).
  destruct (first_game_without_text dataset Hl)
    as [Htext | (gg & g & good & bad & rest & rg & el & Hdata & Hgg & Hgood & Hbad & Hel)].
  - left. split; [exact Htext|].
    apply preprocess_dataset_returns; assumption.
  - right. split.
    + intros Htext. apply Hbad. subst dataset.
      unfold comments_have_text in Htext. rewrite List.Forall_forall in Htext.
      destruct (Htext (g, PList (good ++ bad :: rest))) as (cs & [= <-] & Hcs).
      { apply in_elt. }
      rewrite List.Forall_forall in Hcs. apply Hcs. apply in_elt.
    + destruct (preprocess_dataset_first_bad X stored dataset gg rg g good rest bad w2
                  Hstored Hdata Hgg Hgood Hbad) as (w3 & Hfail).
      rewrite Hel, text_error_comment in Hfail. eauto.
Qed.

Lemma retrieve_then_preprocess_witness :
  exists w3,
    preprocess_dataset sample_nltk (VRef 3) (set_heap initial_world catan_heap)
    = (Raises AttributeError, w3).
Proof.
  destruct (retrieve_comments sample_nltk sample_retriever [py "Catan"] 500 initial_world)
    as [[dataset|e] w1] eqn:Hrun; [|vm_compute in Hrun; discriminate].
  assert (Hdataset : dataset
            = [ (py "Catan",
                 PList [ PDict [ (py "username", PStr (py "ann"));
                                 (py "rating", PStr (py "8"));
                                 (py "value", PStr (py "Great!! (1995)")) ];
                         PDict [ (py "username", PStr (py "bob"));
                                 (py "rating", PStr (py "N/A"));
                                 (py "value", PNone) ] ]) ]).
  { vm_compute in Hrun. injection Hrun as <- _. reflexivity. }
  destruct (retrieve_then_preprocess sample_nltk sample_retriever [py "Catan"] 500
              initial_world w1 dataset (VRef 3) (set_heap initial_world catan_heap) Hrun)
    as [(_ & w3 & Hreturns & _) | (_ & w3 & Hraises)].
  - subst dataset. repeat (econstructor; try reflexivity).
  - vm_compute in Hreturns. discriminate.
  - exists w3. exact Hraises.
Defined.

(* --------------------------------------------------------------------- *)
(** ** Runs of the further results on the samples *)

Lemma safe_api_call_bounded_witness :
  (requests_sent (snd (_safe_api_call offline default_client search_url [] initial_world))
   <= 3)%nat.
Proof.
  pose proof (safe_api_call_bounded offline default_client search_url [] initial_world)
    as H.
  cbv zeta in H. destruct H as (k & t & Hrun & _ & _ & Hle & _).
  rewrite Hrun. cbn [requests_sent initial_world].
  change (Z.to_nat (max_retries default_client)) with 3%nat in Hle. exact Hle.
Defined.

Lemma sanitize_filename_safe_witness :
  _sanitize_filename sample_db (py "on_mars-2.0") = py "on_mars-2.0"
  /\ ~ In 47%N (_sanitize_filename sample_db (py "../etc/passwd")).
Proof.
  split.
  - apply (proj2 (proj2 (proj2 (proj2 (proj2
             (sanitize_filename_safe sample_db (py "on_mars-2.0"))))))).
    repeat (constructor; [reflexivity|]). constructor.
  - exact (proj1 (proj2 (sanitize_filename_safe sample_db (py "../etc/passwd")))).
Defined.

(* ===================================================================== *)
(** * Further results: edges of the lookups and of the loader *)
(* ===================================================================== *)

(** X23: [get_game_id] reads the [id] of the first [item] and of no other.
    When that element has no [id] attribute, [int(None)] raises [TypeError];
    when the attribute is not an integer, [int] raises [ValueError]; either
    way the lookup logs the error and returns [None], as for an unknown
    name, even when a later [item] has a good id. *)
Theorem get_game_id_bad_id (X : externals) (self : BGGDataClient)
    (game_name body : str) (root game : element) (w w1 : world) :
  _safe_api_call X self search_url (search_params game_name) w
    = (Returns (Some body), w1) ->
  ET_fromstring X body = Some root ->
  element_find root (py "item") = Some game ->
  (element_get game (py "id") = None ->
   get_game_id X self game_name w
   = (Returns None, add_events w1 [EvLog ERROR (MsgFailedGameId game_name TypeError)]))
  /\ (forall id, element_get game (py "id") = Some id -> int_of_str X id = None ->
        get_game_id X self game_name w
        = (Returns None,
           add_events w1 [EvLog ERROR (MsgFailedGameId game_name ValueError)])).
Proof.
  intros Hfetch Hok Hfind. split.
  - intros Hid. unfold get_game_id, try_except, bind. rewrite Hfetch.
    rewrite (parse_xml_wellformed X body root) by exact Hok.
    rewrite Hfind. unfold int. rewrite Hid. reflexivity.
  - intros id Hid Hint. unfold get_game_id, try_except, bind. rewrite Hfetch.
    rewrite (parse_xml_wellformed X body root) by exact Hok.
    rewrite Hfind. unfold int. rewrite Hid, Hint. reflexivity.
Qed.

Lemma get_game_id_bad_id_witness :
  get_game_id bad_id_service default_client (py "Catan") initial_world
  = (Returns None,
     {| requests_sent := 1; files := ∅; heap := [];
        trace := [ EvGet search_url (search_params (py "Catan"));
                   EvLog ERROR (MsgFailedGameId (py "Catan") ValueError) ] |}).
Proof.
  exact (proj2 (get_game_id_bad_id bad_id_service default_client (py "Catan") []
                  (Element (py "items") [] None
                     [ Element (py "item") [(py "id", py "thirteen")] None [];
                       Element (py "item") [(py "id", py "13")] None [] ])
                  (Element (py "item") [(py "id", py "thirteen")] None [])
                  initial_world
                  {| requests_sent := 1; files := ∅; heap := [];
                     trace := [EvGet search_url (search_params (py "Catan"))] |}
                  eq_refl eq_refl eq_refl)
           (py "thirteen") eq_refl eq_refl).
Defined.

(** X24: which file [load_local_dataset] reads: the [source] when it is a
    non-empty string; otherwise the [download_path] of the retriever when
    that is a non-empty string; otherwise the aggregate file in the output
    directory.  An empty string counts as absent.  The path is never
    empty, and a retriever made with a [download_path] opens that path, not
    its own aggregate path, unless it is given a [source]. *)
Theorem load_path_precedence (self : DataRetriever) :
  (forall c rest, load_path self (Some (c :: rest)) = c :: rest)
  /\ (forall source c rest,
        source = None \/ source = Some [] ->
        download_path self = Some (c :: rest) ->
        load_path self source = c :: rest)
  /\ (forall source,
        source = None \/ source = Some [] ->
        download_path self = None \/ download_path self = Some [] ->
        load_path self source = full_dataset_path self)
  /\ (forall source, load_path self source <> []).
Proof.
  assert (Hfull : full_dataset_path self <> []).
  { unfold full_dataset_path, os_path_join.
    change (py "full_comments_dataset.json")
      with (102%N :: py "ull_comments_dataset.json").
    cbv iota beta.
    destruct (last (output_dir self)) as [c|]; [destruct (c =? 47)%N|];
      intros H; apply (f_equal (@length char)) in H;
      rewrite ?length_app in H; cbn in H; lia. }
  split; [reflexivity|]. split; [|split].
  - intros source c rest [-> | ->] Hd; unfold load_path; rewrite Hd; reflexivity.
  - intros source [-> | ->] [Hd | Hd]; unfold load_path; rewrite Hd; reflexivity.
  - intros source. unfold load_path.
    destruct source as [[|c rest]|]; cbn [or_else]; try discriminate;
      destruct (download_path self) as [[|c rest]|]; cbn [or_else];
      try discriminate; exact Hfull.
Qed.

Lemma load_path_precedence_witness :
  load_path (DataRetriever_init (py "data/raw_comments") (Some (py "elsewhere.json")))
    (Some [])
  = py "elsewhere.json".
Proof.
  apply (proj1 (proj2 (load_path_precedence
                         (DataRetriever_init (py "data/raw_comments")
                            (Some (py "elsewhere.json")))))).
  - right. reflexivity.
  - reflexivity.
Defined.

(* ===================================================================== *)
(** * Further results: preprocessing twice *)
(* ===================================================================== *)

Lemma dict_set_same {V} (d : list (str * V)) k v :
  dict_get d k = Some v -> dict_set d k v = d.
Proof.
  induction d as [|[k' v'] d IH]; cbn [dict_get dict_set]; [discriminate|].
  destruct (str_eqb k' k).
  - intros [= ->]. reflexivity.
  - intros H. rewrite IH by exact H. reflexivity.
Qed.

Section PreprocessedTwice.
Context (X : externals).

Lemma preprocessed_comment_value fields value :
  dict_get fields (py "value") = Some (PStr value) ->
  exists fields',
    preprocessed_comment X (PDict fields) = PDict fields'
    /\ dict_get fields' (py "value") = Some (PStr value)
    /\ dict_get fields' (py "clean_text") = Some (PStr (clean_text (unicode X) value))
    /\ dict_get fields' (py "tokens")
       = Some (PList (map PStr (tokens_of X (clean_text (unicode X) value)))).
Proof.
  intros Hvalue. unfold preprocessed_comment. rewrite Hvalue.
  eexists. split; [reflexivity|]. split; [|split].
  - rewrite !dict_get_set_ne by discriminate. exact Hvalue.
  - rewrite dict_get_set_ne by discriminate. apply dict_get_set_eq.
  - apply dict_get_set_eq.
Qed.

Lemma preprocessed_comment_idempotent comment :
  preprocessed_comment X (preprocessed_comment X comment) = preprocessed_comment X comment.
Proof.
  destruct comment as [ | s | items | fields ]; try reflexivity.
  destruct (dict_get fields (py "value")) as [[ | value | | ]|] eqn:Hvalue;
    try (unfold preprocessed_comment at 2; rewrite Hvalue;
         unfold preprocessed_comment; rewrite Hvalue; reflexivity).
  destruct (preprocessed_comment_value fields value Hvalue)
    as (fields' & -> & Hv & Hc & Ht).
  unfold preprocessed_comment. rewrite Hv.
  rewrite (dict_set_same fields' (py "clean_text")) by exact Hc.
  rewrite (dict_set_same fields' (py "tokens")) by exact Ht.
  reflexivity.
Qed.

Lemma preprocessed_idempotent data :
  preprocessed X (preprocessed X data) = preprocessed X data.
Proof.
  unfold preprocessed. rewrite map_map. apply map_ext. intros [game comments].
  cbn [fst snd]. f_equal.
  destruct comments as [ | s | items | fields ]; try reflexivity.
  cbn [preprocessed_comments]. rewrite map_map. f_equal.
  apply map_ext. intros c. apply preprocessed_comment_idempotent.
Qed.

Lemma has_text_preprocessed comment :
  has_text comment -> has_text (preprocessed_comment X comment).
Proof.
  intros (fields & value & -> & Hvalue).
  destruct (preprocessed_comment_value fields value Hvalue) as (fields' & -> & Hv & _).
  eexists _, _. split; [reflexivity | exact Hv].
Qed.

Lemma comments_have_text_preprocessed data :
  comments_have_text data -> comments_have_text (preprocessed X data).
Proof.
  unfold comments_have_text, preprocessed. intros H.
  apply List.Forall_forall. intros entry Hin.
  apply in_map_iff in Hin as ([game comments] & <- & Hin).
  rewrite List.Forall_forall in H. destruct (H _ Hin) as (cs & Hcs & Htext).
  cbn [fst snd] in *. subst comments. cbn [preprocessed_comments].
  eexists. split; [reflexivity|].
  apply List.Forall_forall. intros c Hc. apply in_map_iff in Hc as (c0 & <- & Hc0).
  apply has_text_preprocessed. rewrite List.Forall_forall in Htext. auto.
Qed.

End PreprocessedTwice.

(** X25: preprocessing a preprocessed dataset changes nothing in the data:
    [clean_text] and [tokens] are computed from [value] again and overwrite
    themselves.  The second call returns another new dictionary that reads
    as the first result, and the first result is left as it was. *)
Theorem preprocess_dataset_twice (X : externals) (dataset : val)
    (data : list (str * pyval)) (w : world) :
  represents (heap w) dataset (PDict data) ->
  nodupb (map fst data) = true ->
  comments_have_text data ->
  exists first w1 second w2,
    preprocess_dataset X dataset w = (Returns first, w1)
    /\ preprocess_dataset X first w1 = (Returns second, w2)
    /\ second <> first
    /\ represents (heap w2) second (PDict (preprocessed X data))
    /\ represents (heap w2) first (PDict (preprocessed X data))
    /\ represents (heap w2) dataset (PDict data).
Proof.
  intros Hdataset Hkeys Htext.
  destruct (preprocess_dataset_returns X dataset data w Hdataset Hkeys Htext)
    as (w1 & Hrun1 & Hfirst).
  destruct (preprocess_dataset_returns X (VRef (length (heap w))) (preprocessed X data) w1
              Hfirst)
    as (w2 & Hrun2 & Hsecond).
  { rewrite preprocessed_keys. exact Hkeys. }
  { apply comments_have_text_preprocessed. exact Htext. }
  rewrite preprocessed_idempotent in Hsecond.
  assert (Hext1 : forall a o, heap w !! a = Some o -> heap w1 !! a = Some o).
  { intros a o Ha.
    destruct (keeps_preprocess_dataset X (length (heap w)) dataset w (le_n _))
      as (_ & Hsame & _).
    rewrite Hrun1 in Hsame. cbn [snd] in Hsame.
    rewrite Hsame; [exact Ha|]. eapply lookup_lt_Some. exact Ha. }
  assert (Hext2 : forall a o, heap w1 !! a = Some o -> heap w2 !! a = Some o).
  { intros a o Ha.
    destruct (keeps_preprocess_dataset X (length (heap w1)) (VRef (length (heap w))) w1
                (le_n _)) as (_ & Hsame & _).
    rewrite Hrun2 in Hsame. cbn [snd] in Hsame.
    rewrite Hsame; [exact Ha|]. eapply lookup_lt_Some. exact Ha. }
  exists (VRef (length (heap w))), w1, (VRef (length (heap w1))), w2.
  split; [exact Hrun1|]. split; [exact Hrun2|]. split; [|split; [|split]].
  - inversion Hfirst as [ | | | a items ? _ Hobj _ ]; subst.
    apply lookup_lt_Some in Hobj. intros [= Heq]. lia.
  - exact Hsecond.
  - eapply represents_extend; [exact Hext2 | exact Hfirst].
  - eapply represents_extend; [exact Hext2|].
    eapply represents_extend; [exact Hext1 | exact Hdataset].
Qed.

Lemma preprocess_dataset_twice_witness :
  exists first w1 second w2,
    preprocess_dataset sample_nltk (VRef 2) (set_heap initial_world sample_heap)
    = (Returns first, w1)
    /\ preprocess_dataset sample_nltk first w1 = (Returns second, w2)
    /\ second <> first.
Proof.
  destruct (preprocess_dataset_twice sample_nltk (VRef 2)
              [ (py "Catan",
                 PList [ PDict [ (py "username", PStr (py "ann"));
                                 (py "rating", PStr (py "8"));
                                 (py "value", PStr (py "Catan IS Great!! (1995)")) ] ]) ]
              (set_heap initial_world sample_heap))
    as (first & w1 & second & w2 & Hrun1 & Hrun2 & Hne & _).
  - repeat (econstructor; try reflexivity).
  - reflexivity.
  - repeat (econstructor; try reflexivity).
  - exists first, w1, second, w2. auto.
Defined.

(* ===================================================================== *)
(** * Further results: the files and the entries of a retrieval *)
(* ===================================================================== *)

Lemma touches_quiet {A} paths (m : M A) : quiet_M m -> touches_only paths m.
Proof.
  intros Hq w. destruct (Hq w) as (Hf & Hh & _). split; [exact Hh|].
  intros path _. rewrite Hf. reflexivity.
Qed.

Lemma touches_bind {A B} paths (m : M A) (k : A -> M B) :
  touches_only paths m -> (forall a, touches_only paths (k a)) ->
  touches_only paths (bind m k).
Proof.
  intros Hm Hk w. unfold bind. destruct (Hm w) as (Hh & Hf).
  destruct (m w) as [[a|e] w1]; cbn [snd] in *; [|auto].
  destruct (Hk a w1) as (Hh' & Hf'). split; [congruence|].
  intros path Hp. rewrite Hf', Hf by exact Hp. reflexivity.
Qed.

Lemma touches_try_except {A} paths (m : M A) handles (h : exn -> M A) :
  touches_only paths m -> (forall e, touches_only paths (h e)) ->
  touches_only paths (try_except m handles h).
Proof.
  intros Hm Hh w. unfold try_except. destruct (Hm w) as (Hheap & Hf).
  destruct (m w) as [[a|e] w1]; cbn [snd] in *; [auto|].
  destruct (handles e); cbn [snd]; [|auto].
  destruct (Hh e w1) as (Hheap' & Hf'). split; [congruence|].
  intros path Hp. rewrite Hf', Hf by exact Hp. reflexivity.
Qed.

Lemma touches_weaken {A} (paths paths' : str -> Prop) (m : M A) :
  (forall path, paths path -> paths' path) ->
  touches_only paths m -> touches_only paths' m.
Proof.
  intros Hsub Hm w. destruct (Hm w) as (Hh & Hf). split; [exact Hh|].
  intros path Hp. apply Hf. intros Hin. apply Hp, Hsub, Hin.
Qed.

Section RetrieveFiles.
Context (X : externals) (self : DataRetriever) (max_comments : Z).

Lemma touches_write_json path o : touches_only (eq path) (write_json X path o).
Proof.
  intros w. unfold write_json. destruct (write_refused X path); cbn; [auto|].
  destruct (utf8_encodable (Json.dumps o)); cbn;
    (split; [reflexivity|]); intros other Hne; apply lookup_insert_ne; exact Hne.
Qed.

Lemma touches_save_game_comments game_name comments :
  touches_only (eq (game_file X self game_name))
    (_save_game_comments X self game_name comments).
Proof.
  unfold _save_game_comments. apply touches_try_except.
  - apply touches_bind; [apply touches_write_json|].
    intros _. apply touches_quiet, quiet_log.
  - intros e. apply touches_quiet, quiet_log.
Qed.

Lemma touches_save_full_dataset dataset :
  touches_only (eq (full_dataset_path self)) (_save_full_dataset X self dataset).
Proof.
  unfold _save_full_dataset. apply touches_try_except.
  - apply touches_bind; [apply touches_write_json|].
    intros _. apply touches_quiet, quiet_log.
  - intros e. apply touches_quiet, quiet_log.
Qed.

Lemma touches_retrieve_comments_step all_comments game_name :
  touches_only (eq (game_file X self game_name))
    (retrieve_comments_step X self max_comments all_comments game_name).
Proof.
  unfold retrieve_comments_step. apply touches_try_except.
  - apply touches_bind; [apply touches_quiet, quiet_get_game_id|].
    intros [game_id|].
    + apply touches_bind; [apply touches_quiet, quiet_get_game_comments|].
      intros comments. apply touches_try_except.
      * apply touches_bind; [apply touches_quiet, quiet_log|]. intros _.
        apply touches_bind; [apply touches_save_game_comments|]. intros _.
        apply touches_quiet, quiet_ret.
      * intros e. apply touches_bind; [apply touches_quiet, quiet_log|].
        intros _. apply touches_quiet, quiet_ret.
    + apply touches_bind; [apply touches_quiet, quiet_log|].
      intros _. apply touches_quiet, quiet_ret.
  - intros e. apply touches_bind; [apply touches_quiet, quiet_log|].
    intros _. apply touches_quiet, quiet_ret.
Qed.

Lemma touches_retrieve_comments_loop games : forall all_comments,
  touches_only (fun path => exists name, In name games /\ path = game_file X self name)
    (retrieve_comments_loop X self max_comments games all_comments).
Proof.
  induction games as [|game_name games IH]; intros all_comments.
  - apply touches_quiet, quiet_ret.
  - cbn [retrieve_comments_loop]. apply touches_bind.
    + eapply touches_weaken; [|apply touches_retrieve_comments_step].
      intros path <-. exists game_name. split; [left; reflexivity | reflexivity].
    + intros r. eapply touches_weaken; [|apply IH].
      intros path (name & Hin & ->). exists name. split; [right; exact Hin | reflexivity].
Qed.

End RetrieveFiles.

(** X26: [retrieve_comments] writes where it says and nowhere else: however
    the service and the file system behave and however the call ends, every
    file that is neither the aggregate file nor the file of one of the given
    names is the same after the call, and so is every object. *)
Theorem retrieve_comments_touches (X : externals) (self : DataRetriever)
    (games : list str) (max_comments : Z) (w : world) :
  let w' := snd (retrieve_comments X self games max_comments w) in
  heap w' = heap w
  /\ forall path,
       path <> full_dataset_path self ->
       (forall name, In name games -> path <> game_file X self name) ->
       files w' !! path = files w !! path.
Proof.
  assert (H : touches_only
                (fun path => path = full_dataset_path self
                             \/ exists name, In name games /\ path = game_file X self name)
                (retrieve_comments X self games max_comments)).
  { unfold retrieve_comments. apply touches_bind.
    - eapply touches_weaken; [|apply touches_retrieve_comments_loop]. auto.
    - intros all_comments. apply touches_bind.
      + eapply touches_weaken; [|apply touches_save_full_dataset].
        intros path <-. left. reflexivity.
      + intros _. apply touches_quiet, quiet_ret. }
  destruct (H w) as (Hh & Hf). split; [exact Hh|].
  intros path Hfull Hgames. apply Hf.
  intros [-> | (name & Hin & ->)]; [contradiction | exact (Hgames name Hin eq_refl)].
Qed.

Lemma retrieve_comments_touches_witness :
  files (snd (retrieve_comments sample_service sample_retriever [py "Catan"] 500
                (set_file initial_world (py "notes.txt") (FileText (py "mine")))))
    !! py "notes.txt"
  = Some (FileText (py "mine")).
Proof.
  rewrite (proj2 (retrieve_comments_touches sample_service sample_retriever [py "Catan"]
                    500 (set_file initial_world (py "notes.txt") (FileText (py "mine"))))).
  - apply lookup_insert_eq.
  - vm_compute. discriminate.
  - intros name [<- | []]. vm_compute. discriminate.
Defined.

(** X27: one turn of the loop of [retrieve_comments] for a name whose id is
    found.  The comments are entered under the name before they are saved:
    an existing entry is replaced in its place, a new one goes to the end,
    every other entry stays.  The entry is kept also when saving fails: when
    the comments hold text UTF-8 cannot encode, the turn logs "error
    retrieving" for a game whose comments it did retrieve, and leaves the
    file of the game cut short.  A name without id changes nothing. *)
Theorem retrieve_comments_step_entry (X : externals) (self : DataRetriever)
    (max_comments : Z) (all_comments : list (str * pyval)) (game_name : str)
    (w w1 : world) :
  (forall game_id comments w2,
     get_game_id X (bgg_client self) game_name w = (Returns (Some game_id), w1) ->
     get_game_comments X (bgg_client self) game_id max_comments w1
       = (Returns comments, w2) ->
     let entered := dict_set all_comments game_name (PList comments) in
     fst (retrieve_comments_step X self max_comments all_comments game_name w)
       = Returns entered
     /\ dict_get entered game_name = Some (PList comments)
     /\ (forall other, other <> game_name ->
           dict_get entered other = dict_get all_comments other)
     /\ map fst entered
        = map fst all_comments
          ++ (if existsb (str_eqb game_name) (map fst all_comments) then []
              else [game_name])
     /\ (write_refused X (game_file X self game_name) = false ->
         encodable (PList comments) = false ->
         retrieve_comments_step X self max_comments all_comments game_name w
         = (Returns entered,
            add_events
              (set_file
                 (add_events w2 [EvLog INFO (MsgRetrieved (length comments) game_name);
                                 EvWrite (game_file X self game_name)])
                 (game_file X self game_name) FileTruncated)
              [EvLog ERROR (MsgErrorRetrieving game_name UnicodeEncodeError)])))
  /\ (get_game_id X (bgg_client self) game_name w = (Returns None, w1) ->
      retrieve_comments_step X self max_comments all_comments game_name w
      = (Returns all_comments, add_events w1 [EvLog WARNING (MsgGameNotFound game_name)])).
Proof.
  split.
  - intros game_id comments w2 Hid Hcomments entered.
    split; [|split; [|split; [|split]]].
    + unfold retrieve_comments_step, try_except, bind. rewrite Hid, Hcomments.
      cbn [log emit].
      destruct (_save_game_comments X self game_name (PList comments) _)
        as [[[]|e] w3]; reflexivity.
    + apply dict_get_set_eq.
    + intros other Hne. apply dict_get_set_ne. congruence.
    + apply dict_set_keys.
    + intros Hw He. unfold retrieve_comments_step, try_except, bind.
      rewrite Hid, Hcomments. cbn [log emit].
      unfold _save_game_comments, try_except, bind.
      rewrite write_json_not_encodable by assumption.
      cbn. unfold add_events, set_file. cbn. rewrite <- !app_assoc. reflexivity.
  - intros Hid. unfold retrieve_comments_step, try_except, bind. rewrite Hid.
    reflexivity.
Qed.

Lemma retrieve_comments_step_entry_witness :
  exists w',
    retrieve_comments_step surrogate_service sample_retriever 500
      [(py "Catan", PList [])] (py "Catan") initial_world
    = (Returns [(py "Catan",
                 PList [PDict [ (py "username", PNone); (py "rating", PNone);
                                (py "value", PStr [0xD800%N]) ]])],
       w')
    /\ files w' !! game_file surrogate_service sample_retriever (py "Catan")
       = Some FileTruncated.
Proof.
  eexists. split.
  - apply (proj2 (proj2 (proj2 (proj2
      (proj1 (retrieve_comments_step_entry surrogate_service sample_retriever 500
                [(py "Catan", PList [])] (py "Catan") initial_world
                {| requests_sent := 1; files := ∅; heap := [];
                   trace := [EvGet search_url (search_params (py "Catan"))] |})
         13
         [PDict [ (py "username", PNone); (py "rating", PNone);
                  (py "value", PStr [0xD800%N]) ]]
         {| requests_sent := 2; files := ∅; heap := [];
            trace := [EvGet search_url (search_params (py "Catan"));
                      EvGet thing_url (comments_params 13 500)] |}
         eq_refl eq_refl))))); reflexivity.
  - cbn. apply lookup_insert_eq.
Defined.
